(** * RealmsPlayerlistBot: presence events, startup recovery and dispatch

    A shallow embedding of [main.py] ([start] and the module-level bot
    fields) and of [exts/pl_event_handling.py] (the four listeners of
    [PlayerlistEventHandling]); further down, of the other functions of
    [main.py] and of [exts/etc_events.py], [exts/voting.py] and
    [cogs/general_cmds.py].

    Python sets and dicts are stdpp [gset]s and [gmap]s; a [defaultdict]
    inserts its default on a missing key, as Python does.  The handlers
    run in a small state/trace/exception monad: the state is the bot and
    the two database tables, the trace records every call that leaves the
    two modelled files (Discord, the Realms API, [common.playerlist_utils]),
    and the answers of those calls come from an environment record. *)

From stdpp Require Import gmap strings list fin_maps pretty.
From Stdlib Require Import ZArith Lia.

Open Scope Z_scope.
Open Scope string_scope.
Open Scope list_scope.

(** ** Exceptions *)

Inductive exn : Type :=
  | ValueError
  | KeyError
  | DoesNotExist
  | HTTPException
  | MicrosoftAPIException (status : Z)
  | OtherException (name : string).

#[global] Instance exn_eq_dec : EqDecision exn.
Proof. solve_decision. Defined.

(** ** Data model *)

(** [models.PlayerSession], with the columns the two files read or write.
    Timestamps are microseconds since the epoch. *)
Record PlayerSession : Type := mkPlayerSession {
  custom_id : Z;
  realm_id : string;
  xuid : string;
  online : bool;
  last_seen : Z
}.

#[global] Instance PlayerSession_eq_dec : EqDecision PlayerSession.
Proof. solve_decision. Defined.

(** The key [f"{event.realm_id}-{p}"] of [on_live_playerlist_send],
    line 37. *)
Definition realm_xuid_key (realm p : string) : string := realm +:+ "-" +:+ p.

(** Modelled from the spec: the property [PlayerSession.realm_xuid_id] is
    declared in [common/models.py]; the spec keys the identity map by
    ["{realm_id}-{participant_id}"], the key line 37 builds. *)
Definition realm_xuid_id (s : PlayerSession) : string :=
  realm_xuid_key (realm_id s) (xuid s).

Record PremiumCode : Type := mkPremiumCode { pc_id : Z }.

(** [models.GuildConfig]; [guild_id] is the primary key, [premium_code] the
    prefetched relation ([None] when the foreign key is null). *)
Record GuildConfig : Type := mkGuildConfig {
  guild_id : Z;
  cfg_realm_id : option string;
  club_id : option string;
  playerlist_chan : option Z;
  live_playerlist : bool;
  fetch_devices : bool;
  warning_notifications : bool;
  realm_offline_role : option Z;
  premium_code : option PremiumCode
}.

#[global] Instance PremiumCode_eq_dec : EqDecision PremiumCode.
Proof. solve_decision. Defined.

#[global] Instance GuildConfig_eq_dec : EqDecision GuildConfig.
Proof. solve_decision. Defined.

(** Python truthiness of the optional columns. *)
Definition truthy_id (o : option Z) : bool :=
  match o with
  | Some z => negb (Z.eqb z 0)
  | None => false
  end.

Definition truthy_str (o : option string) : bool :=
  match o with
  | Some s => negb (String.eqb s "")
  | None => false
  end.

Definition truthy_obj {A : Type} (o : option A) : bool :=
  match o with
  | Some _ => true
  | None => false
  end.

(** The bot fields of [main.py] lines 250-257 that the handlers use, plus
    [fetch_devices_for] and [own_gamertag], which are set elsewhere. *)
Record Bot : Type := mkBot {
  uuid_cache : gmap string Z;
  online_cache : gmap Z (gset string);
  live_playerlist_store : gmap string (gset Z);
  fetch_devices_for : gset string;
  offline_realms : list Z;
  own_gamertag : string
}.

(** The state a handler can change: the bot, the two tables, and how many
    times [uuid.uuid4] has been called. *)
Record World : Type := mkWorld {
  bot : Bot;
  guild_configs : list GuildConfig;
  player_sessions : list PlayerSession;
  uuid_calls : nat
}.

Definition set_bot (b : Bot) (w : World) : World :=
  mkWorld b (guild_configs w) (player_sessions w) (uuid_calls w).

Definition set_uuid_cache (m : gmap string Z) (b : Bot) : Bot :=
  mkBot m (online_cache b) (live_playerlist_store b) (fetch_devices_for b)
        (offline_realms b) (own_gamertag b).

Definition set_online_cache (m : gmap Z (gset string)) (b : Bot) : Bot :=
  mkBot (uuid_cache b) m (live_playerlist_store b) (fetch_devices_for b)
        (offline_realms b) (own_gamertag b).

Definition set_live_playerlist_store (m : gmap string (gset Z)) (b : Bot) : Bot :=
  mkBot (uuid_cache b) (online_cache b) m (fetch_devices_for b)
        (offline_realms b) (own_gamertag b).

Definition set_fetch_devices_for (s : gset string) (b : Bot) : Bot :=
  mkBot (uuid_cache b) (online_cache b) (live_playerlist_store b) s
        (offline_realms b) (own_gamertag b).

Definition set_offline_realms (l : list Z) (b : Bot) : Bot :=
  mkBot (uuid_cache b) (online_cache b) (live_playerlist_store b)
        (fetch_devices_for b) l (own_gamertag b).

(** [bot.uuid_cache = defaultdict(uuid.uuid4)], [defaultdict(set)]: the
    fields start empty. *)
Definition initial_bot : Bot :=
  mkBot ∅ ∅ ∅ ∅ [] "".

(** ** Events ([common.playerlist_events]) *)

Record LivePlayerlistSend : Type := mkLivePlayerlistSend {
  lps_realm_id : string;
  lps_joined : gset string;
  lps_left : gset string;
  lps_timestamp : Z
}.

(** [configs] is the list the event's query yields when it is iterated. *)
Record RealmDown : Type := mkRealmDown {
  rd_realm_id : string;
  rd_disconnected : gset string;
  rd_timestamp : Z;
  rd_configs : list GuildConfig
}.

Record WarnMissingPlayerlist : Type := mkWarnMissingPlayerlist {
  wmp_realm_id : string;
  wmp_configs : list GuildConfig
}.

(** The session columns [update_fields] can name. *)
Inductive SessionField : Type :=
  | F_custom_id | F_realm_id | F_xuid | F_online | F_last_seen.

#[global] Instance SessionField_eq_dec : EqDecision SessionField.
Proof. solve_decision. Defined.

Record Container : Type := mkContainer {
  ctr_player_sessions : list PlayerSession;
  ctr_fields : list SessionField
}.

Record PlayerlistParseFinish : Type := mkPlayerlistParseFinish {
  ppf_containers : list Container
}.

(** ** Messages *)

Record Embed : Type := mkEmbed {
  e_color : string;
  e_title : option string;
  e_description : option string;
  e_timestamp : option Z;
  e_footer : option string;
  e_fields : list (string * string)
}.

Record Message : Type := mkMessage {
  m_content : option string;
  m_embed : Embed
}.

#[global] Instance Embed_eq_dec : EqDecision Embed.
Proof. solve_decision. Defined.

#[global] Instance Message_eq_dec : EqDecision Message.
Proof. solve_decision. Defined.

(** A fetched role: its mention string and whether it is mentionable. *)
Record Role : Type := mkRole {
  role_mention : string;
  role_mentionable : bool
}.

(** A player returned by [fill_in_gamertags_for_sessions]. *)
Record Player : Type := mkPlayer {
  pl_xuid : string;
  pl_base_display : string
}.

(** ** Trace of outgoing calls *)

Inductive Action : Type :=
  | AInvalidatePremium (c : GuildConfig)
  | AEventuallyInvalidate (c : GuildConfig) (limit : option Z)
  | AEventuallyInvalidateRealmOffline (c : GuildConfig)
  | AFetchPlayerlistChannel (c : GuildConfig)
  | AFetchRole (guild role : Z)
  | ASend (c : GuildConfig) (chan : Z) (m : Message)
  | AFillInGamertags (sessions : list PlayerSession) (bypass_cache_for : gset string)
  | ADispatch (ev : LivePlayerlistSend)
  | ALeaveRealm (realm : string)
  | ALogWarning (text : string).

(** The configuration a call is about, when there is one. *)
Definition action_guild (a : Action) : option Z :=
  match a with
  | AInvalidatePremium c
  | AEventuallyInvalidate c _
  | AEventuallyInvalidateRealmOffline c
  | AFetchPlayerlistChannel c
  | ASend c _ _ => Some (guild_id c)
  | AFetchRole g _ => Some g
  | AFillInGamertags _ _ | ADispatch _ | ALeaveRealm _ | ALogWarning _ => None
  end.

(** ** Environment

    What the world outside the two files answers.  [uuid4_at n] is the value
    of the [n]-th call of [uuid.uuid4]; [py_int] is the builtin [int] on
    strings ([None] when it raises [ValueError]); [environ] is [os.environ];
    the remaining fields are the outcomes of Discord, the Realms API and the
    helpers of [common.playerlist_utils] that return a value;
    [bulk_create_error rows table] is the exception with which the database
    rejects the batch [rows] on the session table [table], if it does. *)
Record Env : Type := mkEnv {
  uuid4_at : nat → Z;
  py_int : string → option Z;
  environ : gmap string string;
  TEST_MODE : bool;
  redis_missing_realm_keys : list string;
  get_guild : Z → bool;
  fetch_role : Z → Z → exn + option Role;
  fetch_playerlist_channel : GuildConfig → exn + Z;
  can_mention_everyone : Z → Z → bool;
  chan_send : Z → Message → option exn;
  leave_realm : string → option exn;
  fill_in_gamertags_for_sessions :
    list PlayerSession → gset string → exn + list Player;
  mention_cmd : string → string;
  bulk_create_error : list PlayerSession → list PlayerSession → option exn
}.

(** ** The handler monad *)

Record Run (A : Type) : Type := mkRun {
  r_world : World;
  r_log : list Action;
  r_res : exn + A
}.
Arguments mkRun {A} _ _ _.
Arguments r_world {A} _.
Arguments r_log {A} _.
Arguments r_res {A} _.

Definition M (A : Type) : Type := World → Run A.

Definition ret {A : Type} (a : A) : M A := λ w, mkRun w [] (inr a).

Definition raise {A : Type} (e : exn) : M A := λ w, mkRun w [] (inl e).

Definition bind {A B : Type} (m : M A) (k : A → M B) : M B :=
  λ w,
    let r := m w in
    match r_res r with
    | inl e => mkRun (r_world r) (r_log r) (inl e)
    | inr a =>
        let r' := k a (r_world r) in
        mkRun (r_world r') (r_log r ++ r_log r') (r_res r')
    end.

Definition get_world : M World := λ w, mkRun w [] (inr w).

Definition modify_bot (f : Bot → Bot) : M unit :=
  λ w, mkRun (set_bot (f (bot w)) w) [] (inr tt).

Definition emit (a : Action) : M unit := λ w, mkRun w [a] (inr tt).

Definition lift_res {A : Type} (r : exn + A) : M A :=
  match r with
  | inl e => raise e
  | inr a => ret a
  end.

Declare Scope handler_scope.
Delimit Scope handler_scope with handler.
Notation "x <- m ;; k" := (bind m (λ x, k))
  (at level 100, m at next level, right associativity) : handler_scope.
Notation "m ;;; k" := (bind m (λ _, k))
  (at level 100, right associativity) : handler_scope.
Open Scope handler_scope.

(** [for x in xs: body(x)] where [body] ends normally or by [continue]. *)
Fixpoint for_each {A : Type} (body : A → M unit) (xs : list A) : M unit :=
  match xs with
  | [] => ret tt
  | x :: xs' => body x ;;; for_each body xs'
  end.

(** ** defaultdict access *)

(** [bot.uuid_cache[key]] on [defaultdict(uuid.uuid4)]: a missing key calls
    the factory, stores the value and returns it. *)
Definition uuid_cache_getitem (E : Env) (key : string) (w : World) : Z * World :=
  match uuid_cache (bot w) !! key with
  | Some v => (v, w)
  | None =>
      let v := uuid4_at E (uuid_calls w) in
      (v, mkWorld (set_uuid_cache (<[key := v]> (uuid_cache (bot w))) (bot w))
                  (guild_configs w) (player_sessions w) (S (uuid_calls w)))
  end.

(** [d[key]] on a [defaultdict(set)]. *)
Definition defaultdict_set_getitem `{Countable K} `{Countable V}
    (d : gmap K (gset V)) (key : K) : gset V * gmap K (gset V) :=
  match d !! key with
  | Some s => (s, d)
  | None => (∅, <[key := ∅]> d)
  end.

(** ** IdentityResolver *)

(** [self.bot.uuid_cache[f"{event.realm_id}-{p}"]], line 37: the
    correlation identifier of the pair, and the state after the lookup. *)
Definition resolve (E : Env) (realm p : string) (w : World) : Z * World :=
  uuid_cache_getitem E (realm_xuid_key realm p) w.

(** The session list of [on_live_playerlist_send], lines 35-44, built over
    the participants in iteration order. *)
Fixpoint build_sessions (E : Env) (ev : LivePlayerlistSend)
    (ps : list string) (w : World) : list PlayerSession * World :=
  match ps with
  | [] => ([], w)
  | p :: ps' =>
      let '(cid, w1) := resolve E (lps_realm_id ev) p w in
      let '(rows, w2) := build_sessions E ev ps' w1 in
      (mkPlayerSession cid (lps_realm_id ev) p
         (bool_decide (p ∈ lps_joined ev)) (lps_timestamp ev) :: rows, w2)
  end.

Definition live_player_sessions (E : Env) (ev : LivePlayerlistSend)
    (w : World) : list PlayerSession * World :=
  build_sessions E ev (elements (lps_joined ev ∪ lps_left ev)) w.

(** ** [try]/[except] *)

(** [try: m  except <classes selected by h>: handler]; an exception [h] does
    not select propagates. *)
Definition try_except {A : Type} (m : M A) (h : exn → option (M A)) : M A :=
  λ w,
    let r := m w in
    match r_res r with
    | inr _ => r
    | inl e =>
        match h e with
        | None => r
        | Some k =>
            let r' := k (r_world r) in
            mkRun (r_world r') (r_log r ++ r_log r') (r_res r')
        end
    end.

(** [for x in xs: flags.append(body(x))]. *)
Fixpoint for_collect {A B : Type} (body : A → M B) (xs : list A) : M (list B) :=
  match xs with
  | [] => ret []
  | x :: xs' =>
      b <- body x ;;
      bs <- for_collect body xs' ;;
      ret (b :: bs)
  end.

(** ** Calls that leave the two files *)

(** [pl_utils.invalidate_premium], [pl_utils.eventually_invalidate] (with its
    default limit when [limit] is [None]) and
    [pl_utils.eventually_invalidate_realm_offline] are defined in
    [common/playerlist_utils.py], outside the two files.  A call is recorded
    with its arguments and taken to return.  What the helper itself writes,
    the failure counter it keeps and the flags it clears once a limit is
    reached, is not modelled: the state of a run is the one the handlers'
    own statements leave, and a statement about the state after such a call
    speaks of those statements only. *)
Definition call_invalidate_premium (c : GuildConfig) : M unit :=
  emit (AInvalidatePremium c).

Definition call_eventually_invalidate (c : GuildConfig) (limit : option Z) : M unit :=
  emit (AEventuallyInvalidate c limit).

Definition call_eventually_invalidate_realm_offline (c : GuildConfig) : M unit :=
  emit (AEventuallyInvalidateRealmOffline c).

Definition call_fetch_playerlist_channel (E : Env) (c : GuildConfig) : M Z :=
  emit (AFetchPlayerlistChannel c) ;;;
  lift_res (fetch_playerlist_channel E c).

Definition call_fetch_role (E : Env) (g role : Z) : M (option Role) :=
  emit (AFetchRole g role) ;;;
  lift_res (fetch_role E g role).

Definition call_send (E : Env) (c : GuildConfig) (chan : Z) (m : Message) : M unit :=
  emit (ASend c chan m) ;;;
  match chan_send E chan m with
  | Some e => raise e
  | None => ret tt
  end.

(** The rows of the [GuildConfig] table with a given [guild_id]. *)
Definition config_rows (g : Z) (table : list GuildConfig) : list GuildConfig :=
  filter (λ c, guild_id c = g) table.

(** [await models.GuildConfig.get(guild_id=...)]: exactly one row, or
    [DoesNotExist], or [MultipleObjectsReturned]. *)
Definition GuildConfig_get (g : Z) : M GuildConfig :=
  λ w,
    match config_rows g (guild_configs w) with
    | [c] => mkRun w [] (inr c)
    | [] => mkRun w [] (inl DoesNotExist)
    | _ => mkRun w [] (inl (OtherException "MultipleObjectsReturned"))
    end.

(** [await config.save()]: the row of the configuration's [guild_id] is
    overwritten. *)
Definition config_save (c : GuildConfig) : M unit :=
  λ w,
    mkRun (mkWorld (bot w)
                   ((λ r, if decide (guild_id r = guild_id c) then c else r)
                      <$> guild_configs w)
                   (player_sessions w) (uuid_calls w)) [] (inr tt).

(** [bot.live_playerlist_store[realm]]: the read inserts an empty set for a
    realm the store has not seen. *)
Definition live_store_getitem (realm : string) : M (gset Z) :=
  λ w,
    let '(s, d) := defaultdict_set_getitem (live_playerlist_store (bot w)) realm in
    mkRun (set_bot (set_live_playerlist_store d (bot w)) w) [] (inr s).

(** [bot.live_playerlist_store[realm].discard(guild_id)]. *)
Definition live_store_discard (realm : string) (g : Z) : M unit :=
  s <- live_store_getitem realm ;;
  modify_bot (λ b,
    set_live_playerlist_store (<[realm := s ∖ {[g]}]> (live_playerlist_store b)) b).

(** [os.environ[name]]. *)
Definition environ_getitem (E : Env) (name : string) : M string :=
  match environ E !! name with
  | Some v => ret v
  | None => raise KeyError
  end.

(** [int(s)]. *)
Definition int_of_str (E : Env) (s : string) : M Z :=
  match py_int E s with
  | Some z => ret z
  | None => raise ValueError
  end.

Definition call_fill_in_gamertags_for_sessions (E : Env)
    (sessions : list PlayerSession) (bypass : gset string) : M (list Player) :=
  emit (AFillInGamertags sessions bypass) ;;;
  lift_res (fill_in_gamertags_for_sessions E sessions bypass).

(** [bot.online_cache[key]] on [defaultdict(set)]. *)
Definition online_cache_getitem (key : Z) : M (gset string) :=
  λ w,
    let '(s, d) := defaultdict_set_getitem (online_cache (bot w)) key in
    mkRun (set_bot (set_online_cache d (bot w)) w) [] (inr s).

(** ** [on_live_playerlist_send] *)

Definition newline : string := String (Ascii.ascii_of_nat 10) EmptyString.

(** [{p.xuid: p.base_display for p in players}]: a later player wins. *)
Definition gamertag_mapping_of (players : list Player) : gmap string string :=
  foldl (λ m p, <[pl_xuid p := pl_base_display p]> m) ∅ players.

Definition mapping_getitem (m : gmap string string) (p : string) : M string :=
  match m !! p with
  | Some v => ret v
  | None => raise KeyError
  end.

(** One [embed.add_field] of lines 65-74: skipped for an empty set. *)
Definition live_field (E : Env) (mapping : gmap string string)
    (emoji_var label : string) (ps : gset string) : M (list (string * string)) :=
  if decide (ps = ∅) then ret []
  else
    emoji <- environ_getitem E emoji_var ;;
    names <- for_collect (mapping_getitem mapping) (elements ps) ;;
    ret [(emoji +:+ " " +:+ label, String.concat newline names)].

Definition set_cfg_live_playerlist (v : bool) (c : GuildConfig) : GuildConfig :=
  mkGuildConfig (guild_id c) (cfg_realm_id c) (club_id c) (playerlist_chan c)
                v (fetch_devices c) (warning_notifications c)
                (realm_offline_role c) (premium_code c).

(** The [except] clauses shared by lines 99-103 and 167-171. *)
Definition delivery_handler (c : GuildConfig) (e : exn) : option (M unit) :=
  match e with
  | ValueError => Some (ret tt)
  | HTTPException => Some (call_eventually_invalidate c None)
  | _ => None
  end.

(** The body of the loop of lines 76-103 for one [guild_id]. *)
Definition live_send_one (E : Env) (realm : string) (embed : Embed) (g : Z) : M unit :=
  config <- GuildConfig_get g ;;
  if negb (truthy_obj (premium_code config)) then
    call_invalidate_premium config
  else if negb (truthy_id (playerlist_chan config)) then
    live_store_discard realm g ;;;
    config_save (set_cfg_live_playerlist false config)
  else if negb (get_guild E g) then
    ret tt
  else
    try_except
      (chan <- call_fetch_playerlist_channel E config ;;
       call_send E config chan (mkMessage None embed))
      (delivery_handler config).

Definition live_dispatch_loop (E : Env) (realm : string) (embed : Embed)
    (dests : list Z) : M unit :=
  for_each (live_send_one E realm embed) dests.

Definition run_live_player_sessions (E : Env) (ev : LivePlayerlistSend)
    : M (list PlayerSession) :=
  λ w, let '(rows, w') := live_player_sessions E ev w in mkRun w' [] (inr rows).

Definition on_live_playerlist_send (E : Env) (ev : LivePlayerlistSend) : M unit :=
  sessions <- run_live_player_sessions E ev ;;
  w <- get_world ;;
  let bypass_cache_for : gset string :=
    if decide (lps_realm_id ev ∈ fetch_devices_for (bot w))
    then list_to_set (xuid <$> filter (λ p, online p = true) sessions)
    else ∅ in
  players <- call_fill_in_gamertags_for_sessions E sessions bypass_cache_for ;;
  let gamertag_mapping := gamertag_mapping_of players in
  rid <- int_of_str E (lps_realm_id ev) ;;
  online_now <- online_cache_getitem rid ;;
  let footer := pretty (size online_now) +:+ " players online as of" in
  joined_field <- live_field E gamertag_mapping "GREEN_CIRCLE_EMOJI" "Joined"
                    (lps_joined ev) ;;
  left_field <- live_field E gamertag_mapping "GRAY_CIRCLE_EMOJI" "Left"
                  (lps_left ev) ;;
  let embed := mkEmbed "DARK_GREY" None None (Some (lps_timestamp ev))
                       (Some footer) (joined_field ++ left_field) in
  dests <- live_store_getitem (lps_realm_id ev) ;;
  live_dispatch_loop E (lps_realm_id ev) embed (elements dests).

(** ** [realm_down] *)

Definition realm_offline_description : string :=
  "The bot has detected that the Realm is offline (or possibly that"
  +:+ " it has no users).".

Definition unable_to_ping_addition : string :=
  newline +:+ newline
  +:+ "**I also am unable to ping the role you set.** Make sure"
  +:+ " the role still exists, and that it's either mentionable or"
  +:+ " the bot can ping all roles." +:+ newline
  +:+ "*After a while, the bot will"
  +:+ " stop sending offline notices if it keeps being unable to ping"
  +:+ " the role.*".

Definition realm_offline_embed (ts : Z) : Embed :=
  mkEmbed "YELLOW" (Some "Realm Offline") (Some realm_offline_description)
          (Some ts) None [].

Definition add_to_description (addition : string) (e : Embed) : Embed :=
  mkEmbed (e_color e) (e_title e)
          (Some (default "" (e_description e) +:+ addition))
          (e_timestamp e) (e_footer e) (e_fields e).

(** [not role or (not role.mentionable and MENTION_EVERYONE not in
    chan.permissions_for(guild.me))]. *)
Definition cannot_ping (E : Env) (g chan : Z) (role : option Role) : bool :=
  match role with
  | None => true
  | Some r => negb (role_mentionable r) && negb (can_mention_everyone E g chan)
  end.

(** The body of the loop of lines 116-171 for one configuration. *)
Definition realm_down_one (E : Env) (ts : Z) (config : GuildConfig) : M unit :=
  if negb (truthy_id (playerlist_chan config))
     || negb (truthy_id (realm_offline_role config)) then ret tt
  else if negb (get_guild E (guild_id config)) then ret tt
  else
    let role_id := default 0 (realm_offline_role config) in
    role <- call_fetch_role E (guild_id config) role_id ;;
    let mention :=
      match role with
      | Some r => role_mention r
      | None => "<@&" +:+ pretty role_id +:+ ">"
      end in
    try_except
      (chan <- call_fetch_playerlist_channel E config ;;
       embed <- (if cannot_ping E (guild_id config) chan role then
                   call_eventually_invalidate_realm_offline config ;;;
                   ret (add_to_description unable_to_ping_addition
                          (realm_offline_embed ts))
                 else ret (realm_offline_embed ts)) ;;
       call_send E config chan (mkMessage (Some mention) embed))
      (delivery_handler config).

Definition realm_down (E : Env) (ev : RealmDown) : M unit :=
  subscribers <- live_store_getitem (rd_realm_id ev) ;;
  (if decide (subscribers = ∅) then ret tt
   else emit (ADispatch (mkLivePlayerlistSend (rd_realm_id ev) ∅
                           (rd_disconnected ev) (rd_timestamp ev)))) ;;;
  for_each (realm_down_one E (rd_timestamp ev)) (rd_configs ev).

(** ** [warning_missing_playerlist] *)

Definition warning_embed (E : Env) (gamertag : string) : Embed :=
  mkEmbed "YELLOW" (Some "Warning")
    (Some ("I have been unable to get any information about your Realm"
           +:+ " for the last 24 hours. This could be because the Realm has"
           +:+ " been turned off or because it's inactive, but if it hasn't,"
           +:+ " make sure you haven't banned or kick"
           +:+ " `" +:+ gamertag +:+ "`. If you have, please unban the"
           +:+ " account if needed and run"
           +:+ " " +:+ mention_cmd E "config link-realm" +:+ " again to"
           +:+ " fix it." +:+ newline +:+ newline
           +:+ "Alternatively, if you want to disable the"
           +:+ " autorunner entirely, you can use"
           +:+ " " +:+ mention_cmd E "config playerlist-channel" +:+ " to"
           +:+ " do so."))
    None None [].

(** Lines 186-189: the realm is unlinked from the configuration. *)
Definition unlink_realm (c : GuildConfig) : GuildConfig :=
  mkGuildConfig (guild_id c) None None (playerlist_chan c) false false
                (warning_notifications c) (realm_offline_role c) (premium_code c).

(** [with contextlib.suppress(ipy.errors.HTTPException): m]. *)
Definition suppress_HTTPException (m : M unit) : M unit :=
  try_except m (λ e, match e with HTTPException => Some (ret tt) | _ => None end).

(** The body of the loop of lines 179-231; its value is what it appends to
    [no_playerlist_chan]. *)
Definition warn_one (E : Env) (config : GuildConfig) : M bool :=
  if negb (truthy_id (playerlist_chan config)) then
    (if truthy_str (cfg_realm_id config) && live_playerlist config then
       live_store_discard (default "" (cfg_realm_id config)) (guild_id config)
     else ret tt) ;;;
    config_save (unlink_realm config) ;;;
    ret true
  else if negb (warning_notifications config) then ret false
  else if negb (get_guild E (guild_id config)) then ret false
  else
    call_eventually_invalidate config (Some 7) ;;;
    fetched <- try_except
                 (chan <- call_fetch_playerlist_channel E config ;; ret (Some chan))
                 (λ e, match e with ValueError => Some (ret None) | _ => None end) ;;
    match fetched with
    | None => ret false
    | Some chan =>
        w <- get_world ;;
        suppress_HTTPException
          (call_send E config chan
             (mkMessage None (warning_embed E (own_gamertag (bot w))))) ;;;
        ret false
    end.

Definition discard_fetch_devices_for (realm : string) : M unit :=
  modify_bot (λ b, set_fetch_devices_for (fetch_devices_for b ∖ {[realm]}) b).

Definition call_leave_realm (E : Env) (realm : string) : M unit :=
  emit (ALeaveRealm realm) ;;;
  match leave_realm E realm with
  | Some e => raise e
  | None => ret tt
  end.

(** Lines 233-247. *)
Definition drop_realm (E : Env) (realm : string) : M unit :=
  discard_fetch_devices_for realm ;;;
  try_except (call_leave_realm E realm)
    (λ e, match e with
          | MicrosoftAPIException status =>
              Some (if Z.eqb status 404
                    then emit (ALogWarning
                                 ("Could not leave Realm with ID " +:+ realm +:+ "."))
                    else raise e)
          | _ => None
          end).

(** [all(no_playerlist_chan) or not no_playerlist_chan]. *)
Definition should_drop (no_playerlist_chan : list bool) : bool :=
  forallb (λ b, b) no_playerlist_chan
  || match no_playerlist_chan with [] => true | _ => false end.

Definition warning_missing_playerlist (E : Env) (ev : WarnMissingPlayerlist) : M unit :=
  no_playerlist_chan <- for_collect (warn_one E) (wmp_configs ev) ;;
  if should_drop no_playerlist_chan then drop_realm E (wmp_realm_id ev)
  else ret tt.

(** ** [on_playerlist_finish] and the session table *)

(** [INSERT ... ON CONFLICT (custom_id) DO UPDATE SET f = EXCLUDED.f] for the
    listed columns [f]: the row a conflicting insert leaves behind. *)
Definition update_session_fields (fields : list SessionField)
    (old new : PlayerSession) : PlayerSession :=
  mkPlayerSession
    (if decide (F_custom_id ∈ fields) then custom_id new else custom_id old)
    (if decide (F_realm_id ∈ fields) then realm_id new else realm_id old)
    (if decide (F_xuid ∈ fields) then xuid new else xuid old)
    (if decide (F_online ∈ fields) then online new else online old)
    (if decide (F_last_seen ∈ fields) then last_seen new else last_seen old).

(** Whether two rows agree on a column, and on all columns of a conflict
    target. *)
Definition same_on (f : SessionField) (a b : PlayerSession) : bool :=
  match f with
  | F_custom_id => bool_decide (custom_id a = custom_id b)
  | F_realm_id => bool_decide (realm_id a = realm_id b)
  | F_xuid => bool_decide (xuid a = xuid b)
  | F_online => bool_decide (online a = online b)
  | F_last_seen => bool_decide (last_seen a = last_seen b)
  end.

Definition conflicts (on_conflict : list SessionField) (a b : PlayerSession) : bool :=
  forallb (λ f, same_on f a b) on_conflict.

Fixpoint upsert_one (on_conflict fields : list SessionField) (r : PlayerSession)
    (table : list PlayerSession) : list PlayerSession :=
  match table with
  | [] => [r]
  | t :: table' =>
      if conflicts on_conflict t r
      then update_session_fields fields t r :: table'
      else t :: upsert_one on_conflict fields r table'
  end.

(** What an accepted batch of [bulk_create] with a conflict target does to
    the table: the statement [INSERT ... ON CONFLICT (on_conflict) DO UPDATE]
    is executed for the rows one after the other, so a row of the batch
    meets the rows the batch has already written. *)
Definition bulk_create (rows : list PlayerSession) (on_conflict : list SessionField)
    (update_fields : list SessionField) (table : list PlayerSession)
    : list PlayerSession :=
  foldl (λ tbl r, upsert_one on_conflict update_fields r tbl) table rows.

(** The check [bulk_create] makes of its arguments before anything is sent
    to the database: [on_conflict] and [update_fields] are given together or
    not at all. *)
Definition bulk_create_args_ok (on_conflict update_fields : list SessionField)
    : bool :=
  match on_conflict, update_fields with
  | [], [] => true
  | _ :: _, _ :: _ => true
  | _, _ => false
  end.

(** [await PlayerSession.bulk_create(rows, on_conflict=on_conflict,
    update_fields=update_fields)]: [ValueError] when the arguments fail the
    check; nothing is sent for an empty batch; otherwise the batch is one
    transaction, which the database rejects as a whole or applies row by
    row (a plain insert when no conflict target is given). *)
Definition PlayerSession_bulk_create (E : Env) (rows : list PlayerSession)
    (on_conflict update_fields : list SessionField) : M unit :=
  λ w,
    if negb (bulk_create_args_ok on_conflict update_fields)
    then mkRun w [] (inl ValueError)
    else
      match rows with
      | [] => mkRun w [] (inr tt)
      | _ =>
          match bulk_create_error E rows (player_sessions w) with
          | Some e => mkRun w [] (inl e)
          | None =>
              mkRun (mkWorld (bot w) (guild_configs w)
                             match on_conflict with
                             | [] => player_sessions w ++ rows
                             | _ => bulk_create rows on_conflict update_fields
                                                (player_sessions w)
                             end
                             (uuid_calls w)) [] (inr tt)
          end
      end.

Definition on_playerlist_finish (E : Env) (ev : PlayerlistParseFinish) : M unit :=
  for_each
    (λ container,
       PlayerSession_bulk_create E (ctr_player_sessions container)
         [F_custom_id] (ctr_fields container))
    (ppf_containers ev).

(** ** [start] *)

(** [datetime.timedelta(minutes=5)] in microseconds. *)
Definition five_minutes : Z := 5 * 60 * 1000000.

Definition set_online (v : bool) (s : PlayerSession) : PlayerSession :=
  mkPlayerSession (custom_id s) (realm_id s) (xuid s) v (last_seen s).

(** [PlayerSession.filter(online=True, last_seen__lt=cutoff).update(online=False)]. *)
Definition mark_stale_offline (cutoff : Z) (table : list PlayerSession)
    : list PlayerSession :=
  (λ s, if online s && (last_seen s <? cutoff)%Z then set_online false s else s)
    <$> table.

Definition update_stale_sessions (cutoff : Z) : M unit :=
  λ w,
    mkRun (mkWorld (bot w) (guild_configs w)
                   (mark_stale_offline cutoff (player_sessions w))
                   (uuid_calls w)) [] (inr tt).

(** The body of the loop of lines 278-280. *)
Definition seed_player (E : Env) (player : PlayerSession) : M unit :=
  modify_bot (λ b,
    set_uuid_cache (<[realm_xuid_id player := custom_id player]> (uuid_cache b)) b) ;;;
  rid <- int_of_str E (realm_id player) ;;
  s <- online_cache_getitem rid ;;
  modify_bot (λ b,
    set_online_cache (<[rid := s ∪ {[xuid player]}]> (online_cache b)) b).

(** [str.removeprefix]. *)
Fixpoint strip_prefix (pre s : string) : option string :=
  match pre with
  | EmptyString => Some s
  | String a pre' =>
      match s with
      | String b s' => if Ascii.eqb a b then strip_prefix pre' s' else None
      | EmptyString => None
      end
  end.

Definition removeprefix (pre s : string) : string :=
  default s (strip_prefix pre s).

(** [OrderedSet.add]. *)
Definition ordered_set_add (z : Z) (l : list Z) : list Z :=
  if decide (z ∈ l) then l else l ++ [z].

(** The body of the loop of lines 283-284. *)
Definition seed_offline_realm (E : Env) (key : string) : M unit :=
  z <- int_of_str E (removeprefix "missing-realm-" key) ;;
  modify_bot (λ b, set_offline_realms (ordered_set_add z (offline_realms b)) b).

(** The filter of lines 288-293. *)
Definition is_live_subscriber (c : GuildConfig) : bool :=
  bool_decide (premium_code c ≠ None)
  && bool_decide (cfg_realm_id c ≠ None)
  && bool_decide (playerlist_chan c ≠ None)
  && live_playerlist c.

(** The body of the loop of line 294. *)
Definition seed_live_subscriber (c : GuildConfig) : M unit :=
  match cfg_realm_id c with
  | Some realm =>
      s <- live_store_getitem realm ;;
      modify_bot (λ b,
        set_live_playerlist_store
          (<[realm := s ∪ {[guild_id c]}]> (live_playerlist_store b)) b)
  | None => ret tt
  end.

(** [start], lines 271-294, at time [utcnow]; what follows in [start] loads
    the extensions and runs the client. *)
Definition start (E : Env) (utcnow : Z) : M unit :=
  let five_minutes_ago := utcnow - five_minutes in
  update_stale_sessions five_minutes_ago ;;;
  w <- get_world ;;
  for_each (seed_player E) (filter (λ s, online s = true) (player_sessions w)) ;;;
  (if TEST_MODE E then ret tt
   else for_each (seed_offline_realm E) (redis_missing_realm_keys E)) ;;;
  w' <- get_world ;;
  for_each seed_live_subscriber
    (filter (λ c, is_live_subscriber c = true) (guild_configs w')).

(** ** Definitions used to state the properties *)

(** A run of later lookups, in order. *)
Fixpoint resolve_all (E : Env) (qs : list (string * string)) (w : World) : World :=
  match qs with
  | [] => w
  | (realm, p) :: qs' => resolve_all E qs' (resolve E realm p w).2
  end.

(** [start] as the sequence of its four phases. *)
Definition start_sessions (utcnow : Z) (w : World) : World :=
  mkWorld (bot w) (guild_configs w)
          (mark_stale_offline (utcnow - five_minutes) (player_sessions w))
          (uuid_calls w).

Definition start_seeded (E : Env) (utcnow : Z) (w : World) : Run unit :=
  for_each (seed_player E)
    (filter (λ s, online s = true) (player_sessions (start_sessions utcnow w)))
    (start_sessions utcnow w).

Definition start_offline (E : Env) (utcnow : Z) (w : World) : Run unit :=
  (if TEST_MODE E then ret tt
   else for_each (seed_offline_realm E) (redis_missing_realm_keys E))
    (r_world (start_seeded E utcnow w)).

(** *** The session table, row by row *)

(** The row stored under a [custom_id]. *)
Fixpoint find_row (k : Z) (table : list PlayerSession) : option PlayerSession :=
  match table with
  | [] => None
  | t :: table' => if decide (custom_id t = k) then Some t else find_row k table'
  end.

(** [upsert_one] with [custom_id] as the conflict target. *)
Fixpoint upsert_by_custom_id (fields : list SessionField) (r : PlayerSession)
    (table : list PlayerSession) : list PlayerSession :=
  match table with
  | [] => [r]
  | t :: table' =>
      if decide (custom_id t = custom_id r)
      then update_session_fields fields t r :: table'
      else t :: upsert_by_custom_id fields r table'
  end.

(** The upserts an event asks for, in order: each session with its
    container's field list. *)
Definition upserts_of (ev : PlayerlistParseFinish)
    : list (list SessionField * PlayerSession) :=
  c ← ppf_containers ev; (λ s, (ctr_fields c, s)) <$> ctr_player_sessions c.

Definition apply_upserts (ops : list (list SessionField * PlayerSession))
    (table : list PlayerSession) : list PlayerSession :=
  foldl (λ tbl op, upsert_by_custom_id op.1 op.2 tbl) table ops.

(** What one upsert does to the row stored under [k]. *)
Definition upsert_row (k : Z) (o : option PlayerSession)
    (op : list SessionField * PlayerSession) : option PlayerSession :=
  if decide (custom_id op.2 = k)
  then Some (match o with
             | Some old => update_session_fields op.1 old op.2
             | None => op.2
             end)
  else o.

(** A column-wise overwrite: the columns that are [Some] replace the row's. *)
Record Overwrite : Type := mkOverwrite {
  ow_custom_id : option Z;
  ow_realm_id : option string;
  ow_xuid : option string;
  ow_online : option bool;
  ow_last_seen : option Z
}.

Definition overwrite (σ : Overwrite) (s : PlayerSession) : PlayerSession :=
  mkPlayerSession (default (custom_id s) (ow_custom_id σ))
                  (default (realm_id s) (ow_realm_id σ))
                  (default (xuid s) (ow_xuid σ))
                  (default (online s) (ow_online σ))
                  (default (last_seen s) (ow_last_seen σ)).

Definition overwrite_of (fields : list SessionField) (new : PlayerSession) : Overwrite :=
  mkOverwrite
    (if decide (F_custom_id ∈ fields) then Some (custom_id new) else None)
    (if decide (F_realm_id ∈ fields) then Some (realm_id new) else None)
    (if decide (F_xuid ∈ fields) then Some (xuid new) else None)
    (if decide (F_online ∈ fields) then Some (online new) else None)
    (if decide (F_last_seen ∈ fields) then Some (last_seen new) else None).

Definition or_else {A : Type} (a b : option A) : option A :=
  match a with
  | Some _ => a
  | None => b
  end.

(** [overwrite_then σ1 σ2] overwrites with [σ1], then with [σ2]. *)
Definition overwrite_then (σ1 σ2 : Overwrite) : Overwrite :=
  mkOverwrite (or_else (ow_custom_id σ2) (ow_custom_id σ1))
              (or_else (ow_realm_id σ2) (ow_realm_id σ1))
              (or_else (ow_xuid σ2) (ow_xuid σ1))
              (or_else (ow_online σ2) (ow_online σ1))
              (or_else (ow_last_seen σ2) (ow_last_seen σ1)).

Definition no_overwrite : Overwrite := mkOverwrite None None None None None.

(** The combined overwrite of the upserts that hit [k]. *)
Fixpoint overwrite_all (k : Z) (ops : list (list SessionField * PlayerSession))
    : Overwrite :=
  match ops with
  | [] => no_overwrite
  | op :: ops' =>
      overwrite_then
        (if decide (custom_id op.2 = k) then overwrite_of op.1 op.2 else no_overwrite)
        (overwrite_all k ops')
  end.

(** The first session of the upserts stored under [k]. *)
Fixpoint first_upsert (k : Z) (ops : list (list SessionField * PlayerSession))
    : option PlayerSession :=
  match ops with
  | [] => None
  | op :: ops' => if decide (custom_id op.2 = k) then Some op.2 else first_upsert k ops'
  end.

(** The value a session row holds in a column. *)
Inductive ColumnValue : Type :=
  | CInt (z : Z)
  | CStr (s : string)
  | CBool (b : bool).

Definition column (f : SessionField) (s : PlayerSession) : ColumnValue :=
  match f with
  | F_custom_id => CInt (custom_id s)
  | F_realm_id => CStr (realm_id s)
  | F_xuid => CStr (xuid s)
  | F_online => CBool (online s)
  | F_last_seen => CInt (last_seen s)
  end.

(** *** A concrete environment and configurations *)

Definition decimal_digit (a : Ascii.ascii) : option Z :=
  let n := Z.of_nat (Ascii.nat_of_ascii a) in
  if (48 <=? n)%Z && (n <=? 57)%Z then Some (n - 48) else None.

Fixpoint parse_digits (acc : Z) (s : string) : option Z :=
  match s with
  | EmptyString => Some acc
  | String a s' =>
      match decimal_digit a with
      | Some d => parse_digits (10 * acc + d) s'
      | None => None
      end
  end.

(** [int] on the plain decimal strings realm ids are. *)
Definition parse_decimal (s : string) : option Z :=
  match s with
  | EmptyString => None
  | _ => parse_digits 0 s
  end.

Definition demo_env : Env :=
  mkEnv (λ n, 1000 + Z.of_nat n) parse_decimal
        {[ "GREEN_CIRCLE_EMOJI" := "G"; "GRAY_CIRCLE_EMOJI" := "g" ]}
        false ["missing-realm-7"]
        (λ _, true)
        (λ _ _, inr None)
        (λ c, if decide (guild_id c = 20) then inl HTTPException else inr 5)
        (λ _ _, false)
        (λ _ _, None)
        (λ _, None)
        (λ ss _, inr ((λ s, mkPlayer (xuid s) ("gt-" +:+ xuid s)) <$> ss))
        (λ s, s)
        (λ _ _, None).

Definition demo_config (g : Z) : GuildConfig :=
  mkGuildConfig g (Some "1") None (Some 77) true false true None
                (Some (mkPremiumCode 3)).

Definition demo_world : World :=
  mkWorld (set_live_playerlist_store {[ "1" := {[ 10; 20; 30 ]} ]} initial_bot)
          [demo_config 10; demo_config 20; demo_config 30]
          [] 0.

Definition demo_live_event : LivePlayerlistSend :=
  mkLivePlayerlistSend "1" {[ "C" ]} {[ "A" ]} 42.

Definition demo_now : Z := 1000000000.

(** A row last seen ten minutes before [demo_now], and one seen a minute
    before it. *)
Definition demo_stale_session : PlayerSession :=
  mkPlayerSession 1 "1" "A" true (demo_now - 10 * 60 * 1000000).

Definition demo_fresh_session : PlayerSession :=
  mkPlayerSession 2 "1" "B" true (demo_now - 60 * 1000000).

Definition demo_start_world : World :=
  mkWorld initial_bot
          [demo_config 10; set_cfg_live_playerlist false (demo_config 20)]
          [demo_stale_session; demo_fresh_session] 0.

(** A parse result that reports the stale session offline and a new
    participant online, updating [online] and [last_seen] on conflict. *)
Definition demo_finish_event : PlayerlistParseFinish :=
  mkPlayerlistParseFinish
    [mkContainer [mkPlayerSession 1 "1" "A" false demo_now;
                  mkPlayerSession 3 "1" "C" true demo_now]
                 [F_online; F_last_seen]].

(** A parse result whose only container names no column to update. *)
Definition demo_unnamed_fields_event : PlayerlistParseFinish :=
  mkPlayerlistParseFinish [mkContainer [mkPlayerSession 9 "1" "Z" true demo_now] []].

(** *** What a dispatch loop does for one destination *)

(** The trace and the outcome of the [except] clauses of lines 99-103 and
    167-171 for an exception [e] raised inside the [try]. *)
Definition delivery_handler_log (c : GuildConfig) (e : exn) : list Action :=
  match e with
  | HTTPException => [AEventuallyInvalidate c None]
  | _ => []
  end.

Definition delivery_handler_res (e : exn) : exn + unit :=
  match e with
  | ValueError | HTTPException => inr tt
  | _ => inl e
  end.

(** Fetching the channel of [c] and sending it [m chan], inside the [try]. *)
Definition delivery (E : Env) (c : GuildConfig) (before_send : Z → list Action)
    (m : Z → Message) : list Action * (exn + unit) :=
  match fetch_playerlist_channel E c with
  | inl e =>
      (AFetchPlayerlistChannel c :: delivery_handler_log c e, delivery_handler_res e)
  | inr chan =>
      match chan_send E chan (m chan) with
      | None =>
          ((AFetchPlayerlistChannel c :: before_send chan) ++ [ASend c chan (m chan)],
           inr tt)
      | Some e =>
          ((AFetchPlayerlistChannel c :: before_send chan)
             ++ ASend c chan (m chan) :: delivery_handler_log c e,
           delivery_handler_res e)
      end
  end.

(** One turn of the loop of [on_live_playerlist_send] for a subscriber whose
    stored configuration is [c]. *)
Definition live_dest (E : Env) (embed : Embed) (c : GuildConfig)
    : list Action * (exn + unit) :=
  if negb (truthy_obj (premium_code c)) then ([AInvalidatePremium c], inr tt)
  else if negb (truthy_id (playerlist_chan c)) then ([], inr tt)
  else if negb (get_guild E (guild_id c)) then ([], inr tt)
  else delivery E c (λ _, []) (λ _, mkMessage None embed).

Definition live_dest_of (E : Env) (embed : Embed) (w : World) (g : Z)
    : list Action * (exn + unit) :=
  match config_rows g (guild_configs w) with
  | [c] => live_dest E embed c
  | [] => ([], inl DoesNotExist)
  | _ => ([], inl (OtherException "MultipleObjectsReturned"))
  end.

(** The notice [realm_down] sends to channel [chan] of [c] once the role
    lookup has returned [role]. *)
Definition realm_down_message (E : Env) (ts : Z) (c : GuildConfig)
    (role : option Role) (chan : Z) : Message :=
  mkMessage
    (Some match role with
          | Some r => role_mention r
          | None => "<@&" +:+ pretty (default 0 (realm_offline_role c)) +:+ ">"
          end)
    (if cannot_ping E (guild_id c) chan role
     then add_to_description unable_to_ping_addition (realm_offline_embed ts)
     else realm_offline_embed ts).

(** One turn of the loop of [realm_down] for the configuration [c]. *)
Definition down_dest (E : Env) (ts : Z) (c : GuildConfig)
    : list Action * (exn + unit) :=
  if negb (truthy_id (playerlist_chan c))
     || negb (truthy_id (realm_offline_role c)) then ([], inr tt)
  else if negb (get_guild E (guild_id c)) then ([], inr tt)
  else
    let role_id := default 0 (realm_offline_role c) in
    match fetch_role E (guild_id c) role_id with
    | inl e => ([AFetchRole (guild_id c) role_id], inl e)
    | inr role =>
        let d := delivery E c
                   (λ chan, if cannot_ping E (guild_id c) chan role
                            then [AEventuallyInvalidateRealmOffline c] else [])
                   (realm_down_message E ts c role) in
        (AFetchRole (guild_id c) role_id :: d.1, d.2)
    end.

(** Realm ["1"], which has live subscribers in [demo_world], reported
    unreachable while ["A"] and ["B"] were online. *)
Definition demo_down_event : RealmDown :=
  mkRealmDown "1" {[ "A"; "B" ]} 42 [].

(** The configuration object a recorded call was given. *)
Definition action_config (a : Action) : option GuildConfig :=
  match a with
  | AInvalidatePremium c
  | AEventuallyInvalidate c _
  | AEventuallyInvalidateRealmOffline c
  | AFetchPlayerlistChannel c
  | ASend c _ _ => Some c
  | _ => None
  end.

Definition warning_message (E : Env) (gamertag : string) : Message :=
  mkMessage None (warning_embed E gamertag).

(** One turn of the loop of [warning_missing_playerlist] for the
    configuration [c]: its trace, and the flag it appends or the exception
    it raises. *)
Definition warn_dest (E : Env) (gamertag : string) (c : GuildConfig)
    : list Action * (exn + bool) :=
  if negb (truthy_id (playerlist_chan c)) then ([], inr true)
  else if negb (warning_notifications c) then ([], inr false)
  else if negb (get_guild E (guild_id c)) then ([], inr false)
  else
    match fetch_playerlist_channel E c with
    | inl e =>
        ([AEventuallyInvalidate c (Some 7); AFetchPlayerlistChannel c],
         match e with ValueError => inr false | _ => inl e end)
    | inr chan =>
        ([AEventuallyInvalidate c (Some 7); AFetchPlayerlistChannel c;
          ASend c chan (warning_message E gamertag)],
         match chan_send E chan (warning_message E gamertag) with
         | None | Some HTTPException => inr false
         | Some e => inl e
         end)
    end.

(** The trace and the outcome of lines 238-247. *)
Definition leave_log (E : Env) (realm : string) : list Action :=
  ALeaveRealm realm
  :: match leave_realm E realm with
     | Some (MicrosoftAPIException status) =>
         if Z.eqb status 404
         then [ALogWarning ("Could not leave Realm with ID " +:+ realm +:+ ".")]
         else []
     | _ => []
     end.

Definition leave_res (E : Env) (realm : string) : exn + unit :=
  match leave_realm E realm with
  | None => inr tt
  | Some (MicrosoftAPIException status) =>
      if Z.eqb status 404 then inr tt else inl (MicrosoftAPIException status)
  | Some e => inl e
  end.

(** *** The failure counter *)

(** Modelled from the spec: [pl_utils.eventually_invalidate] and its counter
    are in [common/playerlist_utils.py].  The spec gives each destination a
    failure counter per class, incremented on each qualifying failure, and
    for realm-missing-data the limit of 7 cycles at which the destination is
    deactivated.  [failures_recorded g log] counts the realm-missing-data
    failures a trace records against guild [g]; a destination that had
    [before] such failures has exhausted its limit after the trace when the
    sum reaches the limit. *)
Definition realm_missing_data_limit : nat := 7.

Definition records_failure (g : Z) (a : Action) : bool :=
  match a with
  | AEventuallyInvalidate c (Some 7) => bool_decide (guild_id c = g)
  | _ => false
  end.

Definition failures_recorded (g : Z) (log : list Action) : nat :=
  length (filter (λ a, records_failure g a = true) log).

Definition limit_exhausted (before : nat) (g : Z) (log : list Action) : bool :=
  (realm_missing_data_limit <=? before + failures_recorded g log)%nat.

(** A destination with a channel that has switched warnings off, and one
    whose channel was never set. *)
Definition demo_quiet_config : GuildConfig :=
  mkGuildConfig 40 (Some "1") None (Some 77) false false false None None.

Definition demo_unconfigured_config : GuildConfig :=
  mkGuildConfig 50 (Some "1") None None false false true None None.

(** [demo_env] with guild 20's channel missing rather than forbidden. *)
Definition demo_env_missing_channel : Env :=
  mkEnv (uuid4_at demo_env) (py_int demo_env) (environ demo_env)
        (TEST_MODE demo_env) (redis_missing_realm_keys demo_env)
        (get_guild demo_env) (fetch_role demo_env)
        (λ c, if decide (guild_id c = 20) then inl ValueError else inr 5)
        (can_mention_everyone demo_env) (chan_send demo_env)
        (leave_realm demo_env) (fill_in_gamertags_for_sessions demo_env)
        (mention_cmd demo_env) (bulk_create_error demo_env).

(** [demo_env] with the role lookup refused in guild 5. *)
Definition demo_env_role_lookup_refused : Env :=
  mkEnv (uuid4_at demo_env) (py_int demo_env) (environ demo_env)
        (TEST_MODE demo_env) (redis_missing_realm_keys demo_env)
        (get_guild demo_env)
        (λ g _, if decide (g = 5) then inl HTTPException else inr None)
        (fetch_playerlist_channel demo_env)
        (can_mention_everyone demo_env) (chan_send demo_env)
        (leave_realm demo_env) (fill_in_gamertags_for_sessions demo_env)
        (mention_cmd demo_env) (bulk_create_error demo_env).

(** A destination with a channel and an offline role, and a realm reported
    down to two of them. *)
Definition demo_down_config (g : Z) : GuildConfig :=
  mkGuildConfig g (Some "1") None (Some 77) false false true (Some 900) None.

Definition demo_two_down_event : RealmDown :=
  mkRealmDown "1" ∅ 42 [demo_down_config 5; demo_down_config 6].

(** A subscriber of realm ["1"] that has lost its premium code (and has no
    channel either), next to one in good standing. *)
Definition demo_lapsed_config : GuildConfig :=
  mkGuildConfig 60 (Some "1") None None true false true None None.

Definition demo_lapsed_world : World :=
  mkWorld (set_live_playerlist_store {[ "1" := {[ 10; 60 ]} ]} initial_bot)
          [demo_config 10; demo_lapsed_config] [] 0.

Definition demo_embed : Embed :=
  mkEmbed "DARK_GREY" None None (Some 42) (Some "1 players online as of")
          [("G Joined", "gt-C")].

(** ** Further definitions used to state properties *)

(** The session rows of an event, read off an identity map that already
    holds every participant's key. *)
Definition rows_from_cache (cache : gmap string Z) (ev : LivePlayerlistSend)
    (ps : list string) : list PlayerSession :=
  (λ p, mkPlayerSession (default 0 (cache !! realm_xuid_key (lps_realm_id ev) p))
          (lps_realm_id ev) p (bool_decide (p ∈ lps_joined ev)) (lps_timestamp ev))
    <$> ps.

(** A premium subscriber of realm ["1"] whose playerlist channel is unset. *)
Definition demo_unchanneled_config : GuildConfig :=
  mkGuildConfig 70 (Some "1") None None true false true None
                (Some (mkPremiumCode 3)).

Definition demo_unchanneled_world : World :=
  mkWorld (set_live_playerlist_store {[ "1" := {[ 70 ]} ]} initial_bot)
          [demo_unchanneled_config] [] 0.

(** A destination with a channel and an offline role, in a guild whose role
    lookup finds nothing under [demo_env]. *)
Definition demo_offline_config : GuildConfig :=
  mkGuildConfig 80 (Some "1") None (Some 77) false false true (Some 900) None.

Definition demo_offline_event : RealmDown :=
  mkRealmDown "1" ∅ 42 [demo_offline_config].

(** A live subscriber of realm ["1"] that never set a playerlist channel. *)
Definition demo_live_unconfigured_config : GuildConfig :=
  mkGuildConfig 55 (Some "1") None None true false true None
                (Some (mkPremiumCode 3)).

Definition demo_live_unconfigured_world : World :=
  mkWorld (set_live_playerlist_store {[ "1" := {[ 55 ]} ]} initial_bot)
          [demo_live_unconfigured_config; demo_config 10] [] 0.

(** [demo_env] with the gamertag lookup failing. *)
Definition demo_env_lookup_down : Env :=
  mkEnv (uuid4_at demo_env) (py_int demo_env) (environ demo_env)
        (TEST_MODE demo_env) (redis_missing_realm_keys demo_env)
        (get_guild demo_env) (fetch_role demo_env)
        (fetch_playerlist_channel demo_env)
        (can_mention_everyone demo_env) (chan_send demo_env)
        (leave_realm demo_env) (λ _ _, inl HTTPException)
        (mention_cmd demo_env) (bulk_create_error demo_env).

(** ** [main.py]: the Sentry filter, [to_proper_word] and [on_ready] *)

(** [s.startswith(pre)] and [sub in s] on strings. *)
Definition startswith (pre s : string) : bool :=
  match strip_prefix pre s with
  | Some _ => true
  | None => false
  end.

Fixpoint str_contains (sub s : string) : bool :=
  match strip_prefix sub s with
  | Some _ => true
  | None =>
      match s with
      | EmptyString => false
      | String _ s' => str_contains sub s'
      end
  end.

(** A [logging.LogRecord], by the two attributes the filter reads. *)
Record LogRecord : Type := mkLogRecord {
  lr_name : string;
  lr_message : string
}.

(** The [hint] dict of a Sentry event: each key may be absent;
    [hint_exc_is_keyboard_interrupt] is [isinstance(exc_value,
    KeyboardInterrupt)] for the [exc_info] triple. *)
Record SentryHint : Type := mkSentryHint {
  hint_log_record : option LogRecord;
  hint_exc_is_keyboard_interrupt : option bool
}.

(** Lines 58-67: whether the log record makes the filter return [None]. *)
Definition log_record_filtered (hint : SentryHint) : bool :=
  match hint_log_record hint with
  | Some record =>
      if str_contains "interactions" (lr_name record)
         || str_contains "realms_bot" (lr_name record)
      then
        if str_contains ": 403" (lr_message record) then true
        else if str_contains ": 404" (lr_message record) then true
        else if startswith "Ignoring exception in " (lr_message record) then true
        else false
      else false
  | None => false
  end.

(** [default_sentry_filter], lines 55-74, for events of any type. *)
Definition default_sentry_filter {A : Type} (event : A) (hint : SentryHint)
    : option A :=
  if log_record_filtered hint then None
  else
    match hint_exc_is_keyboard_interrupt hint with
    | Some true => None
    | _ => Some event
    end.

(** [s.replace(old, new)] for a non-empty [old], scanning from the left;
    [skip] is the number of characters of a match still to pass over. *)
Fixpoint str_replace_from (skip : nat) (old new s : string) : string :=
  match s with
  | EmptyString => EmptyString
  | String a s' =>
      match skip with
      | S k => str_replace_from k old new s'
      | O =>
          match strip_prefix old s with
          | Some _ => new +:+ str_replace_from (String.length old - 1) old new s'
          | None => String a (str_replace_from 0 old new s')
          end
      end
  end.

Definition str_replace (old new s : string) : string :=
  str_replace_from 0 old new s.

(** [to_proper_word], lines 83-87; [intword] is [humanize.intword]. *)
Definition to_proper_word (intword : nat → string) (num : nat) : string :=
  let num_str := intword num in
  if startswith "1.0" num_str then str_replace "1.0" "1" num_str else num_str.

(** [s] holds [sub] somewhere. *)
Definition is_substring (sub s : string) : Prop :=
  ∃ before after, s = before +:+ sub +:+ after.

(** The client fields [on_ready] reads or writes: [init_load] and
    [bot_owner] (lines 247-248), the cached [owner], the application's
    owner id and the number of guilds.  Users are their ids. *)
Record Client : Type := mkClient {
  init_load : bool;
  bot_owner : option Z;
  owner : option Z;
  app_owner_id : Z;
  guild_count : nat
}.

Definition set_init_load (v : bool) (cl : Client) : Client :=
  mkClient v (bot_owner cl) (owner cl) (app_owner_id cl) (guild_count cl).

Definition set_bot_owner (v : option Z) (cl : Client) : Client :=
  mkClient (init_load cl) v (owner cl) (app_owner_id cl) (guild_count cl).

Inductive ClientAction : Type :=
  | CFetchUser (user : Z)
  | CSend (user : Z) (text : string)
  | CChangePresence (activity_name : string).

(** What Discord answers to [on_ready]'s calls, and [humanize.intword]. *)
Record ClientEnv : Type := mkClientEnv {
  fetch_user : Z → exn + option Z;
  user_send : Z → string → option exn;
  change_presence : string → option exn;
  intword : nat → string
}.

Record ClientRun : Type := mkClientRun {
  cr_client : Client;
  cr_log : list ClientAction;
  cr_res : exn + unit
}.

(** Lines 134-139, shared with [on_resume_func]. *)
Definition watching_activity (CE : ClientEnv) (cl : Client) : string :=
  "around " +:+ to_proper_word (intword CE) (guild_count cl) +:+ " Realms".

(** [on_ready], lines 114-139; [now] is [int(utcnow.timestamp())].  A
    [fetch_user] that finds nobody leaves [bot_owner] at [None], and the
    [send] on it raises [AttributeError]. *)
Definition on_ready (CE : ClientEnv) (now : Z) (cl : Client) : ClientRun :=
  let time_format := "<t:" +:+ pretty now +:+ ":f>" in
  let connect_msg :=
    if init_load cl then "Logged in at " +:+ time_format +:+ "!"
    else "Reconnected at " +:+ time_format +:+ "!" in
  let cl1 :=
    match bot_owner cl with
    | Some _ => cl
    | None => set_bot_owner (owner cl) cl
    end in
  let fetched : list ClientAction * (exn + Client) :=
    match bot_owner cl1 with
    | Some _ => ([], inr cl1)
    | None =>
        match fetch_user CE (app_owner_id cl1) with
        | inl e => ([CFetchUser (app_owner_id cl1)], inl e)
        | inr found => ([CFetchUser (app_owner_id cl1)], inr (set_bot_owner found cl1))
        end
    end in
  match fetched.2 with
  | inl e => mkClientRun cl1 fetched.1 (inl e)
  | inr cl2 =>
      match bot_owner cl2 with
      | None => mkClientRun cl2 fetched.1 (inl (OtherException "AttributeError"))
      | Some user =>
          match user_send CE user connect_msg with
          | Some e => mkClientRun cl2 (fetched.1 ++ [CSend user connect_msg]) (inl e)
          | None =>
              let cl3 := set_init_load false cl2 in
              let activity := watching_activity CE cl3 in
              mkClientRun cl3
                (fetched.1 ++ [CSend user connect_msg; CChangePresence activity])
                match change_presence CE activity with
                | Some e => inl e
                | None => inr tt
                end
          end
      end
  end.

(** A client that has never been ready, and an environment in which every
    call succeeds. *)
Definition demo_client : Client := mkClient true None None 7 3.

Definition demo_client_env : ClientEnv :=
  mkClientEnv (λ u, inr (Some u)) (λ _ _, None) (λ _, None)
              (λ n, if (n =? 1000 * 1000)%nat then "1.0 million" else pretty n).

(** ** [exts/etc_events.py]: guilds joined and left *)

(** [GuildConfig.prisma().find_unique(where={"guild_id": g})]. *)
Definition find_unique_config (g : Z) (table : list GuildConfig)
    : option GuildConfig :=
  head (config_rows g table).

(** [GuildConfig.prisma().count(where={"guild_id": g})]. *)
Definition count_configs (g : Z) (table : list GuildConfig) : nat :=
  length (config_rows g table).

(** [GuildConfig.prisma().count(where={"realm_id": realm,
    "guild_id": {"not": g}})], lines 47-52. *)
Definition count_other_guilds (realm : string) (g : Z)
    (table : list GuildConfig) : nat :=
  length (filter (λ c, cfg_realm_id c = Some realm ∧ guild_id c ≠ g) table).

(** [PlayerSession.prisma().delete_many(where={"realm_id": realm})]. *)
Definition delete_many_sessions (realm : string) : M unit :=
  λ w,
    mkRun (mkWorld (bot w) (guild_configs w)
                   (filter (λ s, realm_id s ≠ realm) (player_sessions w))
                   (uuid_calls w)) [] (inr tt).

(** [GuildConfig.prisma().delete(where={"guild_id": g})]. *)
Definition delete_config (g : Z) : M unit :=
  λ w,
    mkRun (mkWorld (bot w) (filter (λ c, guild_id c ≠ g) (guild_configs w))
                   (player_sessions w) (uuid_calls w)) [] (inr tt).

(** [with contextlib.suppress(elytra.MicrosoftAPIException): m]. *)
Definition suppress_MicrosoftAPIException (m : M unit) : M unit :=
  try_except m
    (λ e, match e with MicrosoftAPIException _ => Some (ret tt) | _ => None end).

(** [on_guild_left], lines 37-65; [is_ready] is [self.bot.is_ready] and [g]
    is [int(event.guild_id)]. *)
Definition on_guild_left (E : Env) (is_ready : bool) (g : Z) : M unit :=
  if negb is_ready then ret tt
  else
    w <- get_world ;;
    match find_unique_config g (guild_configs w) with
    | None => ret tt
    | Some config =>
        (if truthy_str (cfg_realm_id config)
            && (count_other_guilds (default "" (cfg_realm_id config)) g
                                   (guild_configs w) =? 1)%nat
         then
           delete_many_sessions (default "" (cfg_realm_id config)) ;;;
           suppress_MicrosoftAPIException
             (call_leave_realm E (default "" (cfg_realm_id config)))
         else ret tt) ;;;
        delete_config g
    end.

(** What [on_guild_join] leaves behind: the configuration table, the guilds
    it told Discord to leave, and the exception it ended with, if any. *)
Record GuildJoinRun : Type := mkGuildJoinRun {
  gj_configs : list GuildConfig;
  gj_left_guilds : list Z;
  gj_res : option exn
}.

(** [on_guild_join], lines 23-35.  [leave_guild] is the outcome of
    [bot.http.leave_guild], [new_config g] the row
    [GuildConfig.prisma().create({"guild_id": g})] inserts. *)
Definition on_guild_join (leave_guild : Z → option exn)
    (new_config : Z → GuildConfig) (is_ready : bool) (blacklist : gset Z)
    (g : Z) (table : list GuildConfig) : GuildJoinRun :=
  if negb is_ready then mkGuildJoinRun table [] None
  else if decide (g ∈ blacklist) then mkGuildJoinRun table [g] (leave_guild g)
  else if (count_configs g table =? 0)%nat
       then mkGuildJoinRun (table ++ [new_config g]) [] None
       else mkGuildJoinRun table [] None.

(** A fresh row: every optional column unset. *)
Definition demo_new_config (g : Z) : GuildConfig :=
  mkGuildConfig g None None None false false true None None.

(** Two guilds linked to realm ["1"], with two sessions of that realm and
    one of another. *)
Definition demo_shared_world : World :=
  mkWorld initial_bot
          [mkGuildConfig 10 (Some "1") None (Some 100) false false true None None;
           mkGuildConfig 20 (Some "1") None (Some 200) false false true None None;
           mkGuildConfig 30 (Some "2") None (Some 300) false false true None None]
          [mkPlayerSession 1 "1" "a" true 0;
           mkPlayerSession 2 "2" "b" true 0;
           mkPlayerSession 3 "1" "c" false 0] 0.

(** ** [exts/voting.py] *)

(** [VoteHandler]; a JSON object of counts is the list of its items, the
    [headers] dict the list of its items. *)
Record VoteHandler : Type := mkVoteHandler {
  name : string;
  base_url : string;
  headers : list (string * string);
  data_url : string;
  data_callback : nat → nat → list (string * nat);
  vote_url : option string
}.

(** [os.environ.get(key)], and its value where the code has checked it. *)
Definition environ_get (E : Env) (key : string) : option string :=
  environ E !! key.

Definition top_gg_handler (token : string) : VoteHandler :=
  mkVoteHandler "Top.gg" "https://top.gg/api" [("Authorization", token)]
    "/bots/{bot_id}/stats"
    (λ guild_count shard_count,
       [("server_count", guild_count); ("shard_count", shard_count)])
    (Some "https://top.gg/bot/{bot_id}/vote **(prefered)**").

Definition discords_com_handler (token : string) : VoteHandler :=
  mkVoteHandler "Discords.com" "https://discords.com/bots/api"
    [("Authorization", token)] "/bot/{bot_id}"
    (λ guild_count _, [("server_count", guild_count)])
    (Some "https://discords.com/bots/bot/{bot_id}").

Definition dbl_handler (token : string) : VoteHandler :=
  mkVoteHandler "Discord Bot List" "https://discordbotlist.com/api/v1"
    [("Authorization", token)] "/bots/{bot_id}/stats"
    (λ guild_count _, [("guilds", guild_count)])
    (Some "https://discordbotlist.com/bots/realms-playerlist-bot/upvote").

Definition discord_bots_handler (token : string) : VoteHandler :=
  mkVoteHandler "Discord Bots" "https://discord.bots.gg/api/v1"
    [("Authorization", token); ("Content-Type", "application/json")]
    "/bots/{bot_id}/stats"
    (λ guild_count shard_count,
       [("guildCount", guild_count); ("shardCount", shard_count)])
    None.

(** One [if os.environ.get(key): self.handlers.append(make(os.environ[key]))]
    of lines 31-88. *)
Definition handler_if_token (E : Env) (key : string)
    (make : string → VoteHandler) : list VoteHandler :=
  if truthy_str (environ_get E key)
  then [make (default "" (environ_get E key))]
  else [].

(** [self.handlers] at line 90. *)
Definition configured_handlers (E : Env) : list VoteHandler :=
  handler_if_token E "TOP_GG_TOKEN" top_gg_handler
  ++ handler_if_token E "DISCORDSCOM_TOKEN" discords_com_handler
  ++ handler_if_token E "DBL_TOKEN" dbl_handler
  ++ handler_if_token E "DISCORD_BOTS_TOKEN" discord_bots_handler.

(** [Voting.__init__], lines 23-93: the handler list of the extension, or
    the [ValueError] of line 91. *)
Definition Voting_init (E : Env) : exn + list VoteHandler :=
  match configured_handlers E with
  | [] => inl ValueError
  | handlers => inr handlers
  end.

(** [template.format(bot_id=bot_id)] for the templates of this file, whose
    only braces are the placeholder [{bot_id}]. *)
Definition format_bot_id (template : string) (bot_id : Z) : string :=
  str_replace "{bot_id}" (pretty bot_id) template.

(** The list comprehension of [vote], lines 119-123. *)
Definition website_votes (handlers : list VoteHandler) (bot_id : Z)
    : list string :=
  omap (λ handler,
          if truthy_str (vote_url handler)
          then Some ("**" +:+ name handler +:+ "** - "
                     +:+ format_bot_id (default "" (vote_url handler)) bot_id)
          else None)
       handlers.

(** The embed [vote] sends, lines 124-131; [color] is [bot.color] and
    [created_at] is [ctx.id.created_at]. *)
Definition vote (handlers : list VoteHandler) (bot_id : Z) (color : string)
    (created_at : Z) : Embed :=
  mkEmbed color (Some "Vote for the bot")
          (Some (String.concat newline (website_votes handlers bot_id)))
          (Some created_at) None [].

(** What a [session.post] of [autopost_guild_count] comes to: the post
    itself raises, or the response has an error status, for which
    [raise_for_status] raises [ClientResponseError], or it has not. *)
Inductive PostOutcome : Type :=
  | PostRaises (e : exn)
  | ResponseError
  | ResponseOk.

Inductive VoteAction : Type :=
  | VPost (url : string) (json : list (string * nat))
          (post_headers : list (string * string))
  | VErrorHandle (url : string).

(** The request of lines 104-108 for one handler. *)
Definition stats_post (bot_id : Z) (server_count shard_count : nat)
    (handler : VoteHandler) : VoteAction :=
  VPost (base_url handler +:+ format_bot_id (data_url handler) bot_id)
        (data_callback handler server_count shard_count)
        (headers handler).

Definition stats_url (bot_id : Z) (handler : VoteHandler) : string :=
  base_url handler +:+ format_bot_id (data_url handler) bot_id.

(** [autopost_guild_count], lines 100-112: the calls it makes, in order, and
    how it ends.  [utils.error_handle] is recorded with the URL whose
    response it is given. *)
Fixpoint autopost_guild_count (session_post : string → PostOutcome)
    (bot_id : Z) (server_count shard_count : nat)
    (handlers : list VoteHandler) : list VoteAction * (exn + unit) :=
  match handlers with
  | [] => ([], inr tt)
  | handler :: handlers' =>
      let request := stats_post bot_id server_count shard_count handler in
      match session_post (stats_url bot_id handler) with
      | PostRaises e => ([request], inl e)
      | ResponseError =>
          let rest := autopost_guild_count session_post bot_id server_count
                        shard_count handlers' in
          (request :: VErrorHandle (stats_url bot_id handler) :: rest.1, rest.2)
      | ResponseOk =>
          let rest := autopost_guild_count session_post bot_id server_count
                        shard_count handlers' in
          (request :: rest.1, rest.2)
      end
  end.

(** ** [main.py]: which extensions [start] loads *)

(** The two [continue]s of lines 301-307. *)
Definition skips_extension (E : Env) (ext : string) : bool :=
  (str_contains "voting" ext && negb (truthy_str (environ_get E "TOP_GG_TOKEN")))
  || (TEST_MODE E && (str_contains "autorun" ext || str_contains "etc" ext)).

(** The extensions lines 300-312 hand to [bot.load_extension], in order,
    when every load succeeds. *)
Definition extensions_to_load (E : Env) (ext_list : list string) : list string :=
  filter (λ ext, skips_extension E ext = false) ext_list.

(** [demo_env] with the tokens of Top.gg and Discord Bots set. *)
Definition demo_voting_env : Env :=
  mkEnv (uuid4_at demo_env) (py_int demo_env)
        {[ "TOP_GG_TOKEN" := "t0"; "DISCORD_BOTS_TOKEN" := "t3" ]}
        (TEST_MODE demo_env) (redis_missing_realm_keys demo_env)
        (get_guild demo_env) (fetch_role demo_env)
        (fetch_playerlist_channel demo_env)
        (can_mention_everyone demo_env) (chan_send demo_env)
        (leave_realm demo_env) (fill_in_gamertags_for_sessions demo_env)
        (mention_cmd demo_env) (bulk_create_error demo_env).

(** The sites of lines 31-88 with the variable that holds each one's token,
    in the order of the file. *)
Definition voting_sites : list (string * string) :=
  [("Top.gg", "TOP_GG_TOKEN"); ("Discords.com", "DISCORDSCOM_TOKEN");
   ("Discord Bot List", "DBL_TOKEN"); ("Discord Bots", "DISCORD_BOTS_TOKEN")].

Definition is_post (a : VoteAction) : bool :=
  match a with
  | VPost _ _ _ => true
  | VErrorHandle _ => false
  end.

(** ** [cogs/general_cmds.py] *)

(** An entry of [bot.pastebins]: the dict with keys [time], [url], [count]. *)
Record PasteEntry : Type := mkPasteEntry {
  entry_time : Z;
  entry_url : string;
  entry_count : nat
}.

(** [datetime.timedelta(hours=4)] in microseconds. *)
Definition four_hours : Z := 4 * 60 * 60 * 1000000.

(** [pastebin_cache], lines 18-30, at time [current_time]. *)
Definition pastebin_cache (current_time : Z) (pastebins : gmap string PasteEntry)
    (season : string) : option PasteEntry :=
  match pastebins !! season with
  | Some entry =>
      let four_hours_ago := current_time - four_hours in
      if (four_hours_ago <? entry_time entry)%Z then Some entry else None
  | None => None
  end.

(** The response of glot.io: its status, the [id] of its JSON body and its
    text. *)
Record GlotResponse : Type := mkGlotResponse {
  resp_status : Z;
  resp_json_id : string;
  resp_text : string
}.

Record StatsEmbed : Type := mkStatsEmbed {
  se_title : string;
  se_colour : string;
  se_description : string;
  se_author_name : string;
  se_author_icon_url : string
}.

Inductive CogAction : Type :=
  | GPostPaste (authorization title content : string)
  | GMsgToOwner (text : string)
  | GSend (content : string)
  | GSendEmbed (embed : StatsEmbed).

(** What the cog's calls answer: [os.environ.get('GLOT_KEY')], the post to
    glot.io, and [ctx.send]. *)
Record CogEnv : Type := mkCogEnv {
  glot_key : option string;
  glot_post : string → string → string → exn + GlotResponse;
  ctx_send : CogAction → option exn
}.

(** [post_paste], lines 32-56: its calls, and the URL it returns. *)
Definition post_paste (CE : CogEnv) (title content : string)
    : list CogAction * (exn + string) :=
  let authorization := "Token " +:+ default "None" (glot_key CE) in
  match glot_post CE authorization title content with
  | inl e => ([GPostPaste authorization title content], inl e)
  | inr resp =>
      if (resp_status resp =? 200)%Z
      then ([GPostPaste authorization title content],
            inr ("https://glot.io/snippets/" +:+ resp_json_id resp))
      else ([GPostPaste authorization title content;
             GMsgToOwner (pretty (resp_status resp) +:+ newline
                          +:+ resp_text resp)],
            inr "ERROR, contact Astrea.")
  end.

Record SeasonRole : Type := mkSeasonRole {
  role_id : Z;
  role_name : string
}.

(** A member: [display_name], [str(member)], [id] and the ids of its roles. *)
Record Member : Type := mkMember {
  display_name : string;
  member_str : string;
  member_id : Z;
  member_roles : gset Z
}.

(** [ctx.guild], with the display name and avatar URL of [ctx.guild.me]. *)
Record StatsGuild : Type := mkStatsGuild {
  stats_guild_id : Z;
  roles : list SeasonRole;
  members : list Member;
  me_display_name : string;
  me_avatar_url : string
}.

(** The bot fields the cog uses. *)
Record CogBot : Type := mkCogBot {
  pastebins : gmap string PasteEntry;
  config : gmap string (gmap string string);
  color : string
}.

Definition set_pastebins (p : gmap string PasteEntry) (b : CogBot) : CogBot :=
  mkCogBot p (config b) (color b).

Record CogRun : Type := mkCogRun {
  cog_bot : CogBot;
  cog_log : list CogAction;
  cog_res : exn + unit
}.

(** Lines 81-84: the role named by the guild's [season_role] pattern with
    [X] replaced by [season]; [KeyError] when the guild or the pattern is
    missing from [bot.config]. *)
Definition season_x_role (b : CogBot) (guild : StatsGuild) (season : string)
    : exn + option SeasonRole :=
  match config b !! pretty (stats_guild_id guild) with
  | None => inl KeyError
  | Some guild_entry =>
      match guild_entry !! "season_role" with
      | None => inl KeyError
      | Some pattern =>
          inr (snd <$> list_find
                         (λ r, role_name r = str_replace "X" season pattern)
                         (roles guild))
      end
  end.

(** Lines 91-95. *)
Definition list_of_people (guild : StatsGuild) (role : SeasonRole) : list string :=
  (λ member, display_name member +:+ " || " +:+ member_str member +:+ " || "
             +:+ pretty (member_id member))
    <$> filter (λ member, role_id role ∈ member_roles member) (members guild).

(** Lines 112-123. *)
Definition stats_embed (b : CogBot) (guild : StatsGuild) (role : SeasonRole)
    (count : nat) (url : string) : StatsEmbed :=
  mkStatsEmbed
    ("There are " +:+ pretty count +:+ " people that have the "
     +:+ role_name role +:+ " role.")
    (color b) ("List of members: " +:+ url)
    (me_display_name guild) (me_avatar_url guild).

(** [await ctx.send(...)] as the last statement of a branch. *)
Definition send_last (CE : CogEnv) (b : CogBot) (before : list CogAction)
    (a : CogAction) : CogRun :=
  mkCogRun b (before ++ [a])
           match ctx_send CE a with
           | Some e => inl e
           | None => inr tt
           end.

(** Lines 99-100. *)
Definition paste_title (role : SeasonRole) : string :=
  "Query about people that have the " +:+ role_name role +:+ " role:".

Definition str_of_people (guild : StatsGuild) (role : SeasonRole) : string :=
  String.concat "" ((λ name, name +:+ newline) <$> list_of_people guild role).

(** [check_stats], lines 76-125; [lookup_time] and [store_time] are the
    values of [utcnow()] at lines 19 and 104. *)
Definition check_stats (CE : CogEnv) (lookup_time store_time : Z)
    (guild : StatsGuild) (season : string) (b : CogBot) : CogRun :=
  match season_x_role b guild season with
  | inl e => mkCogRun b [] (inl e)
  | inr None => send_last CE b [] (GSend "Invalid season number!")
  | inr (Some role) =>
      match pastebin_cache lookup_time (pastebins b) season with
      | None =>
          let count := length (list_of_people guild role) in
          let posted :=
            post_paste CE (paste_title role) (str_of_people guild role) in
          match posted.2 with
          | inl e => mkCogRun b posted.1 (inl e)
          | inr url =>
              let b' := set_pastebins
                          (<[season := mkPasteEntry store_time url count]>
                             (pastebins b)) b in
              send_last CE b' posted.1
                        (GSendEmbed (stats_embed b' guild role count url))
          end
      | Some cache =>
          send_last CE b []
                    (GSendEmbed (stats_embed b guild role (entry_count cache)
                                             (entry_url cache)))
      end
  end.


(** A guild with a [Season 3] role held by one of its two members, another
    guild with the same role and no members, and a bot configured for
    both. *)
Definition demo_stats_guild : StatsGuild :=
  mkStatsGuild 1 [mkSeasonRole 11 "Season 3"]
    [mkMember "Ann" "ann#1" 101 {[ 11 ]}; mkMember "Bob" "bob#2" 102 ∅]
    "Bot" "avatar".

Definition demo_other_guild : StatsGuild :=
  mkStatsGuild 2 [mkSeasonRole 22 "Season 3"] [] "Bot" "avatar".

Definition demo_cog_bot : CogBot :=
  mkCogBot ∅ {[ "1" := {[ "season_role" := "Season X" ]};
                "2" := {[ "season_role" := "Season X" ]} ]} "purple".

(** glot.io accepts every paste under the id ["abc"], or refuses every one. *)
Definition demo_cog_env : CogEnv :=
  mkCogEnv (Some "k") (λ _ _ _, inr (mkGlotResponse 200 "abc" "")) (λ _, None).

Definition demo_failing_cog_env : CogEnv :=
  mkCogEnv (Some "k") (λ _ _ _, inr (mkGlotResponse 500 "" "down")) (λ _, None).

(** * Properties *)

(** ** The identity map *)

Lemma uuid_cache_getitem_lookup E key w :
  uuid_cache (bot (uuid_cache_getitem E key w).2) !! key
  = Some (uuid_cache_getitem E key w).1.
Proof.
  unfold uuid_cache_getitem.
  destruct (uuid_cache (bot w) !! key) eqn:Hk; simpl; [done |].
  by rewrite lookup_insert_eq.
Qed.

Lemma uuid_cache_getitem_mono E key w k v :
  uuid_cache (bot w) !! k = Some v →
  uuid_cache (bot (uuid_cache_getitem E key w).2) !! k = Some v.
Proof.
  intros Hk. unfold uuid_cache_getitem.
  destruct (uuid_cache (bot w) !! key) eqn:Hkey; simpl; [done |].
  rewrite lookup_insert_ne; [done |]. congruence.
Qed.

Lemma uuid_cache_getitem_hit E key w v :
  uuid_cache (bot w) !! key = Some v →
  uuid_cache_getitem E key w = (v, w).
Proof. intros Hk. unfold uuid_cache_getitem. by rewrite Hk. Qed.

Lemma resolve_all_mono E qs w k v :
  uuid_cache (bot w) !! k = Some v →
  uuid_cache (bot (resolve_all E qs w)) !! k = Some v.
Proof.
  revert w. induction qs as [| [realm p] qs IH]; intros w Hk; simpl; [done |].
  apply IH. by apply uuid_cache_getitem_mono.
Qed.

(** ** The session rows of a live update *)

Lemma filter_key_nil {A B : Type} `{EqDecision B} (f : A → B) (b : B) (l : list A) :
  b ∉ f <$> l → filter (λ y, f y = b) l = [].
Proof.
  induction l as [| x l IH]; intros Hb; [done |].
  rewrite fmap_cons in Hb. apply not_elem_of_cons in Hb as [Hne Hb].
  rewrite filter_cons_False; [by apply IH | congruence].
Qed.

Lemma filter_key_singleton {A B : Type} `{EqDecision B} (f : A → B) (x : A)
    (l : list A) :
  NoDup (f <$> l) → x ∈ l → filter (λ y, f y = f x) l = [x].
Proof.
  induction l as [| y l IH]; intros Hnd Hx; [by apply elem_of_nil in Hx |].
  rewrite fmap_cons in Hnd. apply NoDup_cons in Hnd as [Hy Hnd].
  apply elem_of_cons in Hx as [-> | Hx].
  - rewrite filter_cons_True; [| done].
    by rewrite filter_key_nil.
  - rewrite filter_cons_False.
    + by apply IH.
    + intros Heq. apply Hy. rewrite Heq. by apply list_elem_of_fmap_2.
Qed.

Lemma build_sessions_xuid E ev ps w :
  xuid <$> (build_sessions E ev ps w).1 = ps.
Proof.
  revert w. induction ps as [| p ps IH]; intros w; simpl; [done |].
  destruct (resolve E _ p w) as [cid w1].
  specialize (IH w1). destruct (build_sessions E ev ps w1) as [rows w2].
  simpl in *. by f_equal.
Qed.

Lemma build_sessions_cache_mono E ev ps w k v :
  uuid_cache (bot w) !! k = Some v →
  uuid_cache (bot (build_sessions E ev ps w).2) !! k = Some v.
Proof.
  revert w. induction ps as [| p ps IH]; intros w Hk; simpl; [done |].
  pose proof (uuid_cache_getitem_mono E (realm_xuid_key (lps_realm_id ev) p) w k v Hk) as H1.
  fold (resolve E (lps_realm_id ev) p w) in H1.
  destruct (resolve E _ p w) as [cid w1].
  specialize (IH w1 H1). destruct (build_sessions E ev ps w1) as [rows w2].
  done.
Qed.

(** Every row carries the event's realm and timestamp, the membership of
    its participant in [joined], and the identifier the map holds for the
    pair afterwards. *)
Lemma build_sessions_row E ev ps w r :
  r ∈ (build_sessions E ev ps w).1 →
  r = mkPlayerSession (custom_id r) (lps_realm_id ev) (xuid r)
        (bool_decide (xuid r ∈ lps_joined ev)) (lps_timestamp ev)
  ∧ uuid_cache (bot (build_sessions E ev ps w).2)
      !! realm_xuid_key (lps_realm_id ev) (xuid r) = Some (custom_id r).
Proof.
  revert w. induction ps as [| p ps IH]; intros w; simpl.
  - intros H. by apply elem_of_nil in H.
  - pose proof (uuid_cache_getitem_lookup E (realm_xuid_key (lps_realm_id ev) p) w) as Hl.
    fold (resolve E (lps_realm_id ev) p w) in Hl.
    destruct (resolve E _ p w) as [cid w1]. simpl in Hl.
    pose proof (build_sessions_cache_mono E ev ps w1 _ _ Hl) as Hm.
    specialize (IH w1). destruct (build_sessions E ev ps w1) as [rows w2].
    simpl in *. intros Hr. apply elem_of_cons in Hr as [-> | Hr]; [done |].
    by apply IH.
Qed.

(** ** [defaultdict(set)] *)

Lemma defaultdict_set_getitem_fst `{Countable K} `{Countable V}
    (d : gmap K (gset V)) (key : K) :
  (defaultdict_set_getitem d key).1 = d !!! key.
Proof.
  unfold defaultdict_set_getitem. rewrite lookup_total_alt.
  by destruct (d !! key).
Qed.

Lemma defaultdict_set_getitem_snd `{Countable K} `{Countable V}
    (d : gmap K (gset V)) (key j : K) :
  (defaultdict_set_getitem d key).2 !!! j = d !!! j.
Proof.
  unfold defaultdict_set_getitem.
  destruct (d !! key) eqn:Hk; simpl; [done |].
  destruct (decide (key = j)) as [<- | Hne].
  - rewrite lookup_total_insert_eq, lookup_total_alt, Hk. done.
  - by rewrite lookup_total_insert_ne.
Qed.

(** ** [start]: seeding the online cache *)

Lemma seed_player_res E s w :
  r_res (seed_player E s w)
  = match py_int E (realm_id s) with
    | Some _ => inr tt
    | None => inl ValueError
    end.
Proof.
  unfold seed_player, bind, modify_bot, int_of_str, online_cache_getitem. simpl.
  destruct (py_int E (realm_id s)); simpl; [| done].
  by destruct (defaultdict_set_getitem _ _).
Qed.

Lemma seed_player_online_cache E s w j :
  online_cache (bot (r_world (seed_player E s w))) !!! j
  = match py_int E (realm_id s) with
    | Some rid =>
        if decide (rid = j)
        then online_cache (bot w) !!! rid ∪ {[xuid s]}
        else online_cache (bot w) !!! j
    | None => online_cache (bot w) !!! j
    end.
Proof.
  unfold seed_player, bind, modify_bot, int_of_str, online_cache_getitem. simpl.
  destruct (py_int E (realm_id s)) as [rid |]; simpl; [| done].
  pose proof (defaultdict_set_getitem_fst (online_cache (bot w)) rid) as H1.
  pose proof (defaultdict_set_getitem_snd (online_cache (bot w)) rid j) as H2.
  destruct (defaultdict_set_getitem (online_cache (bot w)) rid) as [s0 d].
  simpl in *. subst s0.
  destruct (decide (rid = j)) as [<- | Hne].
  - by rewrite lookup_total_insert_eq.
  - by rewrite lookup_total_insert_ne.
Qed.

Lemma seed_player_frame E s w :
  let w' := r_world (seed_player E s w) in
  guild_configs w' = guild_configs w
  ∧ player_sessions w' = player_sessions w
  ∧ live_playerlist_store (bot w') = live_playerlist_store (bot w)
  ∧ r_log (seed_player E s w) = [].
Proof.
  unfold seed_player, bind, modify_bot, int_of_str, online_cache_getitem. simpl.
  destruct (py_int E (realm_id s)) as [rid |]; simpl; [| done].
  by destruct (defaultdict_set_getitem _ _).
Qed.

Lemma for_each_cons {A : Type} (body : A → M unit) x xs w :
  for_each body (x :: xs) w
  = match r_res (body x w) with
    | inl e => mkRun (r_world (body x w)) (r_log (body x w)) (inl e)
    | inr _ =>
        let r' := for_each body xs (r_world (body x w)) in
        mkRun (r_world r') (r_log (body x w) ++ r_log r') (r_res r')
    end.
Proof. reflexivity. Qed.

Lemma seed_players_frame E l w :
  let w' := r_world (for_each (seed_player E) l w) in
  guild_configs w' = guild_configs w
  ∧ player_sessions w' = player_sessions w
  ∧ live_playerlist_store (bot w') = live_playerlist_store (bot w).
Proof.
  revert w. induction l as [| s l IH]; intros w; [done |].
  rewrite for_each_cons. pose proof (seed_player_frame E s w) as (H1 & H2 & H3 & _).
  destruct (r_res (seed_player E s w)); simpl; [done |].
  destruct (IH (r_world (seed_player E s w))) as (I1 & I2 & I3).
  simpl in *. by rewrite I1, I2, I3.
Qed.

(** Whatever the loop has put in the cache comes from the cache before it or
    from a row of the list. *)
Lemma seed_players_sound E l w rid p :
  p ∈ online_cache (bot (r_world (for_each (seed_player E) l w))) !!! rid →
  p ∈ online_cache (bot w) !!! rid
  ∨ ∃ s, s ∈ l ∧ py_int E (realm_id s) = Some rid ∧ xuid s = p.
Proof.
  revert w. induction l as [| s l IH]; intros w; [by left |].
  rewrite for_each_cons.
  pose proof (seed_player_online_cache E s w rid) as Hc.
  pose proof (seed_player_res E s w) as Hr.
  assert (Hstep : p ∈ online_cache (bot (r_world (seed_player E s w))) !!! rid →
            p ∈ online_cache (bot w) !!! rid
            ∨ py_int E (realm_id s) = Some rid ∧ xuid s = p).
  { rewrite Hc. destruct (py_int E (realm_id s)) as [rid' |]; [| by left].
    destruct (decide (rid' = rid)) as [-> | Hne]; [| by left].
    rewrite elem_of_union, elem_of_singleton. intros [? | ->]; [by left | by right]. }
  destruct (r_res (seed_player E s w)); simpl.
  - intros Hp. destruct (Hstep Hp) as [? | [? ?]]; [by left |].
    right. exists s. split; [apply elem_of_cons; by left | done].
  - intros Hp. destruct (IH _ Hp) as [Hp' | (s' & Hs' & ? & ?)].
    + destruct (Hstep Hp') as [? | [? ?]]; [by left |].
      right. exists s. split; [apply elem_of_cons; by left | done].
    + right. exists s'. split; [apply elem_of_cons; by right | done].
Qed.

Lemma seed_players_mono E l w rid p :
  p ∈ online_cache (bot w) !!! rid →
  p ∈ online_cache (bot (r_world (for_each (seed_player E) l w))) !!! rid.
Proof.
  revert w. induction l as [| s l IH]; intros w Hp; [done |].
  rewrite for_each_cons.
  assert (Hstep : p ∈ online_cache (bot (r_world (seed_player E s w))) !!! rid).
  { rewrite seed_player_online_cache.
    destruct (py_int E (realm_id s)) as [rid' |]; [| done].
    destruct (decide (rid' = rid)) as [-> | Hne]; [| done].
    apply elem_of_union. by left. }
  destruct (r_res (seed_player E s w)); simpl; [done |]. by apply IH.
Qed.

(** When the loop ends normally, every row of the list is in the cache. *)
Lemma seed_players_complete E l w s :
  r_res (for_each (seed_player E) l w) = inr tt →
  s ∈ l →
  ∃ rid, py_int E (realm_id s) = Some rid
         ∧ xuid s ∈ online_cache (bot (r_world (for_each (seed_player E) l w))) !!! rid.
Proof.
  revert w. induction l as [| s0 l IH]; intros w Hres Hs.
  { by apply elem_of_nil in Hs. }
  rewrite for_each_cons in Hres |- *.
  pose proof (seed_player_res E s0 w) as Hr.
  pose proof (seed_player_online_cache E s0 w) as Hc.
  destruct (r_res (seed_player E s0 w)) as [e | []] eqn:Hb; simpl in *; [done |].
  apply elem_of_cons in Hs as [-> | Hs].
  - destruct (py_int E (realm_id s0)) as [rid |]; [| done].
    exists rid. split; [done |]. apply seed_players_mono.
    rewrite Hc. rewrite decide_True by done. apply elem_of_union. right.
    by apply elem_of_singleton.
  - by apply IH.
Qed.

Lemma seed_players_total E l w :
  (∀ s, s ∈ l → is_Some (py_int E (realm_id s))) →
  r_res (for_each (seed_player E) l w) = inr tt.
Proof.
  revert w. induction l as [| s l IH]; intros w Hall; [done |].
  rewrite for_each_cons. rewrite seed_player_res.
  destruct (Hall s) as [rid ->]; [apply elem_of_cons; by left |].
  simpl. apply IH. intros s' Hs'. apply Hall. apply elem_of_cons. by right.
Qed.

(** ** [start]: offline realms and live subscribers *)

Lemma seed_offline_realm_frame E key w :
  let r := seed_offline_realm E key w in
  guild_configs (r_world r) = guild_configs w
  ∧ player_sessions (r_world r) = player_sessions w
  ∧ online_cache (bot (r_world r)) = online_cache (bot w)
  ∧ live_playerlist_store (bot (r_world r)) = live_playerlist_store (bot w)
  ∧ r_res r = match py_int E (removeprefix "missing-realm-" key) with
              | Some _ => inr tt
              | None => inl ValueError
              end.
Proof.
  unfold seed_offline_realm, bind, modify_bot, int_of_str.
  by destruct (py_int E _).
Qed.

Lemma seed_offline_realms_frame E keys w :
  let r := for_each (seed_offline_realm E) keys w in
  guild_configs (r_world r) = guild_configs w
  ∧ player_sessions (r_world r) = player_sessions w
  ∧ online_cache (bot (r_world r)) = online_cache (bot w)
  ∧ live_playerlist_store (bot (r_world r)) = live_playerlist_store (bot w).
Proof.
  revert w. induction keys as [| k keys IH]; intros w; [done |].
  rewrite for_each_cons.
  pose proof (seed_offline_realm_frame E k w) as (H1 & H2 & H3 & H4 & _).
  destruct (r_res (seed_offline_realm E k w)); simpl; [done |].
  destruct (IH (r_world (seed_offline_realm E k w))) as (I1 & I2 & I3 & I4).
  simpl in *. by rewrite I1, I2, I3, I4.
Qed.

Lemma seed_offline_realms_total E keys w :
  (∀ k, k ∈ keys → is_Some (py_int E (removeprefix "missing-realm-" k))) →
  r_res (for_each (seed_offline_realm E) keys w) = inr tt.
Proof.
  revert w. induction keys as [| k keys IH]; intros w Hall; [done |].
  rewrite for_each_cons.
  pose proof (seed_offline_realm_frame E k w) as (_ & _ & _ & _ & ->).
  destruct (Hall k) as [z ->]; [apply elem_of_cons; by left |].
  simpl. apply IH. intros k' Hk'. apply Hall. apply elem_of_cons. by right.
Qed.

Lemma seed_live_subscriber_run c w :
  let r := seed_live_subscriber c w in
  guild_configs (r_world r) = guild_configs w
  ∧ player_sessions (r_world r) = player_sessions w
  ∧ online_cache (bot (r_world r)) = online_cache (bot w)
  ∧ r_res r = inr tt
  ∧ ∀ realm,
      live_playerlist_store (bot (r_world r)) !!! realm
      = if decide (cfg_realm_id c = Some realm)
        then live_playerlist_store (bot w) !!! realm ∪ {[guild_id c]}
        else live_playerlist_store (bot w) !!! realm.
Proof.
  unfold seed_live_subscriber.
  destruct (cfg_realm_id c) as [realm0 |]; simpl.
  - unfold bind, live_store_getitem, modify_bot. simpl.
    pose proof (defaultdict_set_getitem_fst (live_playerlist_store (bot w)) realm0) as H1.
    pose proof (defaultdict_set_getitem_snd (live_playerlist_store (bot w)) realm0) as H2.
    destruct (defaultdict_set_getitem (live_playerlist_store (bot w)) realm0) as [s0 d].
    simpl in *. subst s0. repeat split; try done.
    intros realm. destruct (decide (Some realm0 = Some realm)) as [[= <-] | Hne].
    + by rewrite lookup_total_insert_eq.
    + rewrite lookup_total_insert_ne; [apply H2 | congruence].
  - repeat split; done.
Qed.

Lemma seed_live_subscribers_run l w :
  let r := for_each seed_live_subscriber l w in
  guild_configs (r_world r) = guild_configs w
  ∧ player_sessions (r_world r) = player_sessions w
  ∧ online_cache (bot (r_world r)) = online_cache (bot w)
  ∧ r_res r = inr tt
  ∧ ∀ realm g,
      g ∈ live_playerlist_store (bot (r_world r)) !!! realm
      ↔ g ∈ live_playerlist_store (bot w) !!! realm
        ∨ ∃ c, c ∈ l ∧ cfg_realm_id c = Some realm ∧ guild_id c = g.
Proof.
  revert w. induction l as [| c l IH]; intros w.
  { simpl. repeat split; try done; [by left |].
    intros [? | (c & Hc & _)]; [done | by apply elem_of_nil in Hc]. }
  rewrite for_each_cons.
  pose proof (seed_live_subscriber_run c w) as (H1 & H2 & H3 & H4 & H5).
  simpl in H4. rewrite H4. simpl.
  destruct (IH (r_world (seed_live_subscriber c w))) as (I1 & I2 & I3 & I4 & I5).
  simpl in *. rewrite I1, I2, I3. repeat split; try done.
  - intros Hg. apply I5 in Hg as [Hg | (c' & Hc' & ? & ?)].
    + rewrite H5 in Hg. case_decide as Hd.
      * apply elem_of_union in Hg as [Hg | Hg]; [by left |].
        apply elem_of_singleton in Hg. right. exists c.
        split; [apply elem_of_cons; by left | done].
      * by left.
    + right. exists c'. split; [apply elem_of_cons; by right | done].
  - intros Hg. apply I5. destruct Hg as [Hg | (c' & Hc' & Hr & Hgid)].
    + left. rewrite H5. case_decide; [apply elem_of_union; by left | done].
    + apply elem_of_cons in Hc' as [-> | Hc'].
      * left. rewrite H5. rewrite decide_True by done.
        apply elem_of_union. right. by apply elem_of_singleton.
      * right. exists c'. done.
Qed.

Lemma start_phases E utcnow w :
  let r2 := start_seeded E utcnow w in
  let r3 := start_offline E utcnow w in
  let r4 := for_each seed_live_subscriber
              (filter (λ c, is_live_subscriber c = true)
                 (guild_configs (r_world r3)))
              (r_world r3) in
  r_world (start E utcnow w)
  = match r_res r2 with
    | inl _ => r_world r2
    | inr _ => match r_res r3 with
               | inl _ => r_world r3
               | inr _ => r_world r4
               end
    end
  ∧ r_res (start E utcnow w)
    = match r_res r2 with
      | inl e => inl e
      | inr _ => match r_res r3 with
                 | inl e => inl e
                 | inr _ => r_res r4
                 end
      end.
Proof.
  unfold start_offline, start_seeded, start, bind, update_stale_sessions,
    get_world, start_sessions. simpl.
  destruct (r_res (for_each (seed_player E) _ _)); simpl; [done |].
  destruct (TEST_MODE E); simpl; [done |].
  destruct (r_res (for_each (seed_offline_realm E) _ _)); done.
Qed.

Lemma fresh_online_rows cutoff table s :
  s ∈ filter (λ s, online s = true) (mark_stale_offline cutoff table)
  ↔ s ∈ table ∧ online s = true ∧ (cutoff ≤ last_seen s)%Z.
Proof.
  unfold mark_stale_offline. rewrite list_elem_of_filter, list_elem_of_fmap. split.
  - intros [Hon (s0 & -> & Hs0)].
    destruct (online s0) eqn:Ho; simpl in *.
    + destruct (Z.ltb_spec (last_seen s0) cutoff); simpl in *; [done |].
      by rewrite Ho.
    + by rewrite Ho in Hon.
  - intros (Hs & Hon & Hfresh). split; [done |]. exists s. split; [| done].
    rewrite Hon. simpl.
    destruct (Z.ltb_spec (last_seen s) cutoff); [lia | done].
Qed.

Lemma start_offline_frame E utcnow w :
  guild_configs (r_world (start_offline E utcnow w))
  = guild_configs (r_world (start_seeded E utcnow w))
  ∧ player_sessions (r_world (start_offline E utcnow w))
    = player_sessions (r_world (start_seeded E utcnow w))
  ∧ online_cache (bot (r_world (start_offline E utcnow w)))
    = online_cache (bot (r_world (start_seeded E utcnow w)))
  ∧ live_playerlist_store (bot (r_world (start_offline E utcnow w)))
    = live_playerlist_store (bot (r_world (start_seeded E utcnow w))).
Proof.
  unfold start_offline. destruct (TEST_MODE E); [done |].
  apply seed_offline_realms_frame.
Qed.

(** The three components [start] leaves as the seeding loops left them. *)
Lemma start_frame E utcnow w :
  player_sessions (r_world (start E utcnow w))
  = mark_stale_offline (utcnow - five_minutes) (player_sessions w)
  ∧ online_cache (bot (r_world (start E utcnow w)))
    = online_cache (bot (r_world (start_seeded E utcnow w)))
  ∧ (r_res (start E utcnow w) = inr tt → r_res (start_seeded E utcnow w) = inr tt).
Proof.
  destruct (start_phases E utcnow w) as [Hw Hr]. rewrite Hw, Hr. clear Hw Hr.
  destruct (start_offline_frame E utcnow w) as (O1 & O2 & O3 & O4).
  pose proof (seed_players_frame E
    (filter (λ s, online s = true) (player_sessions (start_sessions utcnow w)))
    (start_sessions utcnow w)) as (S1 & S2 & S3).
  fold (start_seeded E utcnow w) in S1, S2, S3. simpl in S1, S2, S3.
  destruct (r_res (start_seeded E utcnow w)) as [e | []] eqn:H2; [done |].
  destruct (r_res (start_offline E utcnow w)) as [e | []] eqn:H3.
  { rewrite O2, O3. done. }
  match goal with |- context [for_each seed_live_subscriber ?l ?w0] =>
    pose proof (seed_live_subscribers_run l w0) as (L1 & L2 & L3 & L4 & L5) end.
  simpl in L2, L3. rewrite L2, L3, O2, O3. done.
Qed.

(** [start] reaches its end when every [int] it evaluates succeeds. *)
Lemma start_total E utcnow w :
  (∀ s, s ∈ player_sessions w → online s = true →
        (utcnow - five_minutes ≤ last_seen s)%Z → is_Some (py_int E (realm_id s))) →
  (TEST_MODE E = false →
   ∀ k, k ∈ redis_missing_realm_keys E →
        is_Some (py_int E (removeprefix "missing-realm-" k))) →
  r_res (start E utcnow w) = inr tt.
Proof.
  intros Hrows Hkeys.
  destruct (start_phases E utcnow w) as [_ Hr]. rewrite Hr. clear Hr.
  assert (H2 : r_res (start_seeded E utcnow w) = inr tt).
  { apply seed_players_total. intros s Hs.
    apply fresh_online_rows in Hs as (Hs & Hon & Hfresh). by apply Hrows. }
  rewrite H2.
  assert (H3 : r_res (start_offline E utcnow w) = inr tt).
  { unfold start_offline. destruct (TEST_MODE E) eqn:Ht; [done |].
    apply seed_offline_realms_total. by apply Hkeys. }
  rewrite H3.
  match goal with |- context [for_each seed_live_subscriber ?l ?w0] =>
    pose proof (seed_live_subscribers_run l w0) as (_ & _ & _ & L4 & _) end.
  exact L4.
Qed.

(** ** The session table under upserts *)

Lemma update_session_fields_custom_id fields old new :
  custom_id old = custom_id new →
  custom_id (update_session_fields fields old new) = custom_id new.
Proof. intros H. unfold update_session_fields. simpl. by case_decide. Qed.

Lemma update_session_fields_self fields r :
  update_session_fields fields r r = r.
Proof.
  destruct r. unfold update_session_fields. simpl.
  repeat case_decide; reflexivity.
Qed.

Lemma update_as_overwrite fields old new :
  update_session_fields fields old new = overwrite (overwrite_of fields new) old.
Proof.
  unfold update_session_fields, overwrite, overwrite_of. simpl.
  repeat case_decide; reflexivity.
Qed.

Lemma overwrite_no_overwrite s : overwrite no_overwrite s = s.
Proof. by destruct s. Qed.

Lemma overwrite_overwrite_then σ1 σ2 s :
  overwrite σ2 (overwrite σ1 s) = overwrite (overwrite_then σ1 σ2) s.
Proof.
  destruct σ1 as [a1 b1 c1 d1 e1], σ2 as [a2 b2 c2 d2 e2].
  unfold overwrite, overwrite_then. simpl.
  destruct a2, b2, c2, d2, e2; reflexivity.
Qed.

Lemma overwrite_idemp σ s : overwrite σ (overwrite σ s) = overwrite σ s.
Proof.
  destruct σ as [a b c d e]. unfold overwrite. simpl.
  destruct a, b, c, d, e; reflexivity.
Qed.

Lemma upsert_by_custom_id_keys fields r table :
  custom_id <$> upsert_by_custom_id fields r table
  = if decide (custom_id r ∈ custom_id <$> table)
    then custom_id <$> table
    else ((custom_id <$> table) ++ [custom_id r])%list.
Proof.
  induction table as [| t table IH]; [done |].
  cbn [upsert_by_custom_id]. rewrite (fmap_cons custom_id t table).
  destruct (decide (custom_id t = custom_id r)) as [Heq | Hne].
  - rewrite decide_True by (rewrite Heq; apply elem_of_cons; by left).
    rewrite fmap_cons. by rewrite update_session_fields_custom_id, Heq.
  - rewrite fmap_cons, IH. case_decide as Hin.
    + rewrite decide_True; [done | apply elem_of_cons; by right].
    + rewrite decide_False; [done |].
      intros [? | ?]%elem_of_cons; [congruence | done].
Qed.

Lemma upsert_by_custom_id_find fields r table k :
  find_row k (upsert_by_custom_id fields r table) = upsert_row k (find_row k table) (fields, r).
Proof.
  unfold upsert_row. cbn [fst snd].
  induction table as [| t table IH]; cbn [upsert_by_custom_id find_row].
  - reflexivity.
  - destruct (decide (custom_id t = custom_id r)) as [Heq | Hne]; cbn [find_row].
    + rewrite update_session_fields_custom_id by done.
      destruct (decide (custom_id r = k)) as [Hk | Hk].
      * rewrite decide_True by congruence. done.
      * rewrite decide_False by congruence. done.
    + destruct (decide (custom_id t = k)) as [Hk | Hk].
      * rewrite decide_False by congruence. done.
      * exact IH.
Qed.

Lemma upsert_by_custom_id_NoDup fields r table :
  NoDup (custom_id <$> table) → NoDup (custom_id <$> upsert_by_custom_id fields r table).
Proof.
  intros Hnd. rewrite upsert_by_custom_id_keys. case_decide as Hin; [done |].
  apply NoDup_app. split; [done |]. split; [| apply NoDup_singleton].
  intros x Hx [= ->]%list_elem_of_singleton. done.
Qed.

Lemma apply_upserts_cons op ops table :
  apply_upserts (op :: ops) table = apply_upserts ops (upsert_by_custom_id op.1 op.2 table).
Proof. reflexivity. Qed.

Lemma apply_upserts_find ops table k :
  find_row k (apply_upserts ops table) = foldl (upsert_row k) (find_row k table) ops.
Proof.
  revert table. induction ops as [| [fs r] ops IH]; intros table; [done |].
  rewrite apply_upserts_cons, IH. cbn [foldl fst snd]. by rewrite upsert_by_custom_id_find.
Qed.

Lemma apply_upserts_NoDup ops table :
  NoDup (custom_id <$> table) → NoDup (custom_id <$> apply_upserts ops table).
Proof.
  revert table. induction ops as [| [fs r] ops IH]; intros table Hnd; [done |].
  rewrite apply_upserts_cons. apply IH. by apply upsert_by_custom_id_NoDup.
Qed.

Lemma apply_upserts_keys ops table k :
  k ∈ custom_id <$> apply_upserts ops table
  ↔ k ∈ custom_id <$> table ∨ ∃ op, op ∈ ops ∧ custom_id op.2 = k.
Proof.
  revert table. induction ops as [| [fs r] ops IH]; intros table.
  - split; [by left |]. intros [? | (op & Hop & _)]; [done |].
    by apply elem_of_nil in Hop.
  - rewrite apply_upserts_cons, IH, upsert_by_custom_id_keys. cbn [fst snd]. split.
    + intros [Hk | (op & Hop & Hid)].
      * case_decide; [by left |].
        apply elem_of_app in Hk as [Hk | Hk%list_elem_of_singleton]; [by left |].
        right. exists (fs, r). split; [apply elem_of_cons; by left | done].
      * right. exists op. split; [apply elem_of_cons; by right | done].
    + intros [Hk | (op & Hop & Hid)].
      * left. case_decide; [done | apply elem_of_app; by left].
      * apply elem_of_cons in Hop as [-> | Hop].
        -- left. cbn [snd] in Hid. subst k. case_decide; [done |].
           apply elem_of_app. right. by apply list_elem_of_singleton.
        -- right. by exists op.
Qed.

(** Upserts of stored identifiers leave the list of identifiers as it is. *)
Lemma apply_upserts_keys_present ops table :
  (∀ op, op ∈ ops → custom_id op.2 ∈ custom_id <$> table) →
  custom_id <$> apply_upserts ops table = custom_id <$> table.
Proof.
  revert table. induction ops as [| [fs r] ops IH]; intros table Hall; [done |].
  rewrite apply_upserts_cons. cbn [fst snd].
  assert (Hk : custom_id <$> upsert_by_custom_id fs r table = custom_id <$> table).
  { rewrite upsert_by_custom_id_keys. rewrite decide_True; [done |].
    apply (Hall (fs, r)). apply elem_of_cons. by left. }
  rewrite IH; [done |]. intros op Hop. rewrite Hk. apply Hall.
  apply elem_of_cons. by right.
Qed.

Lemma find_row_None k table :
  k ∉ custom_id <$> table → find_row k table = None.
Proof.
  induction table as [| t table IH]; [done |]. rewrite fmap_cons.
  intros [Hne Hk]%not_elem_of_cons. cbn [find_row].
  rewrite decide_False by congruence. by apply IH.
Qed.

Lemma find_row_Some k table r :
  find_row k table = Some r → r ∈ table ∧ custom_id r = k.
Proof.
  induction table as [| t table IH]; [done |]. cbn [find_row].
  case_decide as Hk.
  - intros [= <-]. split; [apply elem_of_cons; by left | done].
  - intros Hr. destruct (IH Hr) as [? ?]. split; [apply elem_of_cons; by right | done].
Qed.

Lemma find_row_elem table r :
  NoDup (custom_id <$> table) → r ∈ table → find_row (custom_id r) table = Some r.
Proof.
  induction table as [| t table IH]; intros Hnd Hr; [by apply elem_of_nil in Hr |].
  rewrite fmap_cons in Hnd. apply NoDup_cons in Hnd as [Ht Hnd]. cbn [find_row].
  apply elem_of_cons in Hr as [-> | Hr]; [by rewrite decide_True |].
  rewrite decide_False; [by apply IH |].
  intros Heq. apply Ht. rewrite Heq. by apply list_elem_of_fmap_2.
Qed.

(** Two tables with the same identifiers in the same order and the same row
    under each identifier are the same table. *)
Lemma table_ext (t1 t2 : list PlayerSession) :
  NoDup (custom_id <$> t1) →
  custom_id <$> t1 = custom_id <$> t2 →
  (∀ k, find_row k t1 = find_row k t2) →
  t1 = t2.
Proof.
  revert t2. induction t1 as [| x t1 IH]; intros t2 Hnd Hkeys Hfind.
  - destruct t2; [done | discriminate].
  - destruct t2 as [| y t2]; [discriminate |].
    rewrite !fmap_cons in Hkeys. injection Hkeys as Hxy Hkeys.
    rewrite fmap_cons in Hnd. apply NoDup_cons in Hnd as [Hx Hnd].
    pose proof (Hfind (custom_id x)) as Hhead. cbn [find_row] in Hhead.
    rewrite decide_True in Hhead by done.
    rewrite decide_True in Hhead by done.
    injection Hhead as <-. f_equal. apply IH; [done | done |].
    intros k. specialize (Hfind k). cbn [find_row] in Hfind.
    destruct (decide (custom_id x = k)) as [<- | Hne]; [| done].
    rewrite !find_row_None; [done | by rewrite <- Hkeys | done].
Qed.

Lemma upsert_row_Some k x op :
  upsert_row k (Some x) op
  = Some (overwrite (if decide (custom_id op.2 = k)
                     then overwrite_of op.1 op.2 else no_overwrite) x).
Proof.
  unfold upsert_row. case_decide.
  - by rewrite update_as_overwrite.
  - by rewrite overwrite_no_overwrite.
Qed.

Lemma foldl_upsert_row_Some k ops x :
  foldl (upsert_row k) (Some x) ops = Some (overwrite (overwrite_all k ops) x).
Proof.
  revert x. induction ops as [| op ops IH]; intros x.
  - cbn [foldl overwrite_all]. by rewrite overwrite_no_overwrite.
  - cbn [foldl overwrite_all]. rewrite upsert_row_Some, IH.
    by rewrite overwrite_overwrite_then.
Qed.

Lemma foldl_upsert_row_None k ops :
  foldl (upsert_row k) None ops
  = match first_upsert k ops with
    | Some r => foldl (upsert_row k) (Some r) ops
    | None => None
    end.
Proof.
  induction ops as [| op ops IH]; [done |].
  cbn [foldl first_upsert]. unfold upsert_row at 2 4.
  destruct (decide (custom_id op.2 = k)) as [Hk | Hk].
  - by rewrite update_session_fields_self.
  - rewrite IH. by destruct (first_upsert k ops).
Qed.

Lemma foldl_upsert_row_idemp k ops o :
  foldl (upsert_row k) (foldl (upsert_row k) o ops) ops
  = foldl (upsert_row k) o ops.
Proof.
  assert (Hsome : ∀ x, foldl (upsert_row k) (foldl (upsert_row k) (Some x) ops) ops
                       = foldl (upsert_row k) (Some x) ops).
  { intros x. rewrite !foldl_upsert_row_Some. by rewrite overwrite_idemp. }
  destruct o as [x |]; [apply Hsome |].
  rewrite foldl_upsert_row_None.
  destruct (first_upsert k ops) as [r |] eqn:Hf; [apply Hsome |].
  rewrite foldl_upsert_row_None. by rewrite Hf.
Qed.

(** Replaying the same upserts changes nothing. *)
Lemma apply_upserts_idemp ops table :
  NoDup (custom_id <$> table) →
  apply_upserts ops (apply_upserts ops table) = apply_upserts ops table.
Proof.
  intros Hnd. apply table_ext.
  - by do 2 apply apply_upserts_NoDup.
  - apply apply_upserts_keys_present. intros op Hop.
    apply apply_upserts_keys. right. by exists op.
  - intros k. rewrite !apply_upserts_find. apply foldl_upsert_row_idemp.
Qed.

Lemma apply_upserts_app ops1 ops2 table :
  apply_upserts (ops1 ++ ops2) table = apply_upserts ops2 (apply_upserts ops1 table).
Proof. unfold apply_upserts. by rewrite foldl_app. Qed.

Lemma upsert_one_custom_id fields r table :
  upsert_one [F_custom_id] fields r table = upsert_by_custom_id fields r table.
Proof.
  induction table as [| t table IH]; [done |].
  cbn [upsert_one upsert_by_custom_id conflicts forallb same_on].
  rewrite andb_true_r, IH.
  destruct (decide (custom_id t = custom_id r)) as [Heq | Hne].
  - by rewrite bool_decide_eq_true_2.
  - by rewrite bool_decide_eq_false_2.
Qed.

Lemma bulk_create_as_upserts rows fields table :
  bulk_create rows [F_custom_id] fields table
  = apply_upserts ((λ s, (fields, s)) <$> rows) table.
Proof.
  unfold bulk_create, apply_upserts. revert table.
  induction rows as [| r rows IH]; intros table; [done |].
  rewrite fmap_cons. cbn [foldl fst snd]. rewrite upsert_one_custom_id. apply IH.
Qed.

(** A batch whose arguments pass the check and which the database accepts
    is applied row by row. *)
Lemma PlayerSession_bulk_create_ok E rows fields w :
  fields ≠ [] →
  bulk_create_error E rows (player_sessions w) = None →
  PlayerSession_bulk_create E rows [F_custom_id] fields w
  = mkRun (mkWorld (bot w) (guild_configs w)
                   (apply_upserts ((λ s, (fields, s)) <$> rows) (player_sessions w))
                   (uuid_calls w)) [] (inr tt).
Proof.
  intros Hfields Hdb. unfold PlayerSession_bulk_create.
  destruct fields as [| f fields]; [done |]. cbn [bulk_create_args_ok negb].
  destruct rows as [| r rows]; [by destruct w |].
  by rewrite Hdb, bulk_create_as_upserts.
Qed.

Lemma PlayerSession_bulk_create_cases E rows fields w :
  (∃ e, PlayerSession_bulk_create E rows [F_custom_id] fields w = mkRun w [] (inl e))
  ∨ PlayerSession_bulk_create E rows [F_custom_id] fields w
    = mkRun (mkWorld (bot w) (guild_configs w)
               (apply_upserts ((λ s, (fields, s)) <$> rows) (player_sessions w))
               (uuid_calls w)) [] (inr tt).
Proof.
  unfold PlayerSession_bulk_create.
  destruct fields as [| f fields]; cbn [bulk_create_args_ok negb];
    [left; by eexists |].
  destruct rows as [| r rows]; [right; by destruct w |].
  destruct (bulk_create_error E (r :: rows) (player_sessions w));
    [left; by eexists |].
  right. by rewrite bulk_create_as_upserts.
Qed.

Lemma upserts_of_app cs1 cs2 :
  upserts_of (mkPlayerlistParseFinish (cs1 ++ cs2))
  = upserts_of (mkPlayerlistParseFinish cs1)
    ++ upserts_of (mkPlayerlistParseFinish cs2).
Proof. unfold upserts_of. cbn [ppf_containers]. apply bind_app. Qed.

(** [on_playerlist_finish] applies the containers in order up to the first
    batch that fails, and ends with that batch's exception. *)
Lemma on_playerlist_finish_partial E ev w :
  ∃ done rest,
    ppf_containers ev = done ++ rest
    ∧ r_world (on_playerlist_finish E ev w)
      = mkWorld (bot w) (guild_configs w)
          (apply_upserts (upserts_of (mkPlayerlistParseFinish done))
                         (player_sessions w))
          (uuid_calls w)
    ∧ r_log (on_playerlist_finish E ev w) = []
    ∧ (r_res (on_playerlist_finish E ev w) = inr tt → rest = []).
Proof.
  unfold on_playerlist_finish. destruct ev as [cs]. cbn [ppf_containers].
  revert w. induction cs as [| c cs IH]; intros w.
  - exists [], []. cbn. split_and!; try done. by destruct w.
  - rewrite for_each_cons.
    destruct (PlayerSession_bulk_create_cases E (ctr_player_sessions c)
                (ctr_fields c) w) as [[e He] | Hok].
    + rewrite He. cbn [r_res r_world r_log].
      exists [], (c :: cs). cbn [app]. split_and!; try done.
      by destruct w.
    + rewrite Hok. cbn [r_res r_world r_log].
      set (w1 := mkWorld _ _ _ _).
      destruct (IH w1) as (done & rest & Hsplit & Hw & Hl & Hr).
      exists (c :: done), rest.
      assert (Htable : apply_upserts (upserts_of (mkPlayerlistParseFinish (c :: done)))
                         (player_sessions w)
                       = apply_upserts (upserts_of (mkPlayerlistParseFinish done))
                           (player_sessions w1)).
      { change (c :: done) with ([c] ++ done).
        rewrite upserts_of_app, apply_upserts_app. f_equal.
        unfold upserts_of. cbn [ppf_containers]. rewrite bind_cons.
        change (([] : list Container) ≫= _)
          with (@nil (list SessionField * PlayerSession)).
        by rewrite app_nil_r. }
      rewrite Htable.
      split_and!.
      * cbn [app]. by rewrite Hsplit.
      * exact Hw.
      * by rewrite Hl.
      * exact Hr.
Qed.

Lemma on_playerlist_finish_run E ev w :
  (∀ c, c ∈ ppf_containers ev → ctr_fields c ≠ []) →
  (∀ rows table, bulk_create_error E rows table = None) →
  on_playerlist_finish E ev w
  = mkRun (mkWorld (bot w) (guild_configs w)
                   (apply_upserts (upserts_of ev) (player_sessions w))
                   (uuid_calls w)) [] (inr tt).
Proof.
  intros Hfields Hdb.
  unfold on_playerlist_finish, upserts_of. destruct ev as [cs]. cbn [ppf_containers] in *.
  revert w. induction cs as [| c cs IH]; intros w.
  - by destruct w.
  - rewrite for_each_cons.
    rewrite PlayerSession_bulk_create_ok;
      [| apply Hfields, elem_of_cons; by left | apply Hdb].
    cbn [r_res r_world r_log]. rewrite IH.
    + cbn [r_world r_log r_res bot guild_configs player_sessions uuid_calls].
      by rewrite bind_cons, apply_upserts_app.
    + intros c' Hc'. apply Hfields, elem_of_cons. by right.
Qed.

Lemma foldl_upsert_row_miss k fs (l : list PlayerSession) o :
  k ∉ custom_id <$> l →
  foldl (upsert_row k) o ((λ s, (fs, s)) <$> l) = o.
Proof.
  revert o. induction l as [| s l IH]; intros o Hk; [done |].
  rewrite fmap_cons in Hk. apply not_elem_of_cons in Hk as [Hne Hk].
  rewrite fmap_cons. cbn [foldl]. unfold upsert_row at 2. cbn [snd].
  rewrite decide_False by congruence. by apply IH.
Qed.

(** Among sessions with distinct identifiers, only the session stored under
    an identifier touches its row. *)
Lemma foldl_upsert_row_untouched k (ops : list (list SessionField * PlayerSession)) o :
  (∀ op, op ∈ ops → custom_id op.2 ≠ k) →
  foldl (upsert_row k) o ops = o.
Proof.
  revert o. induction ops as [| op ops IH]; intros o Hall; [done |].
  cbn [foldl]. unfold upsert_row at 2.
  rewrite decide_False by (apply Hall, elem_of_cons; by left).
  apply IH. intros op' Hop'. apply Hall, elem_of_cons. by right.
Qed.

Lemma foldl_upsert_row_single fs (l : list PlayerSession) s o :
  NoDup (custom_id <$> l) → s ∈ l →
  foldl (upsert_row (custom_id s)) o ((λ s, (fs, s)) <$> l)
  = upsert_row (custom_id s) o (fs, s).
Proof.
  revert o. induction l as [| s0 l IH]; intros o Hnd Hs.
  { by apply elem_of_nil in Hs. }
  rewrite fmap_cons in Hnd. apply NoDup_cons in Hnd as [Hs0 Hnd].
  rewrite fmap_cons. cbn [foldl]. apply elem_of_cons in Hs as [<- | Hs].
  - by apply foldl_upsert_row_miss.
  - unfold upsert_row at 2. cbn [snd].
    rewrite decide_False; [by apply IH |].
    intros Heq. apply Hs0. rewrite Heq. by apply list_elem_of_fmap_2.
Qed.

(** ** The dispatch loops *)

Lemma config_rows_elem g table c :
  c ∈ config_rows g table → guild_id c = g.
Proof. unfold config_rows. rewrite list_elem_of_filter. by intros [? _]. Qed.

Lemma config_rows_save g k c table :
  guild_id c = k → k ≠ g →
  config_rows g ((λ r, if decide (guild_id r = k) then c else r) <$> table)
  = config_rows g table.
Proof.
  intros Hk Hne. unfold config_rows. induction table as [| r table IH]; [done |].
  rewrite fmap_cons. destruct (decide (guild_id r = k)) as [Heq | Hneq].
  - rewrite !filter_cons_False by congruence. exact IH.
  - destruct (decide (guild_id r = g)) as [Hg | Hg].
    + rewrite !filter_cons_True by done. by rewrite IH.
    + rewrite !filter_cons_False by done. exact IH.
Qed.

Lemma delivery_run E c (m : Message) w :
  let r := try_except
             (chan <- call_fetch_playerlist_channel E c ;;
              call_send E c chan m)
             (delivery_handler c) w in
  r_world r = w
  ∧ r_log r = (delivery E c (λ _, []) (λ _, m)).1
  ∧ r_res r = (delivery E c (λ _, []) (λ _, m)).2.
Proof.
  unfold try_except, bind, call_fetch_playerlist_channel, call_send,
    emit, lift_res, delivery. cbn [r_res r_world r_log].
  destruct (fetch_playerlist_channel E c) as [e | chan]; cbn.
  - destruct e; cbn; done.
  - destruct (chan_send E chan m) as [e |]; cbn; [| done].
    destruct e; cbn; done.
Qed.

Lemma live_send_one_run E realm embed g w :
  let r := live_send_one E realm embed g w in
  r_log r = (live_dest_of E embed w g).1
  ∧ r_res r = (live_dest_of E embed w g).2
  ∧ ∀ g', g' ≠ g →
      config_rows g' (guild_configs (r_world r)) = config_rows g' (guild_configs w).
Proof.
  unfold live_send_one, live_dest_of, bind, GuildConfig_get.
  destruct (config_rows g (guild_configs w)) as [| c [| c' rows]] eqn:Hrows;
    cbn [r_res r_world r_log]; [done | | done].
  assert (Hg : guild_id c = g).
  { apply (config_rows_elem g (guild_configs w)). rewrite Hrows.
    apply elem_of_cons. by left. }
  unfold live_dest. rewrite Hg.
  destruct (negb (truthy_obj (premium_code c))); [done |].
  destruct (negb (truthy_id (playerlist_chan c))).
  { unfold live_store_discard, live_store_getitem, bind, modify_bot, config_save.
    destruct (defaultdict_set_getitem _ realm) as [s d].
    cbn. repeat split. intros g' Hne. apply config_rows_save; [done | congruence]. }
  destruct (negb (get_guild E g)); [done |].
  destruct (delivery_run E c (mkMessage None embed) w) as (Hw & Hl & Hr).
  cbn zeta in Hw, Hl, Hr. unfold bind in Hw, Hl, Hr. rewrite Hw, Hl, Hr. done.
Qed.

Lemma list_bind_ext_in {A B : Type} (f g : A → list B) (l : list A) :
  (∀ x, x ∈ l → f x = g x) → l ≫= f = l ≫= g.
Proof.
  induction l as [| x l IH]; intros Hfg; [done |].
  rewrite !bind_cons. rewrite (Hfg x) by (apply elem_of_cons; by left).
  rewrite IH; [done |]. intros y Hy. apply Hfg. apply elem_of_cons. by right.
Qed.

(** The loop of [on_live_playerlist_send] over distinct subscribers: it ends
    normally exactly when every turn does, and its trace is then the turns'
    traces in order, each determined by the subscriber's row before the
    loop. *)
Lemma live_dispatch_loop_run E realm embed dests w :
  NoDup dests →
  let r := live_dispatch_loop E realm embed dests w in
  (r_res r = inr tt ↔ ∀ g, g ∈ dests → (live_dest_of E embed w g).2 = inr tt)
  ∧ (r_res r = inr tt → r_log r = dests ≫= λ g, (live_dest_of E embed w g).1).
Proof.
  unfold live_dispatch_loop. revert w.
  induction dests as [| g dests IH]; intros w Hnd.
  { cbn. split; [| done]. split; [| done]. intros _ g Hg. by apply elem_of_nil in Hg. }
  apply NoDup_cons in Hnd as [Hg Hnd]. cbv zeta. rewrite for_each_cons.
  destruct (live_send_one_run E realm embed g w) as (Hl & Hr & Hframe).
  set (w' := r_world (live_send_one E realm embed g w)) in *.
  assert (Hsame : ∀ g', g' ∈ dests →
            live_dest_of E embed w' g' = live_dest_of E embed w g').
  { intros g' Hg'. unfold live_dest_of. rewrite Hframe; [done |].
    intros ->. done. }
  specialize (IH w' Hnd). cbv zeta in IH. destruct IH as [IHres IHlog].
  rewrite Hr, Hl.
  destruct ((live_dest_of E embed w g).2) as [e | []] eqn:Hres; cbn [r_res r_log].
  - split; [| done]. split; [done |]. intros Hall.
    specialize (Hall g). rewrite Hres in Hall. apply Hall. apply elem_of_cons. by left.
  - split.
    + rewrite IHres. split.
      * intros Hall g' [-> | Hg']%elem_of_cons; [done |].
        rewrite <- Hsame by done. by apply Hall.
      * intros Hall g' Hg'. rewrite Hsame by done. apply Hall.
        apply elem_of_cons. by right.
    + intros Hok. rewrite (IHlog Hok), bind_cons. f_equal.
      apply list_bind_ext_in. intros g' Hg'. by rewrite Hsame.
Qed.

Lemma realm_down_one_run E ts c w :
  realm_down_one E ts c w = mkRun w (down_dest E ts c).1 (down_dest E ts c).2.
Proof.
  unfold realm_down_one, down_dest.
  destruct (negb (truthy_id (playerlist_chan c))
            || negb (truthy_id (realm_offline_role c))); [done |].
  destruct (negb (get_guild E (guild_id c))); [done |].
  unfold bind at 1, call_fetch_role, bind at 1, emit, lift_res. cbn [r_res r_world r_log].
  destruct (fetch_role E (guild_id c) (default 0 (realm_offline_role c)))
    as [e | role]; cbn [r_res r_world r_log raise ret]; [done |].
  unfold try_except, bind, call_fetch_playerlist_channel, call_send,
    call_eventually_invalidate_realm_offline, emit, lift_res, delivery,
    realm_down_message. cbn [r_res r_world r_log].
  destruct (fetch_playerlist_channel E c) as [e | chan]; cbn.
  - destruct e; cbn; done.
  - destruct (cannot_ping E (guild_id c) chan role); cbn.
    + destruct (chan_send E chan _) as [e |]; cbn; [| done].
      destruct e; cbn; done.
    + destruct (chan_send E chan _) as [e |]; cbn; [| done].
      destruct e; cbn; done.
Qed.

(** A loop whose turns leave the state alone. *)
Lemma for_each_pure {A : Type} (body : A → M unit)
    (d : A → list Action * (exn + unit)) (l : list A) (w : World) :
  (∀ x w', body x w' = mkRun w' (d x).1 (d x).2) →
  let r := for_each body l w in
  r_world r = w
  ∧ (r_res r = inr tt ↔ ∀ x, x ∈ l → (d x).2 = inr tt)
  ∧ (r_res r = inr tt → r_log r = l ≫= λ x, (d x).1).
Proof.
  intros Hbody. induction l as [| x l IH].
  { cbn. repeat split; try done. intros _ x Hx. by apply elem_of_nil in Hx. }
  cbv zeta in *. rewrite for_each_cons, Hbody. cbn [r_res r_world r_log].
  destruct IH as (IHw & IHres & IHlog).
  destruct ((d x).2) as [e | []] eqn:Hres; cbn [r_res r_world r_log].
  - split; [done |]. split; [| done]. split; [done |]. intros Hall.
    specialize (Hall x). rewrite Hres in Hall. apply Hall. apply elem_of_cons. by left.
  - split; [done |]. split.
    + rewrite IHres. split.
      * intros Hall y [-> | Hy]%elem_of_cons; [done | by apply Hall].
      * intros Hall y Hy. apply Hall. apply elem_of_cons. by right.
    + intros Hok. by rewrite (IHlog Hok), bind_cons.
Qed.

Lemma for_each_pure_elem {A : Type} (body : A → M unit)
    (d : A → list Action * (exn + unit)) (l : list A) (w : World) (a : Action) :
  (∀ x w', body x w' = mkRun w' (d x).1 (d x).2) →
  a ∈ r_log (for_each body l w) → ∃ x, x ∈ l ∧ a ∈ (d x).1.
Proof.
  intros Hbody. induction l as [| x l IH].
  { intros Ha. by apply elem_of_nil in Ha. }
  rewrite for_each_cons, Hbody. cbn [r_res r_world r_log].
  destruct ((d x).2) as [e | []]; cbn [r_res r_world r_log].
  - intros Ha. exists x. split; [apply elem_of_cons; by left | done].
  - intros [Ha | Ha]%elem_of_app.
    + exists x. split; [apply elem_of_cons; by left | done].
    + destruct (IH Ha) as (y & Hy & Hay). exists y.
      split; [apply elem_of_cons; by right | done].
Qed.

Lemma delivery_no_dispatch E c before m a ev :
  (∀ chan, ADispatch ev ∉ before chan) →
  a ∈ (delivery E c before m).1 → a ≠ ADispatch ev.
Proof.
  intros Hbefore. unfold delivery.
  destruct (fetch_playerlist_channel E c) as [e | chan]; cbn.
  - intros [-> | Ha]%elem_of_cons; [done |]. destruct e; cbn in Ha;
      try (by apply elem_of_nil in Ha).
    apply list_elem_of_singleton in Ha as ->. done.
  - assert (Hlog : ∀ e, a ∈ delivery_handler_log c e → a ≠ ADispatch ev).
    { intros e Ha. destruct e; cbn in Ha; try (by apply elem_of_nil in Ha).
      apply list_elem_of_singleton in Ha as ->. done. }
    destruct (chan_send E chan (m chan)) as [e |]; cbn.
    + intros [-> | Ha]%elem_of_cons; [done |].
      apply elem_of_app in Ha as [Ha | Ha]; [intros ->; by apply (Hbefore chan) |].
      apply elem_of_cons in Ha as [-> | Ha]; [done | by apply (Hlog e)].
    + intros [-> | Ha]%elem_of_cons; [done |].
      apply elem_of_app in Ha as [Ha | Ha]; [intros ->; by apply (Hbefore chan) |].
      apply list_elem_of_singleton in Ha as ->. done.
Qed.

Lemma down_dest_no_dispatch E ts c a ev :
  a ∈ (down_dest E ts c).1 → a ≠ ADispatch ev.
Proof.
  unfold down_dest.
  destruct (negb (truthy_id (playerlist_chan c))
            || negb (truthy_id (realm_offline_role c)));
    [intros Ha; by apply elem_of_nil in Ha |].
  destruct (negb (get_guild E (guild_id c)));
    [intros Ha; by apply elem_of_nil in Ha |].
  cbv zeta.
  destruct (fetch_role E (guild_id c) (default 0 (realm_offline_role c)))
    as [e | role]; cbn [fst snd].
  - intros Ha. apply list_elem_of_singleton in Ha as ->. done.
  - intros [-> | Ha]%elem_of_cons; [done |].
    eapply delivery_no_dispatch; [| exact Ha].
    intros chan. cbv beta. destruct (cannot_ping E (guild_id c) chan role).
    + intros Hd. by apply list_elem_of_singleton in Hd.
    + apply not_elem_of_nil.
Qed.

(** [realm_down]: the dispatch, when the realm has live subscribers, comes
    before the loop over the configurations. *)
Lemma realm_down_run E ev w :
  let w' := r_world (live_store_getitem (rd_realm_id ev) w) in
  let loop := for_each (realm_down_one E (rd_timestamp ev)) (rd_configs ev) w' in
  realm_down E ev w
  = mkRun (r_world loop)
      ((if decide (live_playerlist_store (bot w) !!! rd_realm_id ev = ∅) then []
        else [ADispatch (mkLivePlayerlistSend (rd_realm_id ev) ∅
                           (rd_disconnected ev) (rd_timestamp ev))])
       ++ r_log loop)
      (r_res loop).
Proof.
  unfold realm_down, bind, live_store_getitem.
  pose proof (defaultdict_set_getitem_fst (live_playerlist_store (bot w))
                (rd_realm_id ev)) as Hs.
  destruct (defaultdict_set_getitem (live_playerlist_store (bot w)) (rd_realm_id ev))
    as [s d]. cbn [fst] in Hs. subst s. cbn [r_res r_world r_log].
  destruct (decide (live_playerlist_store (bot w) !!! rd_realm_id ev = ∅));
    cbn [r_res r_world r_log ret emit app]; done.
Qed.

(** The row [on_live_playerlist_send] builds for a participant of the event,
    and the absence of a row for anyone else. *)
Lemma live_sessions_row E ev w p :
  p ∈ lps_joined ev ∪ lps_left ev →
  ∃ cid,
    filter (λ r, xuid r = p) (live_player_sessions E ev w).1
    = [mkPlayerSession cid (lps_realm_id ev) p (bool_decide (p ∈ lps_joined ev))
         (lps_timestamp ev)]
    ∧ uuid_cache (bot (live_player_sessions E ev w).2)
        !! realm_xuid_key (lps_realm_id ev) p = Some cid.
Proof.
  intros Hin. unfold live_player_sessions.
  set (ps := elements (lps_joined ev ∪ lps_left ev)).
  pose proof (build_sessions_xuid E ev ps w) as Hx.
  assert (Hnd : NoDup (xuid <$> (build_sessions E ev ps w).1)).
  { rewrite Hx. apply NoDup_elements. }
  assert (Hp : p ∈ xuid <$> (build_sessions E ev ps w).1).
  { rewrite Hx. unfold ps. by apply elem_of_elements. }
  apply list_elem_of_fmap in Hp as (r & -> & Hr).
  destruct (build_sessions_row E ev ps w r Hr) as [Heq Hc].
  exists (custom_id r). split; [| done].
  rewrite (filter_key_singleton xuid r); [| done | done].
  by rewrite <- Heq.
Qed.

Lemma live_sessions_no_row E ev w p :
  p ∉ lps_joined ev ∪ lps_left ev →
  filter (λ r, xuid r = p) (live_player_sessions E ev w).1 = [].
Proof.
  intros Hin. unfold live_player_sessions. apply filter_key_nil.
  rewrite build_sessions_xuid. by rewrite elem_of_elements.
Qed.

(** ** [warning_missing_playerlist] *)

Lemma for_collect_cons {A B : Type} (body : A → M B) x xs w :
  for_collect body (x :: xs) w
  = match r_res (body x w) with
    | inl e => mkRun (r_world (body x w)) (r_log (body x w)) (inl e)
    | inr b =>
        let r' := for_collect body xs (r_world (body x w)) in
        match r_res r' with
        | inl e => mkRun (r_world r') (r_log (body x w) ++ r_log r') (inl e)
        | inr bs => mkRun (r_world r') (r_log (body x w) ++ r_log r' ++ [])
                          (inr (b :: bs))
        end
    end.
Proof.
  cbn [for_collect]. unfold bind.
  destruct (r_res (body x w)); [done |]. cbn [r_res r_world r_log].
  destruct (r_res (for_collect body xs _)); done.
Qed.

Lemma warn_one_run E c w :
  let r := warn_one E c w in
  r_log r = (warn_dest E (own_gamertag (bot w)) c).1
  ∧ r_res r = (warn_dest E (own_gamertag (bot w)) c).2
  ∧ own_gamertag (bot (r_world r)) = own_gamertag (bot w)
  ∧ fetch_devices_for (bot (r_world r)) = fetch_devices_for (bot w).
Proof.
  unfold warn_one, warn_dest.
  destruct (negb (truthy_id (playerlist_chan c))).
  { unfold bind, config_save, live_store_discard, live_store_getitem, bind, modify_bot.
    destruct (truthy_str (cfg_realm_id c) && live_playerlist c); [| done].
    by destruct (defaultdict_set_getitem _ _). }
  destruct (negb (warning_notifications c)); [done |].
  destruct (negb (get_guild E (guild_id c))); [done |].
  unfold bind, try_except, suppress_HTTPException, try_except,
    call_eventually_invalidate, call_fetch_playerlist_channel, call_send, bind,
    emit, lift_res, get_world, warning_message.
  cbn [r_res r_world r_log].
  destruct (fetch_playerlist_channel E c) as [e | chan]; cbn.
  - destruct e; cbn; done.
  - destruct (chan_send E chan _) as [e |]; cbn; [| done].
    destruct e; cbn; done.
Qed.

Lemma warn_dest_flag E gamertag c b :
  (warn_dest E gamertag c).2 = inr b → b = negb (truthy_id (playerlist_chan c)).
Proof.
  unfold warn_dest. destruct (truthy_id (playerlist_chan c)); cbn; [| congruence].
  destruct (negb (warning_notifications c)); cbn; [congruence |].
  destruct (negb (get_guild E (guild_id c))); cbn; [congruence |].
  destruct (fetch_playerlist_channel E c) as [e | chan]; cbn.
  - destruct e; congruence.
  - destruct (chan_send E chan _) as [e |]; [destruct e |]; congruence.
Qed.

Lemma warn_dest_raise E gamertag c e :
  (warn_dest E gamertag c).2 = inl e → truthy_id (playerlist_chan c) = true.
Proof.
  unfold warn_dest. destruct (truthy_id (playerlist_chan c)); cbn; [done | congruence].
Qed.

Lemma warn_loop_run E configs w :
  let r := for_collect (warn_one E) configs w in
  let gamertag := own_gamertag (bot w) in
  own_gamertag (bot (r_world r)) = gamertag
  ∧ fetch_devices_for (bot (r_world r)) = fetch_devices_for (bot w)
  ∧ (∀ a, a ∈ r_log r → ∃ c, c ∈ configs ∧ a ∈ (warn_dest E gamertag c).1)
  ∧ (∀ flags, r_res r = inr flags →
       flags = (λ c, negb (truthy_id (playerlist_chan c))) <$> configs
       ∧ r_log r = configs ≫= λ c, (warn_dest E gamertag c).1)
  ∧ ((∀ c, c ∈ configs → ∃ b, (warn_dest E gamertag c).2 = inr b) →
     ∃ flags, r_res r = inr flags)
  ∧ (∀ e, r_res r = inl e →
       ∃ c, c ∈ configs ∧ truthy_id (playerlist_chan c) = true).
Proof.
  revert w. induction configs as [| c configs IH]; intros w.
  { cbn. split_and!; try done.
    - intros a Ha. by apply elem_of_nil in Ha.
    - by intros flags [= <-].
    - intros _. by exists []. }
  cbv zeta. rewrite for_collect_cons.
  destruct (warn_one_run E c w) as (Hl & Hr & Hg & Hf).
  set (w' := r_world (warn_one E c w)) in *.
  specialize (IH w'). cbv zeta in IH. rewrite Hg, Hf in IH.
  destruct IH as (IHg & IHf & IHin & IHok & IHtot & IHerr).
  rewrite Hr, Hl.
  destruct ((warn_dest E (own_gamertag (bot w)) c).2) as [e | b] eqn:Hres;
    cbn [r_res r_world r_log].
  - split_and!; try done.
    + intros a Ha. exists c. split; [apply elem_of_cons; by left | done].
    + intros Hall. destruct (Hall c) as [b Hb]; [apply elem_of_cons; by left |].
      rewrite Hres in Hb. done.
    + intros e' _. exists c. split; [apply elem_of_cons; by left |].
      by apply warn_dest_raise in Hres.
  - destruct (r_res (for_collect (warn_one E) configs w')) as [e | flags] eqn:Hrest;
      cbn [r_res r_world r_log].
    + split_and!; try done.
      * intros a [Ha | Ha]%elem_of_app.
        -- exists c. split; [apply elem_of_cons; by left | done].
        -- destruct (IHin a Ha) as (c' & Hc' & Hac'). exists c'.
           split; [apply elem_of_cons; by right | done].
      * intros Hall. destruct IHtot as [flags' Hflags]; [| done].
        intros c' Hc'. apply Hall. apply elem_of_cons. by right.
      * intros e' _. destruct (IHerr e eq_refl) as (c' & Hc' & Hchan).
        exists c'. split; [apply elem_of_cons; by right | done].
    + destruct (IHok flags eq_refl) as [Hflags Hlog].
      split_and!; try done.
      * intros a [Ha | Ha]%elem_of_app.
        -- exists c. split; [apply elem_of_cons; by left | done].
        -- rewrite app_nil_r in Ha. destruct (IHin a Ha) as (c' & Hc' & Hac').
           exists c'. split; [apply elem_of_cons; by right | done].
      * intros flags' [= <-]. split.
        -- rewrite fmap_cons. f_equal; [| done]. by apply warn_dest_flag in Hres.
        -- by rewrite app_nil_r, Hlog, bind_cons.
      * intros _. by eexists.
Qed.

Lemma drop_realm_run E realm w :
  drop_realm E realm w
  = mkRun (set_bot (set_fetch_devices_for (fetch_devices_for (bot w) ∖ {[realm]})
                      (bot w)) w)
          (leave_log E realm) (leave_res E realm).
Proof.
  unfold drop_realm, leave_log, leave_res, bind, try_except, call_leave_realm,
    discard_fetch_devices_for, modify_bot, bind, emit.
  cbn [r_res r_world r_log].
  destruct (leave_realm E realm) as [e |]; cbn; [| done].
  destruct e; cbn; try done.
  by destruct (Z.eqb status 404).
Qed.

Lemma warning_missing_playerlist_run E ev w :
  let loop := for_collect (warn_one E) (wmp_configs ev) w in
  warning_missing_playerlist E ev w
  = match r_res loop with
    | inl e => mkRun (r_world loop) (r_log loop) (inl e)
    | inr flags =>
        if should_drop flags
        then mkRun (set_bot (set_fetch_devices_for
                               (fetch_devices_for (bot (r_world loop))
                                  ∖ {[wmp_realm_id ev]})
                               (bot (r_world loop))) (r_world loop))
                   (r_log loop ++ leave_log E (wmp_realm_id ev))
                   (leave_res E (wmp_realm_id ev))
        else mkRun (r_world loop) (r_log loop ++ []) (inr tt)
    end.
Proof.
  unfold warning_missing_playerlist, bind. cbv zeta.
  destruct (r_res (for_collect (warn_one E) (wmp_configs ev) w)) as [e | flags];
    [done |].
  destruct (should_drop flags); [| done].
  by rewrite drop_realm_run.
Qed.

Lemma should_drop_flags (configs : list GuildConfig) :
  should_drop ((λ c, negb (truthy_id (playerlist_chan c))) <$> configs) = true
  ↔ ∀ c, c ∈ configs → truthy_id (playerlist_chan c) = false.
Proof.
  unfold should_drop. split.
  - intros Hd c Hc. apply orb_prop in Hd as [Hall | Hnil].
    + rewrite forallb_forall in Hall.
      specialize (Hall (negb (truthy_id (playerlist_chan c)))).
      apply negb_true_iff, Hall, list_elem_of_In.
      by apply (list_elem_of_fmap_2 (λ c, negb (truthy_id (playerlist_chan c)))).
    + destruct configs; [by apply elem_of_nil in Hc | done].
  - intros Hall. apply orb_true_intro. left. apply forallb_forall.
    intros b Hb. apply list_elem_of_In, list_elem_of_fmap in Hb as (c & -> & Hc).
    apply negb_true_iff. by apply Hall.
Qed.

Lemma warn_dest_no_leave E gamertag c a realm :
  a ∈ (warn_dest E gamertag c).1 → a ≠ ALeaveRealm realm.
Proof.
  unfold warn_dest.
  destruct (negb (truthy_id (playerlist_chan c)));
    [intros Ha; by apply elem_of_nil in Ha |].
  destruct (negb (warning_notifications c));
    [intros Ha; by apply elem_of_nil in Ha |].
  destruct (negb (get_guild E (guild_id c)));
    [intros Ha; by apply elem_of_nil in Ha |].
  destruct (fetch_playerlist_channel E c) as [e | chan]; cbn [fst];
    intros Ha ->;
    repeat (apply elem_of_cons in Ha as [Ha | Ha]; [discriminate |]);
    by apply elem_of_nil in Ha.
Qed.

Lemma warn_dest_config E gamertag c a :
  a ∈ (warn_dest E gamertag c).1 →
  action_config a = Some c
  ∧ truthy_id (playerlist_chan c) = true
  ∧ warning_notifications c = true
  ∧ get_guild E (guild_id c) = true
  ∧ ∀ c' limit, a = AEventuallyInvalidate c' limit → limit = Some 7.
Proof.
  unfold warn_dest.
  destruct (truthy_id (playerlist_chan c)); cbn [negb];
    [| intros Ha; by apply elem_of_nil in Ha].
  destruct (warning_notifications c); cbn [negb];
    [| intros Ha; by apply elem_of_nil in Ha].
  destruct (get_guild E (guild_id c)); cbn [negb];
    [| intros Ha; by apply elem_of_nil in Ha].
  destruct (fetch_playerlist_channel E c) as [e | chan]; cbn [fst];
    intros Ha;
    repeat (apply elem_of_cons in Ha as [-> | Ha];
            [split_and!; try done; congruence |]);
    by apply elem_of_nil in Ha.
Qed.

Lemma warn_dest_total E gamertag c :
  (∀ c e, fetch_playerlist_channel E c = inl e → e = ValueError) →
  (∀ chan m e, chan_send E chan m = Some e → e = HTTPException) →
  ∃ b, (warn_dest E gamertag c).2 = inr b.
Proof.
  intros Hfetch Hsend. unfold warn_dest.
  destruct (negb (truthy_id (playerlist_chan c))); [by eexists |].
  destruct (negb (warning_notifications c)); [by eexists |].
  destruct (negb (get_guild E (guild_id c))); [by eexists |].
  destruct (fetch_playerlist_channel E c) as [e | chan] eqn:Hf; cbn [snd].
  - rewrite (Hfetch c e Hf). by eexists.
  - destruct (chan_send E chan _) as [e |] eqn:Hs; [| by eexists].
    rewrite (Hsend _ _ e Hs). by eexists.
Qed.

(** ** Delivery failures *)

Lemma delivery_ok E c before m :
  (∀ c e, fetch_playerlist_channel E c = inl e → e = ValueError ∨ e = HTTPException) →
  (∀ chan m e, chan_send E chan m = Some e → e = ValueError ∨ e = HTTPException) →
  (delivery E c before m).2 = inr tt.
Proof.
  intros Hfetch Hsend. unfold delivery.
  destruct (fetch_playerlist_channel E c) as [e | chan] eqn:Hf; cbn [snd].
  - by destruct (Hfetch c e Hf) as [-> | ->].
  - destruct (chan_send E chan (m chan)) as [e |] eqn:Hs; cbn [snd]; [| done].
    by destruct (Hsend _ _ e Hs) as [-> | ->].
Qed.

(** What the trace of a delivery holds: the invalidation call after an
    [HTTPException], and the send once the channel has been fetched. *)
Lemma delivery_log E c before m :
  (fetch_playerlist_channel E c = inl HTTPException →
     AEventuallyInvalidate c None ∈ (delivery E c before m).1)
  ∧ (∀ chan, fetch_playerlist_channel E c = inr chan →
       ASend c chan (m chan) ∈ (delivery E c before m).1
       ∧ (chan_send E chan (m chan) = Some HTTPException →
            AEventuallyInvalidate c None ∈ (delivery E c before m).1)).
Proof.
  unfold delivery. split.
  - intros ->. cbn. apply elem_of_cons. right. apply elem_of_cons. by left.
  - intros chan ->. destruct (chan_send E chan (m chan)) as [e |] eqn:Hs; cbn [fst].
    + split.
      * apply elem_of_app. right. apply elem_of_cons. by left.
      * intros [= ->]. apply elem_of_app. right. cbn.
        apply elem_of_cons. right. apply elem_of_cons. by left.
    + split; [| done]. apply elem_of_app. right. apply elem_of_cons. by left.
Qed.

Lemma delivery_guild E c before m a :
  (∀ chan b, b ∈ before chan → action_guild b = Some (guild_id c)) →
  a ∈ (delivery E c before m).1 → action_guild a = Some (guild_id c).
Proof.
  intros Hbefore. unfold delivery.
  assert (Hlog : ∀ e, a ∈ delivery_handler_log c e → action_guild a = Some (guild_id c)).
  { intros e Ha. destruct e; cbn in Ha; try (by apply elem_of_nil in Ha).
    by apply list_elem_of_singleton in Ha as ->. }
  destruct (fetch_playerlist_channel E c) as [e | chan]; cbn [fst].
  - intros [-> | Ha]%elem_of_cons; [done | by apply (Hlog e)].
  - destruct (chan_send E chan (m chan)) as [e |]; cbn [fst].
    + intros [-> | Ha]%elem_of_cons; [done |].
      apply elem_of_app in Ha as [Ha | Ha]; [by apply (Hbefore chan) |].
      apply elem_of_cons in Ha as [-> | Ha]; [done | by apply (Hlog e)].
    + intros [-> | Ha]%elem_of_cons; [done |].
      apply elem_of_app in Ha as [Ha | Ha]; [by apply (Hbefore chan) |].
      by apply list_elem_of_singleton in Ha as ->.
Qed.

Lemma live_dest_of_guild E embed w g a :
  a ∈ (live_dest_of E embed w g).1 → action_guild a = Some g.
Proof.
  unfold live_dest_of.
  destruct (config_rows g (guild_configs w)) as [| c [| c' rows]] eqn:Hrows;
    cbn [fst]; try (intros Ha; by apply elem_of_nil in Ha).
  assert (Hg : guild_id c = g).
  { apply (config_rows_elem g (guild_configs w)). rewrite Hrows.
    apply elem_of_cons. by left. }
  unfold live_dest.
  destruct (negb (truthy_obj (premium_code c))); cbn [fst].
  { intros Ha. apply list_elem_of_singleton in Ha as ->. cbn. by rewrite Hg. }
  destruct (negb (truthy_id (playerlist_chan c)));
    [intros Ha; by apply elem_of_nil in Ha |].
  destruct (negb (get_guild E (guild_id c)));
    [intros Ha; by apply elem_of_nil in Ha |].
  intros Ha. rewrite <- Hg. eapply delivery_guild; [| exact Ha].
  intros chan b Hb. by apply elem_of_nil in Hb.
Qed.

Lemma filter_guild_none (l : list Action) g :
  (∀ a, a ∈ l → action_guild a ≠ Some g) →
  filter (λ a, action_guild a = Some g) l = [].
Proof.
  induction l as [| a l IH]; intros Hall; [done |].
  rewrite filter_cons_False by (apply Hall, elem_of_cons; by left).
  apply IH. intros b Hb. apply Hall, elem_of_cons. by right.
Qed.

Lemma filter_guild_all (l : list Action) g :
  (∀ a, a ∈ l → action_guild a = Some g) →
  filter (λ a, action_guild a = Some g) l = l.
Proof.
  induction l as [| a l IH]; intros Hall; [done |].
  rewrite filter_cons_True by (apply Hall, elem_of_cons; by left).
  f_equal. apply IH. intros b Hb. apply Hall, elem_of_cons. by right.
Qed.

(** In a trace made of the turns of distinct guilds, the calls about one
    guild are those of its turn. *)
Lemma filter_guild_bind (f : Z → list Action) (l : list Z) g :
  NoDup l → g ∈ l →
  (∀ g' a, a ∈ f g' → action_guild a = Some g') →
  filter (λ a, action_guild a = Some g) (l ≫= f) = f g.
Proof.
  intros Hnd Hg Hf. induction l as [| x l IH]; [by apply elem_of_nil in Hg |].
  apply NoDup_cons in Hnd as [Hx Hnd]. rewrite bind_cons, filter_app.
  apply elem_of_cons in Hg as [<- | Hg].
  - rewrite filter_guild_all by (intros a Ha; by apply Hf).
    rewrite filter_guild_none; [by rewrite app_nil_r |].
    intros a Ha. apply list_elem_of_bind in Ha as (g' & Ha & Hg').
    rewrite (Hf g' a Ha). intros [= ->]. done.
  - rewrite filter_guild_none; [by apply IH |].
    intros a Ha. rewrite (Hf x a Ha). intros [= ->]. done.
Qed.

(** C1. For a live-update event whose sets [joined] and [left] are disjoint,
    the session list the dispatcher builds holds exactly one row for each
    participant of [joined ∪ left]: online for a participant of [joined],
    offline for a participant of [left], with the event's realm and
    timestamp as [realm_id] and [last_seen] and the identity map's value for
    the pair as [custom_id]; it holds no row for a participant in neither
    set. *)
Theorem live_sessions_one_row_per_participant (E : Env)
    (ev : LivePlayerlistSend) (w : World) (p : string) :
  lps_joined ev ## lps_left ev →
  let rows := (live_player_sessions E ev w).1 in
  let cache := uuid_cache (bot (live_player_sessions E ev w).2) in
  let row_of (on : bool) (cid : Z) :=
    mkPlayerSession cid (lps_realm_id ev) p on (lps_timestamp ev) in
  (p ∈ lps_joined ev →
     ∃ cid, filter (λ r, xuid r = p) rows = [row_of true cid]
            ∧ cache !! realm_xuid_key (lps_realm_id ev) p = Some cid)
  ∧ (p ∈ lps_left ev →
     ∃ cid, filter (λ r, xuid r = p) rows = [row_of false cid]
            ∧ cache !! realm_xuid_key (lps_realm_id ev) p = Some cid)
  ∧ (p ∉ lps_joined ev → p ∉ lps_left ev → filter (λ r, xuid r = p) rows = []).
Proof.
  intros Hdisj. cbv zeta. split; [| split].
  - intros Hj.
    destruct (live_sessions_row E ev w p) as (cid & Hrow & Hc).
    { apply elem_of_union. by left. }
    exists cid. rewrite bool_decide_eq_true_2 in Hrow by done. done.
  - intros Hl.
    destruct (live_sessions_row E ev w p) as (cid & Hrow & Hc).
    { apply elem_of_union. by right. }
    exists cid. rewrite bool_decide_eq_false_2 in Hrow; [done |].
    intros Hj. by apply (Hdisj p).
  - intros Hj Hl. apply live_sessions_no_row.
    rewrite elem_of_union. tauto.
Qed.

Lemma live_sessions_one_row_per_participant_witness :
  ({[ "C" ]} : gset string) ## {[ "A" ]}
  ∧ (∃ cid, filter (λ r, xuid r = "A")
              (live_player_sessions demo_env demo_live_event demo_world).1
            = [mkPlayerSession cid "1" "A" false 42]
            ∧ uuid_cache
                (bot (live_player_sessions demo_env demo_live_event demo_world).2)
                !! realm_xuid_key "1" "A" = Some cid).
Proof.
  assert (Hd : ({[ "C" ]} : gset string) ## {[ "A" ]}).
  { apply disjoint_singleton_l, not_elem_of_singleton. discriminate. }
  split; [exact Hd |].
  apply (live_sessions_one_row_per_participant demo_env demo_live_event
           demo_world "A" Hd).
  change ("A" ∈ ({[ "A" ]} : gset string)).
  apply elem_of_singleton_2. reflexivity.
Defined.

(** C2. [start], run at time [utcnow] with an empty online cache: every
    stored session row that is online with [last_seen] more than five minutes
    before [utcnow] is stored offline, every other row is kept as it is; the
    online cache then holds a participant only for a row that is online and
    was seen within the five minutes, and, when [start] gets through, holds
    every such row's participant; [start] gets through when each [int] it
    evaluates succeeds. *)
Theorem start_marks_stale_offline_and_seeds_fresh (E : Env) (utcnow : Z) (w : World) :
  online_cache (bot w) = ∅ →
  let r := start E utcnow w in
  let cutoff := (utcnow - five_minutes)%Z in
  (∀ (i : nat) s, player_sessions w !! i = Some s →
     (online s = true → (last_seen s < cutoff)%Z →
        player_sessions (r_world r) !! i = Some (set_online false s))
     ∧ (¬ (online s = true ∧ (last_seen s < cutoff)%Z) →
        player_sessions (r_world r) !! i = Some s))
  ∧ (∀ rid p, p ∈ online_cache (bot (r_world r)) !!! rid →
       ∃ s, s ∈ player_sessions w ∧ online s = true ∧ (cutoff ≤ last_seen s)%Z
            ∧ py_int E (realm_id s) = Some rid ∧ xuid s = p)
  ∧ (r_res r = inr tt →
     ∀ s, s ∈ player_sessions w → online s = true → (cutoff ≤ last_seen s)%Z →
       ∃ rid, py_int E (realm_id s) = Some rid
              ∧ xuid s ∈ online_cache (bot (r_world r)) !!! rid)
  ∧ ((∀ s, s ∈ player_sessions w → online s = true → (cutoff ≤ last_seen s)%Z →
        is_Some (py_int E (realm_id s))) →
     (TEST_MODE E = false →
      ∀ k, k ∈ redis_missing_realm_keys E →
        is_Some (py_int E (removeprefix "missing-realm-" k))) →
     r_res r = inr tt).
Proof.
  intros Hempty. cbv zeta.
  destruct (start_frame E utcnow w) as (Hrows & Hcache & Hres).
  rewrite Hrows, Hcache. split; [| split; [| split]].
  - intros i s Hi. unfold mark_stale_offline. rewrite list_lookup_fmap, Hi. simpl.
    split.
    + intros Hon Hlt. rewrite Hon. simpl.
      destruct (Z.ltb_spec (last_seen s) (utcnow - five_minutes)); [done | lia].
    + intros Hn. destruct (online s) eqn:Hon; simpl; [| done].
      destruct (Z.ltb_spec (last_seen s) (utcnow - five_minutes)); [| done].
      exfalso. by apply Hn.
  - intros rid p Hp. unfold start_seeded in Hp.
    apply seed_players_sound in Hp as [Hp | (s & Hs & Hint & Hx)].
    + simpl in Hp. rewrite Hempty, lookup_total_empty in Hp.
      by apply not_elem_of_empty in Hp.
    + apply fresh_online_rows in Hs as (Hs & Hon & Hfresh). by exists s.
  - intros Hok s Hs Hon Hfresh. apply Hres in Hok.
    apply (seed_players_complete E _ _ s Hok).
    apply fresh_online_rows. done.
  - apply start_total.
Qed.

Lemma start_marks_stale_offline_and_seeds_fresh_witness :
  online_cache (bot demo_start_world) = ∅
  ∧ player_sessions (r_world (start demo_env demo_now demo_start_world)) !! 0%nat
    = Some (set_online false demo_stale_session).
Proof.
  split; [reflexivity |].
  destruct (start_marks_stale_offline_and_seeds_fresh demo_env demo_now
              demo_start_world eq_refl) as [Hrows _].
  apply (Hrows 0%nat demo_stale_session eq_refl).
  - reflexivity.
  - reflexivity.
Defined.

(** C3, as the code has it. [realm_down] handles an unreachable realm in its
    own listener, and when the realm has live-playerlist subscribers the
    first thing it does is dispatch one live-update event with nobody joined
    and every disconnected participant as left; it dispatches no other event,
    and none at all for a realm without live subscribers.  For that event
    [on_live_playerlist_send] builds one offline row for each disconnected
    participant. *)
Theorem realm_down_dispatches_disconnected_as_left (E : Env) (ev : RealmDown)
    (w : World) :
  let r := realm_down E ev w in
  let subscribers := live_playerlist_store (bot w) !!! rd_realm_id ev in
  let live := mkLivePlayerlistSend (rd_realm_id ev) ∅ (rd_disconnected ev)
                (rd_timestamp ev) in
  (subscribers ≠ ∅ →
     ∃ rest, r_log r = ADispatch live :: rest ∧ ∀ e, ADispatch e ∉ rest)
  ∧ (subscribers = ∅ → ∀ e, ADispatch e ∉ r_log r)
  ∧ (∀ w' p, p ∈ rd_disconnected ev →
       ∃ cid, filter (λ s, xuid s = p) (live_player_sessions E live w').1
              = [mkPlayerSession cid (rd_realm_id ev) p false (rd_timestamp ev)]).
Proof.
  cbv zeta. rewrite realm_down_run. cbn [r_log].
  assert (Hloop : ∀ w0 e,
            ADispatch e ∉ r_log (for_each (realm_down_one E (rd_timestamp ev))
                                   (rd_configs ev) w0)).
  { intros w0 e Hin.
    apply (for_each_pure_elem _ (down_dest E (rd_timestamp ev))) in Hin
      as (c & _ & Hc); [| intros; apply realm_down_one_run].
    by apply (down_dest_no_dispatch E _ c _ e) in Hc. }
  split; [| split].
  - intros Hne. rewrite decide_False by done. eexists. split; [reflexivity |].
    apply Hloop.
  - intros Hempty. rewrite decide_True by done. apply Hloop.
  - intros w' p Hp.
    destruct (live_sessions_row E
                (mkLivePlayerlistSend (rd_realm_id ev) ∅ (rd_disconnected ev)
                   (rd_timestamp ev)) w' p) as (cid & Hrow & _).
    { apply elem_of_union. by right. }
    exists cid. cbn [lps_joined lps_realm_id lps_timestamp] in Hrow.
    rewrite bool_decide_eq_false_2 in Hrow by apply not_elem_of_empty.
    exact Hrow.
Qed.

(** C3, as stated, fails: for realm ["1"], unreachable with ["A"] and ["B"]
    online and with live subscribers, [realm_down] dispatches the live-update
    event whose [left] set is everyone, and the rows built for that event
    mark both offline. *)
Lemma realm_down_reports_everyone_left :
  r_log (realm_down demo_env demo_down_event demo_world)
  = [ADispatch (mkLivePlayerlistSend "1" ∅ {[ "A"; "B" ]} 42)]
  ∧ (live_player_sessions demo_env
       (mkLivePlayerlistSend "1" ∅ {[ "A"; "B" ]} 42) demo_world).1
    = [mkPlayerSession 1000 "1" "A" false 42;
       mkPlayerSession 1001 "1" "B" false 42].
Proof. split; vm_compute; reflexivity. Qed.

(** C4, as the code has it. [warning_missing_playerlist] leaves the realm
    (the leave call is issued and the realm is discarded from
    [fetch_devices_for]) exactly when no configuration of the event has a
    playerlist channel, which includes the event without configurations.
    The call's outcome is then the handler's: no error, or a
    [MicrosoftAPIException] with status 404, ends it normally; any other
    exception is raised.  When some configuration has a channel, nothing is
    left and [fetch_devices_for] stays as it was. *)
Theorem realm_left_iff_no_configuration_has_channel (E : Env)
    (ev : WarnMissingPlayerlist) (w : World) :
  let r := warning_missing_playerlist E ev w in
  let none_configured :=
    ∀ c, c ∈ wmp_configs ev → truthy_id (playerlist_chan c) = false in
  (ALeaveRealm (wmp_realm_id ev) ∈ r_log r ↔ none_configured)
  ∧ (none_configured →
       fetch_devices_for (bot (r_world r))
       = fetch_devices_for (bot w) ∖ {[wmp_realm_id ev]}
       ∧ r_res r
         = match leave_realm E (wmp_realm_id ev) with
           | None => inr tt
           | Some (MicrosoftAPIException status) =>
               if Z.eqb status 404 then inr tt
               else inl (MicrosoftAPIException status)
           | Some e => inl e
           end)
  ∧ (¬ none_configured →
       fetch_devices_for (bot (r_world r)) = fetch_devices_for (bot w)
       ∧ ∀ realm, ALeaveRealm realm ∉ r_log r).
Proof.
  cbv zeta. rewrite warning_missing_playerlist_run. cbv zeta.
  destruct (warn_loop_run E (wmp_configs ev) w) as (_ & Hf & Hin & Hok & _ & Herr).
  cbv zeta in Hf, Hin, Hok, Herr.
  assert (Hnoleave : ∀ realm,
            ALeaveRealm realm ∉ r_log (for_collect (warn_one E) (wmp_configs ev) w)).
  { intros realm Ha. destruct (Hin _ Ha) as (c & _ & Hc).
    by apply (warn_dest_no_leave E _ c _ realm) in Hc. }
  destruct (r_res (for_collect (warn_one E) (wmp_configs ev) w))
    as [e | flags] eqn:Hres; cbn [r_res r_world r_log].
  - destruct (Herr e eq_refl) as (c & Hc & Hchan).
    assert (Hnot : ¬ ∀ c, c ∈ wmp_configs ev → truthy_id (playerlist_chan c) = false).
    { intros Hall. specialize (Hall c Hc). congruence. }
    split_and!; try done.
    split; [intros Ha; by apply Hnoleave in Ha | done].
  - destruct (Hok flags eq_refl) as [-> _].
    pose proof (should_drop_flags (wmp_configs ev)) as Hdrop.
    destruct (should_drop _) eqn:Hd; cbn [r_res r_world r_log bot set_bot
      fetch_devices_for set_fetch_devices_for].
    + assert (Hall : ∀ c, c ∈ wmp_configs ev → truthy_id (playerlist_chan c) = false)
        by by apply Hdrop.
      split_and!; try done.
      * split; [done |]. intros _. apply elem_of_app. right.
        unfold leave_log. apply elem_of_cons. by left.
      * intros _. split; [by rewrite Hf | done].
    + assert (Hnot : ¬ ∀ c, c ∈ wmp_configs ev → truthy_id (playerlist_chan c) = false).
      { intros Hall. apply Hdrop in Hall. congruence. }
      split_and!; try done.
      * split; [| done]. rewrite app_nil_r. intros Ha. by apply Hnoleave in Ha.
      * intros _. split; [done |]. intros realm. rewrite app_nil_r. apply Hnoleave.
Qed.

(** C4, as stated, fails in both directions.  The destination of guild 10
    has a channel and six recorded failures; the handler records the seventh
    (the limit) and does not leave the realm.  The destination of guild 50
    has no channel and no failure recorded, before or by the handler, and the
    realm is left. *)
Lemma realm_left_is_not_limit_exhaustion :
  (let log := r_log (warning_missing_playerlist demo_env
                       (mkWarnMissingPlayerlist "1" [demo_config 10]) demo_world) in
   log = [AEventuallyInvalidate (demo_config 10) (Some 7);
          AFetchPlayerlistChannel (demo_config 10);
          ASend (demo_config 10) 5 (warning_message demo_env "")]
   ∧ limit_exhausted 6 10 log = true)
  ∧ (let log := r_log (warning_missing_playerlist demo_env
                         (mkWarnMissingPlayerlist "1" [demo_unconfigured_config])
                         demo_world) in
     log = [ALeaveRealm "1"]
     ∧ limit_exhausted 0 50 log = false).
Proof. repeat split; vm_compute; reflexivity. Qed.

(** The loop of [warning_missing_playerlist] up to a configuration that the
    turns before it let it reach. *)
Lemma warn_loop_reaches E cs1 c cs2 w :
  (∀ c', c' ∈ cs1 → ∃ b, (warn_dest E (own_gamertag (bot w)) c').2 = inr b) →
  let r := for_collect (warn_one E) (cs1 ++ c :: cs2) w in
  let gamertag := own_gamertag (bot w) in
  ∃ rest,
    r_log r = (cs1 ≫= λ c', (warn_dest E gamertag c').1)
              ++ (warn_dest E gamertag c).1 ++ rest
    ∧ (∀ e, (warn_dest E gamertag c).2 = inl e → r_res r = inl e ∧ rest = []).
Proof.
  revert w. induction cs1 as [| c1 cs1 IH]; intros w Hpass; cbv zeta.
  - cbn [app]. rewrite for_collect_cons.
    destruct (warn_one_run E c w) as (Hl & Hr & Hg & _). rewrite Hr, Hl.
    destruct ((warn_dest E (own_gamertag (bot w)) c).2) as [e | b];
      cbn [r_res r_log].
    + exists []. rewrite app_nil_r. split; [done |]. by intros e' [= <-].
    + destruct (r_res (for_collect (warn_one E) cs2 _)); cbn [r_res r_log].
      * eexists. split; [reflexivity | done].
      * eexists. split; [reflexivity | done].
  - cbn [app]. rewrite for_collect_cons.
    destruct (warn_one_run E c1 w) as (Hl & Hr & Hg & _). rewrite Hr, Hl.
    destruct (Hpass c1) as [b Hb]; [apply elem_of_cons; by left |].
    rewrite Hb. cbv zeta.
    destruct (IH (r_world (warn_one E c1 w))) as (rest & Hlog & Hraise).
    { intros c' Hc'. rewrite Hg. apply Hpass, elem_of_cons. by right. }
    cbv zeta in Hlog, Hraise. rewrite Hg in Hlog, Hraise.
    rewrite bind_cons.
    destruct (r_res (for_collect (warn_one E) (cs1 ++ c :: cs2) _)) as [e | flags]
      eqn:Hres; cbn [r_res r_log].
    + exists rest. rewrite Hlog. split; [by rewrite <- !app_assoc |].
      intros e' He'. destruct (Hraise e' He') as [[= ->] ->]. done.
    + exists rest. rewrite Hlog, app_nil_r. split; [by rewrite <- !app_assoc |].
      intros e' He'. by destruct (Hraise e' He').
Qed.

(** C5, as the code has it. [warning_missing_playerlist] records a failure
    only with the limit 7, and only against a configuration that has a
    playerlist channel, has warning notifications on and whose guild the bot
    has cached: for a configuration with a channel but with warnings off or
    an uncached guild it makes no call at all.  The turn of such a
    configuration raises exactly when its channel fetch raises something
    other than [ValueError] or its warning send something other than
    [HTTPException].  A configuration with a channel, warnings on and a
    cached guild that no earlier turn kept the loop from reaching has the
    failure recorded, then its channel fetched, then, if the fetch
    succeeded, the warning sent; and if its own turn raises, the handler
    ends with that exception and these calls are the last ones made. *)
Theorem warning_records_failure_then_warns (E : Env)
    (ev : WarnMissingPlayerlist) (w : World) :
  let r := warning_missing_playerlist E ev w in
  let warning := warning_message E (own_gamertag (bot w)) in
  let warned (c : GuildConfig) : Prop :=
    truthy_id (playerlist_chan c) = true
    ∧ warning_notifications c = true
    ∧ get_guild E (guild_id c) = true in
  let passes (c : GuildConfig) : Prop :=
    warned c →
    (∀ e, fetch_playerlist_channel E c = inl e → e = ValueError)
    ∧ (∀ chan e, fetch_playerlist_channel E c = inr chan →
         chan_send E chan warning = Some e → e = HTTPException) in
  (∀ c limit, AEventuallyInvalidate c limit ∈ r_log r → limit = Some 7)
  ∧ (∀ c, c ∈ wmp_configs ev →
       warning_notifications c = false ∨ get_guild E (guild_id c) = false →
       ∀ a, a ∈ r_log r → action_config a ≠ Some c)
  ∧ (∀ before c after,
       wmp_configs ev = before ++ c :: after →
       (∀ c', c' ∈ before → passes c') →
       warned c →
       ∃ log2,
         r_log r = (before ≫= λ c', r_log (warn_one E c' w))
                   ++ AEventuallyInvalidate c (Some 7)
                      :: AFetchPlayerlistChannel c :: log2
         ∧ (∀ chan, fetch_playerlist_channel E c = inr chan →
              ∃ log3, log2 = ASend c chan warning :: log3)
         ∧ (∀ e, fetch_playerlist_channel E c = inl e → e ≠ ValueError →
              r_res r = inl e ∧ log2 = [])
         ∧ (∀ chan e, fetch_playerlist_channel E c = inr chan →
              chan_send E chan warning = Some e → e ≠ HTTPException →
              r_res r = inl e ∧ log2 = [ASend c chan warning])).
Proof.
  cbv zeta. rewrite warning_missing_playerlist_run. cbv zeta.
  destruct (warn_loop_run E (wmp_configs ev) w) as (_ & _ & Hin & _).
  cbv zeta in Hin.
  set (loop := for_collect (warn_one E) (wmp_configs ev) w) in *.
  set (tail := match r_res loop with
               | inl _ => []
               | inr flags =>
                   if should_drop flags then leave_log E (wmp_realm_id ev) else []
               end).
  assert (Hlog : ∀ X (x1 x2 : World) (e1 : exn → exn + unit) (e2 e3 : exn + unit),
            r_log match r_res loop with
                  | inl e => mkRun x1 (r_log loop) (e1 e)
                  | inr flags =>
                      if should_drop flags
                      then mkRun (X flags) (r_log loop ++ leave_log E (wmp_realm_id ev)) e2
                      else mkRun x2 (r_log loop ++ []) e3
                  end = r_log loop ++ tail).
  { intros. unfold tail. destruct (r_res loop) as [e | flags]; cbn.
    - by rewrite app_nil_r.
    - by destruct (should_drop flags). }
  assert (Hres : ∀ e, r_res loop = inl e →
            ∀ X (x1 x2 : World) (e2 e3 : exn + unit),
            r_res match r_res loop with
                  | inl e => mkRun x1 (r_log loop) (inl e)
                  | inr flags =>
                      if should_drop flags
                      then mkRun (X flags) (r_log loop ++ leave_log E (wmp_realm_id ev)) e2
                      else mkRun x2 (r_log loop ++ []) e3
                  end = inl e ∧ tail = []).
  { intros e He X x1 x2 e2 e3. unfold tail. by rewrite He. }
  assert (Htail : ∀ a, a ∈ tail → action_config a = None
                       ∧ ∀ c limit, a ≠ AEventuallyInvalidate c limit).
  { intros a Ha. unfold tail in Ha.
    destruct (r_res loop) as [e | flags]; [by apply elem_of_nil in Ha |].
    destruct (should_drop flags); [| by apply elem_of_nil in Ha].
    unfold leave_log in Ha. apply elem_of_cons in Ha as [-> | Ha]; [done |].
    destruct (leave_realm E (wmp_realm_id ev)) as [[] |];
      try (by apply elem_of_nil in Ha).
    destruct (Z.eqb status 404); [| by apply elem_of_nil in Ha].
    apply list_elem_of_singleton in Ha as ->. done. }
  split_and!.
  - erewrite (Hlog (λ _, _) _ _ (λ e, inl e)).
    intros c limit [Ha | Ha]%elem_of_app.
    + destruct (Hin _ Ha) as (c' & _ & Hc').
      apply warn_dest_config in Hc' as (_ & _ & _ & _ & Hlimit). by eapply Hlimit.
    + apply Htail in Ha as [_ Hne]. by destruct (Hne c limit).
  - erewrite (Hlog (λ _, _) _ _ (λ e, inl e)).
    intros c Hc Hoff a [Ha | Ha]%elem_of_app.
    + destruct (Hin _ Ha) as (c' & _ & Hc').
      apply warn_dest_config in Hc' as (-> & _ & Hwarn & Hguild & _).
      intros [= ->]. destruct Hoff; congruence.
    + apply Htail in Ha as [-> _]. done.
  - intros before c after Hsplit Hpass (Hchan & Hwarn & Hguild).
    erewrite (Hlog (λ _, _) _ _ (λ e, inl e)).
    destruct (warn_loop_reaches E before c after w) as (rest & Hlooplog & Hraise).
    { intros c' Hc'. specialize (Hpass c' Hc'). unfold warn_dest.
      destruct (truthy_id (playerlist_chan c')) eqn:H1; cbn [negb]; [| by eexists].
      destruct (warning_notifications c') eqn:H2; cbn [negb]; [| by eexists].
      destruct (get_guild E (guild_id c')) eqn:H3; cbn [negb]; [| by eexists].
      destruct Hpass as [Hf Hs]; [done |].
      destruct (fetch_playerlist_channel E c') as [e | chan] eqn:Hfetch; cbn [snd].
      - rewrite (Hf e eq_refl). by eexists.
      - destruct (chan_send E chan _) as [e |] eqn:Hsend; [| by eexists].
        rewrite (Hs chan e eq_refl Hsend). by eexists. }
    cbv zeta in Hlooplog, Hraise. rewrite <- Hsplit in Hlooplog, Hraise.
    fold loop in Hlooplog, Hraise. rewrite Hlooplog.
    unfold warn_dest in Hlooplog, Hraise |- *.
    rewrite Hchan, Hwarn, Hguild in Hlooplog, Hraise |- *. cbn [negb] in *.
    assert (Hlogs : before ≫= (λ c', r_log (warn_one E c' w))
                    = before ≫= λ c0, (warn_dest E (own_gamertag (bot w)) c0).1).
    { apply list_bind_ext_in. intros c' _. by destruct (warn_one_run E c' w). }
    rewrite Hlogs.
    destruct (fetch_playerlist_channel E c) as [e | chan] eqn:Hfetch;
      cbn [fst snd] in *.
    + exists (rest ++ tail). split_and!.
      * by rewrite <- !app_assoc.
      * intros chan [=].
      * intros e' [= <-] Hne.
        destruct (Hraise e) as [Hr ->]; [by destruct e |].
        destruct (Hres e Hr (λ _, w) w w (inr tt) (inr tt)) as [_ Ht].
        split; [| by rewrite Ht].
        by rewrite Hr.
      * intros chan e' [=].
    + exists (ASend c chan (warning_message E (own_gamertag (bot w))) :: rest ++ tail).
      split_and!.
      * by rewrite <- !app_assoc.
      * intros chan' [= <-]. by eexists.
      * intros e' [=].
      * intros chan' e' [= <-] Hsend Hne. rewrite Hsend in Hraise.
        destruct (Hraise e') as [Hr ->]; [by destruct e' |].
        destruct (Hres e' Hr (λ _, w) w w (inr tt) (inr tt)) as [_ Ht].
        split; [| by rewrite Ht].
        by rewrite Hr.
Qed.

Lemma warning_records_failure_then_warns_witness :
  ∃ log1 log2,
    r_log (warning_missing_playerlist demo_env_missing_channel
             (mkWarnMissingPlayerlist "1" [demo_config 20; demo_config 10])
             demo_world)
    = log1 ++ AEventuallyInvalidate (demo_config 10) (Some 7)
              :: AFetchPlayerlistChannel (demo_config 10) :: log2
    ∧ ∃ log3,
        log2 = ASend (demo_config 10) 5
                 (warning_message demo_env_missing_channel
                    (own_gamertag (bot demo_world))) :: log3.
Proof.
  destruct (warning_records_failure_then_warns demo_env_missing_channel
              (mkWarnMissingPlayerlist "1" [demo_config 20; demo_config 10])
              demo_world) as (_ & _ & Hreach).
  destruct (Hreach [demo_config 20] (demo_config 10) [] eq_refl)
    as (log2 & Hlog & Hsent & _).
  - intros c' Hc' _. apply list_elem_of_singleton in Hc' as ->.
    split; [intros e [= <-]; reflexivity | intros chan e [=]].
  - by split_and!.
  - eexists _, log2. split; [exact Hlog |]. by apply Hsent.
Defined.

(** C5, as stated, fails: the destination of guild 40 has a channel and has
    warning notifications off; the handler records no failure against it and
    sends it no warning. *)
Lemma warning_skips_destination_without_notifications :
  truthy_id (playerlist_chan demo_quiet_config) = true
  ∧ warning_missing_playerlist demo_env
      (mkWarnMissingPlayerlist "1" [demo_quiet_config]) demo_world
    = mkRun demo_world [] (inr tt).
Proof. split; vm_compute; reflexivity. Qed.

(** C6. In the loop of [on_live_playerlist_send], the turn of a subscriber
    whose stored configuration has no premium code consists of the call of
    [invalidate_premium] and nothing else: no channel fetch, no send, no
    call of [eventually_invalidate], no write, whether or not the
    configuration has a channel; and in the trace of a loop that ends
    normally that call is the only one about the subscriber's guild. *)
Theorem lost_entitlement_short_circuits (E : Env) (realm : string)
    (embed : Embed) (subscribers : gset Z) (w : World) (g : Z) (c : GuildConfig) :
  g ∈ subscribers →
  config_rows g (guild_configs w) = [c] →
  premium_code c = None →
  live_send_one E realm embed g w = mkRun w [AInvalidatePremium c] (inr tt)
  ∧ (let r := live_dispatch_loop E realm embed (elements subscribers) w in
     r_res r = inr tt →
     filter (λ a, action_guild a = Some g) (r_log r) = [AInvalidatePremium c]).
Proof.
  intros Hg Hrows Hpremium. split.
  - unfold live_send_one, bind, GuildConfig_get. rewrite Hrows.
    cbn [r_res r_world r_log]. rewrite Hpremium. done.
  - cbv zeta. intros Hok.
    destruct (live_dispatch_loop_run E realm embed (elements subscribers) w
                (NoDup_elements subscribers)) as [_ Hlog].
    rewrite (Hlog Hok).
    rewrite (filter_guild_bind (λ g', (live_dest_of E embed w g').1)).
    + unfold live_dest_of. rewrite Hrows. unfold live_dest. by rewrite Hpremium.
    + apply NoDup_elements.
    + by apply elem_of_elements.
    + intros g' a. apply live_dest_of_guild.
Qed.

Lemma lost_entitlement_short_circuits_witness :
  60 ∈ ({[ 10; 60 ]} : gset Z)
  ∧ config_rows 60 (guild_configs demo_lapsed_world) = [demo_lapsed_config]
  ∧ premium_code demo_lapsed_config = None
  ∧ live_send_one demo_env "1" demo_embed 60 demo_lapsed_world
    = mkRun demo_lapsed_world [AInvalidatePremium demo_lapsed_config] (inr tt).
Proof.
  assert (Hin : 60 ∈ ({[ 10; 60 ]} : gset Z)).
  { apply elem_of_union. right. apply elem_of_singleton_2. reflexivity. }
  split; [exact Hin |]. split; [reflexivity |]. split; [reflexivity |].
  apply (lost_entitlement_short_circuits demo_env "1" demo_embed {[ 10; 60 ]}
           demo_lapsed_world 60 demo_lapsed_config Hin eq_refl eq_refl).
Defined.

(** The loop of [on_live_playerlist_send] up to a subscriber that the turns
    before it let it reach. *)
Lemma live_loop_reaches E realm embed ds1 g ds2 w :
  NoDup (ds1 ++ g :: ds2) →
  (∀ g', g' ∈ ds1 → (live_dest_of E embed w g').2 = inr tt) →
  let r := live_dispatch_loop E realm embed (ds1 ++ g :: ds2) w in
  ∃ rest,
    r_log r = (ds1 ≫= λ g', (live_dest_of E embed w g').1)
              ++ (live_dest_of E embed w g).1 ++ rest
    ∧ (∀ e, (live_dest_of E embed w g).2 = inl e → r_res r = inl e ∧ rest = []).
Proof.
  unfold live_dispatch_loop. revert w.
  induction ds1 as [| g1 ds1 IH]; intros w Hnd Hpass; cbv zeta.
  - cbn [app]. rewrite for_each_cons.
    destruct (live_send_one_run E realm embed g w) as (Hl & Hr & _).
    rewrite Hr, Hl.
    destruct ((live_dest_of E embed w g).2) as [e | []]; cbn [r_res r_log].
    + exists []. rewrite app_nil_r. split; [done |]. by intros e' [= <-].
    + eexists. split; [reflexivity | done].
  - cbn [app] in *. apply NoDup_cons in Hnd as [Hg1 Hnd]. rewrite for_each_cons.
    destruct (live_send_one_run E realm embed g1 w) as (Hl & Hr & Hframe).
    rewrite Hr, Hl. rewrite (Hpass g1) by (apply elem_of_cons; by left).
    cbv zeta. set (w' := r_world (live_send_one E realm embed g1 w)) in *.
    assert (Hsame : ∀ g', g' ∈ ds1 ++ g :: ds2 →
              live_dest_of E embed w' g' = live_dest_of E embed w g').
    { intros g' Hg'. unfold live_dest_of. rewrite Hframe; [done |].
      intros ->. done. }
    destruct (IH w' Hnd) as (rest & Hlog & Hraise).
    { intros g' Hg'. rewrite Hsame by (apply elem_of_app; by left).
      apply Hpass, elem_of_cons. by right. }
    cbv zeta in Hlog, Hraise. cbn [r_res r_log].
    rewrite Hsame in Hlog, Hraise
      by (apply elem_of_app; right; apply elem_of_cons; by left).
    exists rest. rewrite Hlog, bind_cons. split.
    + rewrite <- !app_assoc. do 2 f_equal.
      apply list_bind_ext_in. intros g' Hg'. rewrite Hsame; [done |].
      apply elem_of_app. by left.
    + exact Hraise.
Qed.

(** The loop of [realm_down] up to a configuration that the turns before it
    let it reach. *)
Lemma down_loop_reaches E ts cs1 c cs2 w :
  (∀ c', c' ∈ cs1 → (down_dest E ts c').2 = inr tt) →
  let r := for_each (realm_down_one E ts) (cs1 ++ c :: cs2) w in
  ∃ rest,
    r_log r = (cs1 ≫= λ c', (down_dest E ts c').1) ++ (down_dest E ts c).1 ++ rest
    ∧ (∀ e, (down_dest E ts c).2 = inl e → r_res r = inl e ∧ rest = []).
Proof.
  revert w. induction cs1 as [| c1 cs1 IH]; intros w Hpass; cbv zeta.
  - cbn [app]. rewrite for_each_cons, realm_down_one_run. cbn [r_res r_log r_world].
    destruct ((down_dest E ts c).2) as [e | []]; cbn [r_res r_log].
    + exists []. rewrite app_nil_r. split; [done |]. by intros e' [= <-].
    + eexists. split; [reflexivity | done].
  - cbn [app]. rewrite for_each_cons, realm_down_one_run. cbn [r_res r_log r_world].
    rewrite (Hpass c1) by (apply elem_of_cons; by left). cbv zeta.
    destruct (IH w) as (rest & Hlog & Hraise).
    { intros c' Hc'. apply Hpass, elem_of_cons. by right. }
    cbv zeta in Hlog, Hraise. cbn [r_res r_log].
    exists rest. rewrite Hlog, bind_cons. split; [by rewrite <- !app_assoc | done].
Qed.

(** The calls and the outcome of the [try] of lines 96-103 and 139-171, for
    a fetch and a send with the given outcomes. *)
Lemma delivery_cases E c before m :
  (∀ e, fetch_playerlist_channel E c = inl e →
     delivery E c before m
     = (AFetchPlayerlistChannel c
          :: (if decide (e = HTTPException) then [AEventuallyInvalidate c None] else []),
        if decide (e = ValueError ∨ e = HTTPException) then inr tt else inl e))
  ∧ (∀ chan, fetch_playerlist_channel E c = inr chan →
       (chan_send E chan (m chan) = None →
          delivery E c before m
          = ((AFetchPlayerlistChannel c :: before chan) ++ [ASend c chan (m chan)],
             inr tt))
       ∧ (∀ e, chan_send E chan (m chan) = Some e →
            delivery E c before m
            = ((AFetchPlayerlistChannel c :: before chan)
                 ++ ASend c chan (m chan)
                    :: (if decide (e = HTTPException)
                        then [AEventuallyInvalidate c None] else []),
               if decide (e = ValueError ∨ e = HTTPException)
               then inr tt else inl e))).
Proof.
  unfold delivery. split.
  - intros e ->. destruct e; cbn; repeat case_decide; try done;
      exfalso; intuition congruence.
  - intros chan ->. split; [by intros -> |].
    intros e ->. destruct e; cbn; repeat case_decide; try done;
      exfalso; intuition congruence.
Qed.

(** C7, as the code has it.  In the loops of [on_live_playerlist_send] and
    [realm_down] the turns run in order, each as it would run alone, until
    one raises: the loop then ends with that exception and makes no further
    call; it ends normally exactly when every turn does.  For a destination
    that passes the checks before the [try], a [ValueError] of the channel
    fetch or of the send ends the turn normally with no call of
    [eventually_invalidate], an [HTTPException] ends it normally after the
    call of [eventually_invalidate] for the destination, and any other
    exception is raised out of the turn.  Also raised out of the turn are
    the exception of [GuildConfig.get] for a subscriber that does not have
    exactly one stored configuration, and any exception of the role lookup
    of [realm_down], which precedes the [try]. *)
Theorem dispatch_contains_caught_delivery_failures (E : Env) :
  let caught (e : exn) : Prop := e = ValueError ∨ e = HTTPException in
  let policy (c : GuildConfig) (e : exn) : list Action :=
    if decide (e = HTTPException) then [AEventuallyInvalidate c None] else [] in
  let outcome (e : exn) : exn + unit :=
    if decide (caught e) then inr tt else inl e in
  (∀ realm embed (subscribers : gset Z) w,
     let turn g := live_send_one E realm embed g w in
     let r := live_dispatch_loop E realm embed (elements subscribers) w in
     let m := mkMessage None embed in
     (r_res r = inr tt ↔ ∀ g, g ∈ subscribers → r_res (turn g) = inr tt)
     ∧ (r_res r = inr tt →
        r_log r = elements subscribers ≫= λ g, r_log (turn g))
     ∧ (∀ before g after,
          elements subscribers = before ++ g :: after →
          (∀ g', g' ∈ before → r_res (turn g') = inr tt) →
          ∃ log2,
            r_log r = (before ≫= λ g', r_log (turn g')) ++ r_log (turn g) ++ log2
            ∧ ∀ e, r_res (turn g) = inl e → r_res r = inl e ∧ log2 = [])
     ∧ (∀ g, config_rows g (guild_configs w) = [] →
          r_res (turn g) = inl DoesNotExist ∧ r_log (turn g) = [])
     ∧ (∀ g c c' rows, config_rows g (guild_configs w) = c :: c' :: rows →
          r_res (turn g) = inl (OtherException "MultipleObjectsReturned")
          ∧ r_log (turn g) = [])
     ∧ (∀ g c,
          config_rows g (guild_configs w) = [c] →
          premium_code c ≠ None →
          truthy_id (playerlist_chan c) = true →
          get_guild E g = true →
          (∀ e, fetch_playerlist_channel E c = inl e →
             r_log (turn g) = AFetchPlayerlistChannel c :: policy c e
             ∧ r_res (turn g) = outcome e)
          ∧ (∀ chan, fetch_playerlist_channel E c = inr chan →
               (chan_send E chan m = None →
                  r_log (turn g) = [AFetchPlayerlistChannel c; ASend c chan m]
                  ∧ r_res (turn g) = inr tt)
               ∧ (∀ e, chan_send E chan m = Some e →
                    r_log (turn g)
                    = AFetchPlayerlistChannel c :: ASend c chan m :: policy c e
                    ∧ r_res (turn g) = outcome e))))
  ∧ (∀ ev w,
     let turn c := realm_down_one E (rd_timestamp ev) c w in
     let r := realm_down E ev w in
     let dispatched :=
       if decide (live_playerlist_store (bot w) !!! rd_realm_id ev = ∅) then []
       else [ADispatch (mkLivePlayerlistSend (rd_realm_id ev) ∅
                          (rd_disconnected ev) (rd_timestamp ev))] in
     (r_res r = inr tt ↔ ∀ c, c ∈ rd_configs ev → r_res (turn c) = inr tt)
     ∧ (r_res r = inr tt →
        r_log r = dispatched ++ (rd_configs ev ≫= λ c, r_log (turn c)))
     ∧ (∀ before c after,
          rd_configs ev = before ++ c :: after →
          (∀ c', c' ∈ before → r_res (turn c') = inr tt) →
          ∃ log2,
            r_log r = dispatched ++ (before ≫= λ c', r_log (turn c'))
                      ++ r_log (turn c) ++ log2
            ∧ ∀ e, r_res (turn c) = inl e → r_res r = inl e ∧ log2 = [])
     ∧ (∀ c,
          truthy_id (playerlist_chan c) = true →
          truthy_id (realm_offline_role c) = true →
          get_guild E (guild_id c) = true →
          let lookup := AFetchRole (guild_id c) (default 0 (realm_offline_role c)) in
          (∀ e, fetch_role E (guild_id c) (default 0 (realm_offline_role c)) = inl e →
             r_log (turn c) = [lookup] ∧ r_res (turn c) = inl e)
          ∧ (∀ role,
               fetch_role E (guild_id c) (default 0 (realm_offline_role c)) = inr role →
               (∀ e, fetch_playerlist_channel E c = inl e →
                  r_log (turn c) = lookup :: AFetchPlayerlistChannel c :: policy c e
                  ∧ r_res (turn c) = outcome e)
               ∧ (∀ chan, fetch_playerlist_channel E c = inr chan →
                    let m := realm_down_message E (rd_timestamp ev) c role chan in
                    let unpingable :=
                      if cannot_ping E (guild_id c) chan role
                      then [AEventuallyInvalidateRealmOffline c] else [] in
                    (chan_send E chan m = None →
                       r_log (turn c)
                       = lookup :: AFetchPlayerlistChannel c
                           :: unpingable ++ [ASend c chan m]
                       ∧ r_res (turn c) = inr tt)
                    ∧ (∀ e, chan_send E chan m = Some e →
                         r_log (turn c)
                         = lookup :: AFetchPlayerlistChannel c
                             :: unpingable ++ ASend c chan m :: policy c e
                         ∧ r_res (turn c) = outcome e))))).
Proof.
  cbv zeta. split.
  - intros realm embed subscribers w.
    assert (Hturn : ∀ g, r_log (live_send_one E realm embed g w)
                         = (live_dest_of E embed w g).1
                         ∧ r_res (live_send_one E realm embed g w)
                           = (live_dest_of E embed w g).2).
    { intros g. destruct (live_send_one_run E realm embed g w) as (Hl & Hr & _).
      by split. }
    assert (Hlogs : ∀ l : list Z,
              l ≫= (λ g, r_log (live_send_one E realm embed g w))
              = l ≫= (λ g, (live_dest_of E embed w g).1)).
    { intros l. apply list_bind_ext_in. intros g _. by destruct (Hturn g). }
    split_and!.
    + destruct (live_dispatch_loop_run E realm embed (elements subscribers) w
                  (NoDup_elements subscribers)) as [Hres _].
      cbv zeta in Hres. rewrite Hres. split.
      * intros Hall g Hg. destruct (Hturn g) as [_ ->].
        by apply Hall, elem_of_elements.
      * intros Hall g Hg. destruct (Hturn g) as [_ <-].
        by apply Hall, elem_of_elements.
    + intros Hok.
      destruct (live_dispatch_loop_run E realm embed (elements subscribers) w
                  (NoDup_elements subscribers)) as [_ Hlog].
      cbv zeta in Hlog. by rewrite (Hlog Hok), Hlogs.
    + intros before g after Hsplit Hpass. rewrite Hsplit.
      destruct (live_loop_reaches E realm embed before g after w) as (rest & Hlog & Hr).
      { rewrite <- Hsplit. apply NoDup_elements. }
      { intros g' Hg'. destruct (Hturn g') as [_ <-]. by apply Hpass. }
      cbv zeta in Hlog, Hr. destruct (Hturn g) as [-> ->].
      exists rest. rewrite Hlogs. split; [exact Hlog | exact Hr].
    + intros g Hrows. destruct (Hturn g) as [-> ->].
      unfold live_dest_of. by rewrite Hrows.
    + intros g c c' rows Hrows. destruct (Hturn g) as [-> ->].
      unfold live_dest_of. by rewrite Hrows.
    + intros g c Hrows Hpremium Hchan Hguild.
      assert (Hgid : guild_id c = g).
      { apply (config_rows_elem g (guild_configs w)). rewrite Hrows.
        apply elem_of_cons. by left. }
      assert (Hdest : live_dest_of E embed w g
                      = delivery E c (λ _, []) (λ _, mkMessage None embed)).
      { unfold live_dest_of. rewrite Hrows. unfold live_dest.
        destruct (premium_code c); [| done]. cbn [truthy_obj negb].
        by rewrite Hchan, Hgid, Hguild. }
      destruct (Hturn g) as [-> ->]. rewrite Hdest.
      destruct (delivery_cases E c (λ _, []) (λ _, mkMessage None embed))
        as [Hfetch Hsend].
      split.
      * intros e He. by rewrite (Hfetch e He).
      * intros chan Hc. destruct (Hsend chan Hc) as [Hnone Hsome]. split.
        -- intros Hs. by rewrite (Hnone Hs).
        -- intros e Hs. by rewrite (Hsome e Hs).
  - intros ev w. rewrite realm_down_run. cbv zeta. cbn [r_res r_log].
    set (w' := r_world (live_store_getitem (rd_realm_id ev) w)).
    set (ts := rd_timestamp ev).
    assert (Hturn : ∀ c w0, r_log (realm_down_one E ts c w0) = (down_dest E ts c).1
                            ∧ r_res (realm_down_one E ts c w0) = (down_dest E ts c).2).
    { intros c w0. by rewrite realm_down_one_run. }
    assert (Hlogs : ∀ l : list GuildConfig,
              l ≫= (λ c, r_log (realm_down_one E ts c w))
              = l ≫= (λ c, (down_dest E ts c).1)).
    { intros l. apply list_bind_ext_in. intros c _. by destruct (Hturn c w). }
    split_and!.
    + destruct (for_each_pure (realm_down_one E ts) (down_dest E ts) (rd_configs ev) w')
        as (_ & Hres & _); [intros; apply realm_down_one_run |].
      cbv zeta in Hres. rewrite Hres. split.
      * intros Hall c Hc. destruct (Hturn c w) as [_ ->]. by apply Hall.
      * intros Hall c Hc. destruct (Hturn c w) as [_ <-]. by apply Hall.
    + intros Hok.
      destruct (for_each_pure (realm_down_one E ts) (down_dest E ts) (rd_configs ev) w')
        as (_ & _ & Hlog); [intros; apply realm_down_one_run |].
      cbv zeta in Hlog. by rewrite (Hlog Hok), Hlogs.
    + intros before c after Hsplit Hpass. rewrite Hsplit.
      destruct (down_loop_reaches E ts before c after w') as (rest & Hlog & Hr).
      { intros c' Hc'. destruct (Hturn c' w) as [_ <-]. by apply Hpass. }
      cbv zeta in Hlog, Hr. destruct (Hturn c w) as [-> ->].
      exists rest. rewrite Hlogs. split; [| exact Hr].
      by rewrite Hlog.
    + intros c Hchan Hrole Hguild.
      destruct (Hturn c w) as [-> ->].
      unfold down_dest. rewrite Hchan, Hrole, Hguild. cbn [negb orb]. cbv zeta.
      split.
      * intros e ->. done.
      * intros role ->. cbn [fst snd].
        destruct (delivery_cases E c
                    (λ chan, if cannot_ping E (guild_id c) chan role
                             then [AEventuallyInvalidateRealmOffline c] else [])
                    (realm_down_message E ts c role)) as [Hfetch Hsend].
        split.
        -- intros e He. by rewrite (Hfetch e He).
        -- intros chan Hc. destruct (Hsend chan Hc) as [Hnone Hsome]. split.
           ++ intros Hs. by rewrite (Hnone Hs).
           ++ intros e Hs. by rewrite (Hsome e Hs).
Qed.

Lemma dispatch_contains_caught_delivery_failures_witness :
  r_res (live_dispatch_loop demo_env "1" demo_embed
           (elements ({[ 10; 20; 30 ]} : gset Z)) demo_world) = inr tt
  ∧ r_log (live_send_one demo_env "1" demo_embed 20 demo_world)
    = [AFetchPlayerlistChannel (demo_config 20);
       AEventuallyInvalidate (demo_config 20) None].
Proof.
  destruct (dispatch_contains_caught_delivery_failures demo_env) as [Hlive _].
  destruct (Hlive "1" demo_embed {[ 10; 20; 30 ]} demo_world)
    as (Hres & _ & _ & _ & _ & Hturn).
  split.
  - apply Hres. intros g Hg.
    apply elem_of_union in Hg as [Hg | Hg];
      [apply elem_of_union in Hg as [Hg | Hg] |];
      apply elem_of_singleton_1 in Hg; subst g; vm_compute; reflexivity.
  - destruct (Hturn 20 (demo_config 20) eq_refl ltac:(discriminate) eq_refl eq_refl)
      as [Hfetch _].
    destruct (Hfetch HTTPException eq_refl) as [Hlog _]. exact Hlog.
Defined.

(** C7, as stated, fails: in [realm_down] the role lookup of a destination
    is made before the [try]; when Discord refuses it for guild 5, the
    handler raises the [HTTPException] and guild 6, whose lookup, channel
    fetch and send would all succeed, is never contacted. *)
Lemma role_lookup_failure_escapes_realm_down :
  fetch_role demo_env_role_lookup_refused 6 900 = inr None
  ∧ fetch_playerlist_channel demo_env_role_lookup_refused (demo_down_config 6)
    = inr 5
  ∧ r_res (realm_down demo_env_role_lookup_refused demo_two_down_event
             (mkWorld initial_bot [] [] 0)) = inl HTTPException
  ∧ r_log (realm_down demo_env_role_lookup_refused demo_two_down_event
             (mkWorld initial_bot [] [] 0)) = [AFetchRole 5 900].
Proof. split_and!; vm_compute; reflexivity. Qed.

(** C8. Resolving the correlation identifier of a pair (realm, participant)
    again, after any number of other lookups in between, returns the value of
    the first lookup and changes nothing; and a lookup calls [uuid.uuid4]
    only when the pair's key is not yet in the map, in which case exactly one
    new identifier is drawn and returned. *)
Theorem resolve_idempotent (E : Env) (realm p : string)
    (qs : list (string * string)) (w : World) :
  let first := resolve E realm p w in
  let later := resolve_all E qs first.2 in
  resolve E realm p later = (first.1, later)
  ∧ (uuid_cache (bot w) !! realm_xuid_key realm p = None
     ∧ uuid_calls first.2 = S (uuid_calls w)
     ∧ first.1 = uuid4_at E (uuid_calls w)
     ∨ uuid_cache (bot w) !! realm_xuid_key realm p = Some first.1
       ∧ first.2 = w).
Proof.
  simpl. split.
  - apply uuid_cache_getitem_hit, resolve_all_mono.
    apply uuid_cache_getitem_lookup.
  - unfold resolve, uuid_cache_getitem.
    destruct (uuid_cache (bot w) !! realm_xuid_key realm p) eqn:Hk; simpl.
    + by right.
    + by left.
Qed.

Lemma column_update_session_fields f fields old new :
  custom_id old = custom_id new →
  column f (update_session_fields fields old new)
  = if decide (f ∈ fields) then column f new else column f old.
Proof.
  intros Hid. unfold update_session_fields.
  destruct f; cbn [column custom_id realm_id xuid online last_seen];
    repeat case_decide; congruence.
Qed.

(** A stored row keeps a column through upserts that do not name it. *)
Lemma foldl_upsert_row_keeps k f ops x :
  custom_id x = k →
  (∀ op, op ∈ ops → custom_id op.2 = k → f ∉ op.1) →
  ∃ y, foldl (upsert_row k) (Some x) ops = Some y
       ∧ custom_id y = k ∧ column f y = column f x.
Proof.
  revert x. induction ops as [| op ops IH]; intros x Hx Hall; [by exists x |].
  cbn [foldl]. unfold upsert_row at 2.
  destruct (decide (custom_id op.2 = k)) as [Hk | Hk].
  - destruct (IH (update_session_fields op.1 x op.2)) as (y & Hy & Hid & Hcol).
    + rewrite update_session_fields_custom_id; congruence.
    + intros op' Hop'. apply Hall, elem_of_cons. by right.
    + exists y. split_and!; [done | done |]. rewrite Hcol.
      rewrite column_update_session_fields by congruence.
      rewrite decide_False; [done |]. apply Hall; [apply elem_of_cons; by left | done].
  - apply IH; [done |]. intros op' Hop'. apply Hall, elem_of_cons. by right.
Qed.

(** An upsert writes the columns it names, and the whole row when none is
    stored. *)
Lemma upsert_row_writes k f o fields s :
  custom_id s = k →
  (∀ x, o = Some x → custom_id x = k) →
  f ∈ fields ∨ o = None →
  ∃ y, upsert_row k o (fields, s) = Some y
       ∧ custom_id y = k ∧ column f y = column f s.
Proof.
  intros Hs Ho Hf. unfold upsert_row. cbn [fst snd]. rewrite decide_True by done.
  destruct o as [x |].
  - destruct Hf as [Hf | ?]; [| done].
    exists (update_session_fields fields x s). split_and!; [done | |].
    + rewrite update_session_fields_custom_id; [done |]. rewrite (Ho x); done.
    + rewrite column_update_session_fields by (rewrite (Ho x); done).
      by rewrite decide_True.
  - by exists s.
Qed.

Lemma foldl_upsert_row_id k ops o :
  (∀ x, o = Some x → custom_id x = k) →
  ∀ y, foldl (upsert_row k) o ops = Some y → custom_id y = k.
Proof.
  revert o. induction ops as [| op ops IH]; intros o Ho y; [apply Ho |].
  cbn [foldl]. apply IH. intros x. unfold upsert_row.
  destruct (decide (custom_id op.2 = k)) as [Hk | Hk]; [| apply Ho].
  intros [= <-]. destruct o as [old |]; [| done].
  rewrite update_session_fields_custom_id; [done |]. rewrite (Ho old); done.
Qed.

(** C9, as the code has it.  [on_playerlist_finish] hands every container's
    sessions to [bulk_create] with [custom_id] as the conflict target and
    the container's field list as the columns to update.  On a table with
    one row per [custom_id], while the database accepts every batch: if
    every container names at least one column, the handler ends normally,
    the table keeps one row per [custom_id], holding the identifiers stored
    before and those of the event's sessions, and handling the same event
    again changes nothing; a column is taken from the last session with the
    identifier whose container names it; a column no container names for a
    stored identifier keeps its stored value; and a new identifier is stored
    as its first session, up to the columns later sessions name.  If a
    container names no column, the handler raises [ValueError] at the first
    such container, with the containers before it stored and that one and
    the later ones not. *)
Theorem playerlist_finish_upserts_named_columns (E : Env)
    (ev : PlayerlistParseFinish) (w : World) :
  NoDup (custom_id <$> player_sessions w) →
  (∀ rows table, bulk_create_error E rows table = None) →
  let r := on_playerlist_finish E ev w in
  let stored := player_sessions (r_world r) in
  ((∀ c, c ∈ ppf_containers ev → ctr_fields c ≠ []) →
   r_res r = inr tt
   ∧ NoDup (custom_id <$> stored)
   ∧ (∀ k, k ∈ custom_id <$> stored
           ↔ k ∈ custom_id <$> player_sessions w
             ∨ ∃ c s, c ∈ ppf_containers ev ∧ s ∈ ctr_player_sessions c
                      ∧ custom_id s = k)
   ∧ on_playerlist_finish E ev (r_world r) = r
   ∧ (∀ before fields s after f,
        upserts_of ev = before ++ (fields, s) :: after →
        f ∈ fields →
        (∀ op, op ∈ after → custom_id op.2 = custom_id s → f ∉ op.1) →
        ∃ row, row ∈ stored ∧ custom_id row = custom_id s
               ∧ column f row = column f s)
   ∧ (∀ old f,
        old ∈ player_sessions w →
        (∀ op, op ∈ upserts_of ev → custom_id op.2 = custom_id old → f ∉ op.1) →
        ∃ row, row ∈ stored ∧ custom_id row = custom_id old
               ∧ column f row = column f old)
   ∧ (∀ before fields s after f,
        upserts_of ev = before ++ (fields, s) :: after →
        custom_id s ∉ custom_id <$> player_sessions w →
        (∀ op, op ∈ before → custom_id op.2 ≠ custom_id s) →
        (∀ op, op ∈ after → custom_id op.2 = custom_id s → f ∉ op.1) →
        ∃ row, row ∈ stored ∧ custom_id row = custom_id s
               ∧ column f row = column f s))
  ∧ (∀ done c rest,
       ppf_containers ev = done ++ c :: rest →
       (∀ c', c' ∈ done → ctr_fields c' ≠ []) →
       ctr_fields c = [] →
       r_res r = inl ValueError
       ∧ stored
         = player_sessions
             (r_world (on_playerlist_finish E (mkPlayerlistParseFinish done) w))).
Proof.
  intros Hnd Hdb. cbv zeta. split.
  - intros Hfields. rewrite (on_playerlist_finish_run E ev w Hfields Hdb).
    cbn [r_res r_world player_sessions].
    pose proof (apply_upserts_find (upserts_of ev) (player_sessions w)) as Hfind.
    assert (Hstored : ∀ k y,
              foldl (upsert_row k) (find_row k (player_sessions w)) (upserts_of ev)
              = Some y →
              y ∈ apply_upserts (upserts_of ev) (player_sessions w)).
    { intros k y Hy. rewrite <- Hfind in Hy. by apply find_row_Some in Hy as [? _]. }
    assert (Hkey : ∀ k x, find_row k (player_sessions w) = Some x → custom_id x = k).
    { intros k x Hx. by apply find_row_Some in Hx as [_ ?]. }
    split; [done |]. split; [by apply apply_upserts_NoDup |]. split_and!.
    + intros k. rewrite apply_upserts_keys. unfold upserts_of. split.
      * intros [? | ([fs s] & Hop & Hid)]; [by left |]. right.
        apply list_elem_of_bind in Hop as (c & Hs & Hc).
        apply list_elem_of_fmap in Hs as (s' & [= -> ->] & Hs').
        by exists c, s'.
      * intros [? | (c & s & Hc & Hs & Hid)]; [by left |]. right.
        exists (ctr_fields c, s). split; [| done].
        apply list_elem_of_bind. exists c. split; [| done].
        apply list_elem_of_fmap. by exists s.
    + rewrite (on_playerlist_finish_run E ev _ Hfields Hdb).
      cbn [bot guild_configs player_sessions uuid_calls].
      by rewrite apply_upserts_idemp.
    + intros before fields s after f Hops Hf Hafter.
      destruct (upsert_row_writes (custom_id s) f
                  (foldl (upsert_row (custom_id s)) (find_row (custom_id s) (player_sessions w)) before)
                  fields s eq_refl) as (y & Hy & Hyid & Hycol).
      { intros x Hx. eapply foldl_upsert_row_id; [| exact Hx]. apply Hkey. }
      { by left. }
      destruct (foldl_upsert_row_keeps (custom_id s) f after y Hyid Hafter)
        as (z & Hz & Hzid & Hzcol).
      exists z. split_and!; [| done | congruence].
      apply (Hstored (custom_id s)). rewrite Hops, foldl_app. cbn [foldl]. by rewrite Hy.
    + intros old f Hold Hnone.
      destruct (foldl_upsert_row_keeps (custom_id old) f (upserts_of ev) old
                  eq_refl Hnone) as (z & Hz & Hzid & Hzcol).
      exists z. split_and!; [| done | done].
      apply (Hstored (custom_id old)). by rewrite (find_row_elem _ old Hnd Hold).
    + intros before fields s after f Hops Hnew Hbefore Hafter.
      assert (Hnone : foldl (upsert_row (custom_id s)) (find_row (custom_id s) (player_sessions w)) before
                      = None).
      { rewrite (find_row_None _ _ Hnew). by apply foldl_upsert_row_untouched. }
      destruct (upsert_row_writes (custom_id s) f None fields s eq_refl) as (y & Hy & Hyid & Hycol);
        [done | by right |].
      destruct (foldl_upsert_row_keeps (custom_id s) f after y Hyid Hafter)
        as (z & Hz & Hzid & Hzcol).
      exists z. split_and!; [| done | congruence].
      apply (Hstored (custom_id s)). rewrite Hops, foldl_app. cbn [foldl]. by rewrite Hnone, Hy.
  - intros done c rest Hsplit Hdone Hempty.
    rewrite (on_playerlist_finish_run E (mkPlayerlistParseFinish done) w Hdone Hdb).
    cbn [r_world player_sessions].
    unfold on_playerlist_finish. rewrite Hsplit.
    clear Hsplit Hnd. revert w. induction done as [| c' done IH]; intros w.
    + cbn [app]. rewrite for_each_cons.
      unfold PlayerSession_bulk_create at 1 2 3. rewrite Hempty.
      cbn [bulk_create_args_ok negb r_res r_world r_log player_sessions]. done.
    + cbn [app]. rewrite for_each_cons.
      rewrite PlayerSession_bulk_create_ok;
        [| apply Hdone, elem_of_cons; by left | apply Hdb].
      cbn [r_res r_world r_log].
      destruct (IH (λ c'' Hc'', Hdone c'' (proj2 (elem_of_cons _ _ _) (or_intror Hc'')))
                  (mkWorld (bot w) (guild_configs w)
                     (apply_upserts ((λ s, (ctr_fields c', s)) <$> ctr_player_sessions c')
                        (player_sessions w))
                     (uuid_calls w))) as [IHres IHtable].
      rewrite IHres, IHtable. cbn [player_sessions]. split; [done |].
      change (c' :: done) with ([c'] ++ done).
      rewrite upserts_of_app, apply_upserts_app. f_equal.
      unfold upserts_of. cbn [ppf_containers]. rewrite bind_cons.
      change (([] : list Container) ≫= _)
        with (@nil (list SessionField * PlayerSession)).
      by rewrite app_nil_r.
Qed.

Lemma playerlist_finish_upserts_named_columns_witness :
  on_playerlist_finish demo_env demo_finish_event
    (r_world (on_playerlist_finish demo_env demo_finish_event demo_start_world))
  = on_playerlist_finish demo_env demo_finish_event demo_start_world
  ∧ ∃ row, row ∈ player_sessions
                   (r_world (on_playerlist_finish demo_env demo_finish_event
                               demo_start_world))
           ∧ custom_id row = 1
           ∧ column F_online row = CBool false.
Proof.
  assert (Hnd : NoDup (custom_id <$> player_sessions demo_start_world)).
  { apply (bool_decide_unpack _). vm_compute. exact I. }
  destruct (playerlist_finish_upserts_named_columns demo_env demo_finish_event
              demo_start_world Hnd (λ _ _, eq_refl)) as [Hok _].
  destruct Hok as (_ & _ & _ & Hidem & Hlast & _).
  { intros c Hc. apply list_elem_of_singleton in Hc as ->. done. }
  split; [exact Hidem |].
  apply (Hlast [] [F_online; F_last_seen] (mkPlayerSession 1 "1" "A" false demo_now)
           [([F_online; F_last_seen], mkPlayerSession 3 "1" "C" true demo_now)]
           F_online eq_refl).
  - apply elem_of_cons. by left.
  - intros op Hop Hid. apply list_elem_of_singleton in Hop as ->. discriminate Hid.
Defined.

(** C9, as stated, fails: a container that names no column to update makes
    [bulk_create] raise [ValueError], and its session, whose identifier is
    not stored, is not stored either. *)
Lemma playerlist_finish_rejects_empty_field_list :
  bulk_create_error demo_env
    (ctr_player_sessions (mkContainer [mkPlayerSession 9 "1" "Z" true demo_now] []))
    (player_sessions demo_start_world) = None
  ∧ (9 ∉ custom_id <$> player_sessions demo_start_world)
  ∧ on_playerlist_finish demo_env demo_unnamed_fields_event demo_start_world
    = mkRun demo_start_world [] (inl ValueError).
Proof.
  split_and!.
  - reflexivity.
  - apply (bool_decide_unpack _). vm_compute. exact I.
  - vm_compute. reflexivity.
Qed.

(** C10. [start], run with an empty live-playerlist store and getting
    through: a guild is in the store's set for a realm exactly when some
    stored configuration has that guild id and that realm id, a premium
    code, a playerlist channel, and [live_playerlist] set.  When [start]
    stops early the store is as it was; it gets through when each [int] it
    evaluates succeeds. *)
Theorem start_seeds_live_playerlist_store (E : Env) (utcnow : Z) (w : World) :
  live_playerlist_store (bot w) = ∅ →
  let r := start E utcnow w in
  (r_res r = inr tt →
   ∀ realm g,
     g ∈ live_playerlist_store (bot (r_world r)) !!! realm
     ↔ ∃ c, c ∈ guild_configs w
            ∧ guild_id c = g
            ∧ cfg_realm_id c = Some realm
            ∧ premium_code c ≠ None
            ∧ playerlist_chan c ≠ None
            ∧ live_playerlist c = true)
  ∧ (r_res r ≠ inr tt →
     live_playerlist_store (bot (r_world r)) = live_playerlist_store (bot w))
  ∧ ((∀ s, s ∈ player_sessions w → online s = true →
        (utcnow - five_minutes ≤ last_seen s)%Z → is_Some (py_int E (realm_id s))) →
     (TEST_MODE E = false →
      ∀ k, k ∈ redis_missing_realm_keys E →
        is_Some (py_int E (removeprefix "missing-realm-" k))) →
     r_res r = inr tt).
Proof.
  intros Hempty. cbv zeta.
  destruct (start_phases E utcnow w) as [Hw Hr].
  destruct (start_offline_frame E utcnow w) as (O1 & _ & _ & O4).
  pose proof (seed_players_frame E
    (filter (λ s, online s = true) (player_sessions (start_sessions utcnow w)))
    (start_sessions utcnow w)) as (S1 & _ & S3).
  fold (start_seeded E utcnow w) in S1, S3. simpl in S1, S3.
  split; [| split]; [| | apply start_total].
  - rewrite Hw, Hr.
    destruct (r_res (start_seeded E utcnow w)) as [e | []]; [done |].
    destruct (r_res (start_offline E utcnow w)) as [e | []]; [done |].
    intros _ realm g.
    match goal with |- context [for_each seed_live_subscriber ?l ?w0] =>
      pose proof (seed_live_subscribers_run l w0) as (_ & _ & _ & _ & L5) end.
    simpl in L5. rewrite L5, O4, S3, Hempty, lookup_total_empty, O1, S1. clear L5.
    split.
    + intros [Hg | (c & Hc & Hrealm & Hgid)]; [by apply not_elem_of_empty in Hg |].
      apply list_elem_of_filter in Hc as [Hlive Hc].
      unfold is_live_subscriber in Hlive.
      repeat (apply andb_prop in Hlive as [Hlive ?]).
      exists c. repeat split; try done; by eapply bool_decide_eq_true_1.
    + intros (c & Hc & Hgid & Hrealm & Hp & Hchan & Hlive).
      right. exists c. split; [| done].
      apply list_elem_of_filter. split; [| done].
      unfold is_live_subscriber. rewrite Hlive.
      rewrite !bool_decide_eq_true_2; [done | done | congruence | done].
  - rewrite Hw, Hr.
    destruct (r_res (start_seeded E utcnow w)) as [e | []]; [by rewrite S3 |].
    destruct (r_res (start_offline E utcnow w)) as [e | []]; [by rewrite O4, S3 |].
    match goal with |- context [for_each seed_live_subscriber ?l ?w0] =>
      pose proof (seed_live_subscribers_run l w0) as (_ & _ & _ & L4 & _) end.
    simpl in L4. rewrite L4. done.
Qed.

Lemma start_seeds_live_playerlist_store_witness :
  live_playerlist_store (bot demo_start_world) = ∅
  ∧ r_res (start demo_env demo_now demo_start_world) = inr tt
  ∧ (10 ∈ live_playerlist_store
            (bot (r_world (start demo_env demo_now demo_start_world))) !!! "1"
     ↔ ∃ c, c ∈ guild_configs demo_start_world
            ∧ guild_id c = 10
            ∧ cfg_realm_id c = Some "1"
            ∧ premium_code c ≠ None
            ∧ playerlist_chan c ≠ None
            ∧ live_playerlist c = true).
Proof.
  split; [reflexivity |].
  destruct (start_seeds_live_playerlist_store demo_env demo_now
              demo_start_world eq_refl) as (Hiff & _ & _).
  split; [vm_compute; reflexivity |].
  apply Hiff. vm_compute. reflexivity.
Defined.

(** * Further properties of [exts/pl_event_handling.py] *)

Lemma resolve_frame E realm p w :
  let w' := (resolve E realm p w).2 in
  guild_configs w' = guild_configs w
  ∧ player_sessions w' = player_sessions w
  ∧ fetch_devices_for (bot w') = fetch_devices_for (bot w)
  ∧ online_cache (bot w') = online_cache (bot w)
  ∧ live_playerlist_store (bot w') = live_playerlist_store (bot w).
Proof.
  unfold resolve, uuid_cache_getitem.
  by destruct (uuid_cache (bot w) !! realm_xuid_key realm p).
Qed.

Lemma build_sessions_frame E ev ps w :
  let w' := (build_sessions E ev ps w).2 in
  guild_configs w' = guild_configs w
  ∧ player_sessions w' = player_sessions w
  ∧ fetch_devices_for (bot w') = fetch_devices_for (bot w)
  ∧ online_cache (bot w') = online_cache (bot w)
  ∧ live_playerlist_store (bot w') = live_playerlist_store (bot w).
Proof.
  revert w. induction ps as [| p ps IH]; intros w; [done |]. cbn [build_sessions].
  pose proof (resolve_frame E (lps_realm_id ev) p w) as (H1 & H2 & H3 & H4 & H5).
  destruct (resolve E (lps_realm_id ev) p w) as [cid w1]. cbn [snd] in *.
  specialize (IH w1). destruct (build_sessions E ev ps w1) as [rows w2].
  cbn [snd] in *. destruct IH as (I1 & I2 & I3 & I4 & I5).
  by rewrite I1, I2, I3, I4, I5.
Qed.

(** The participants whose rows are online are the event's [joined] set. *)
Lemma online_rows_are_joined E ev w :
  list_to_set (xuid <$> filter (λ p, online p = true) (live_player_sessions E ev w).1)
  = lps_joined ev.
Proof.
  apply set_eq. intros p. rewrite elem_of_list_to_set, list_elem_of_fmap.
  unfold live_player_sessions. split.
  - intros (r & -> & Hr). apply list_elem_of_filter in Hr as [Hon Hr].
    destruct (build_sessions_row E ev _ w r Hr) as [Heq _].
    rewrite Heq in Hon. cbn [online] in Hon. by apply bool_decide_eq_true_1 in Hon.
  - intros Hp.
    assert (Hin : p ∈ xuid <$> (build_sessions E ev
                     (elements (lps_joined ev ∪ lps_left ev)) w).1).
    { rewrite build_sessions_xuid. apply elem_of_elements, elem_of_union. by left. }
    apply list_elem_of_fmap in Hin as (r & -> & Hr).
    exists r. split; [done |]. apply list_elem_of_filter. split; [| done].
    destruct (build_sessions_row E ev _ w r Hr) as [Heq _].
    rewrite Heq. cbn [online]. by apply bool_decide_eq_true_2.
Qed.

Lemma bind_eq {A B : Type} (m : M A) (k : A → M B) w :
  bind m k w
  = match r_res (m w) with
    | inl e => mkRun (r_world (m w)) (r_log (m w)) (inl e)
    | inr a =>
        mkRun (r_world (k a (r_world (m w))))
              (r_log (m w) ++ r_log (k a (r_world (m w))))
              (r_res (k a (r_world (m w))))
    end.
Proof. reflexivity. Qed.

Lemma run_live_player_sessions_eq E ev w :
  run_live_player_sessions E ev w
  = mkRun (live_player_sessions E ev w).2 [] (inr (live_player_sessions E ev w).1).
Proof.
  unfold run_live_player_sessions. by destruct (live_player_sessions E ev w).
Qed.

Lemma call_fill_in_gamertags_for_sessions_eq E rows bypass w :
  call_fill_in_gamertags_for_sessions E rows bypass w
  = mkRun w [AFillInGamertags rows bypass]
          (fill_in_gamertags_for_sessions E rows bypass).
Proof.
  unfold call_fill_in_gamertags_for_sessions, bind, emit, lift_res.
  cbn [r_res r_world r_log].
  by destruct (fill_in_gamertags_for_sessions E rows bypass).
Qed.

(** [on_live_playerlist_send] up to the first call that can fail. *)
Lemma on_live_playerlist_send_head E ev w :
  let rows := (live_player_sessions E ev w).1 in
  let w1 := (live_player_sessions E ev w).2 in
  let bypass : gset string :=
    if decide (lps_realm_id ev ∈ fetch_devices_for (bot w))
    then lps_joined ev else ∅ in
  ∃ rest,
    r_log (on_live_playerlist_send E ev w) = AFillInGamertags rows bypass :: rest
    ∧ (∀ e, fill_in_gamertags_for_sessions E rows bypass = inl e →
         on_live_playerlist_send E ev w
         = mkRun w1 [AFillInGamertags rows bypass] (inl e))
    ∧ (∀ players, fill_in_gamertags_for_sessions E rows bypass = inr players →
         py_int E (lps_realm_id ev) = None →
         on_live_playerlist_send E ev w
         = mkRun w1 [AFillInGamertags rows bypass] (inl ValueError)).
Proof.
  cbv zeta.
  pose proof (online_rows_are_joined E ev w) as Hjoined.
  pose proof (build_sessions_frame E ev (elements (lps_joined ev ∪ lps_left ev)) w)
    as (_ & _ & Hfd & _ & _). fold (live_player_sessions E ev w) in Hfd.
  remember (on_live_playerlist_send E ev w) as h eqn:Hh.
  unfold on_live_playerlist_send in Hh.
  rewrite bind_eq, run_live_player_sessions_eq in Hh. cbn [r_res r_world r_log] in Hh.
  rewrite bind_eq in Hh. unfold get_world in Hh. cbn [r_res r_world r_log] in Hh.
  rewrite Hfd, Hjoined in Hh.
  set (rows := (live_player_sessions E ev w).1) in *.
  set (w1 := (live_player_sessions E ev w).2) in *.
  set (bypass := if decide (lps_realm_id ev ∈ fetch_devices_for (bot w))
                 then lps_joined ev else ∅) in *.
  rewrite bind_eq, call_fill_in_gamertags_for_sessions_eq in Hh.
  cbn [r_res r_world r_log] in Hh.
  destruct (fill_in_gamertags_for_sessions E rows bypass) as [e | players].
  - subst h. eexists. split; [reflexivity |]. split; [| done]. by intros e' [= <-].
  - rewrite bind_eq in Hh. unfold int_of_str in Hh.
    destruct (py_int E (lps_realm_id ev)) as [rid |];
      cbn [r_res r_world r_log raise ret app] in Hh; subst h; cbn [r_log].
    + eexists. split; [reflexivity |]. split; [done |]. by intros ? _ [=].
    + eexists. split; [reflexivity |]. split; [done |]. by intros ? [= <-] _.
Qed.

(** X1. The first call [on_live_playerlist_send] makes is the gamertag
    lookup for the session rows it has built; it asks to bypass the cache for
    exactly the participants who joined when the realm is in
    [fetch_devices_for], and for nobody otherwise. *)
Theorem live_update_bypasses_cache_for_joined (E : Env) (ev : LivePlayerlistSend)
    (w : World) :
  ∃ rest,
    r_log (on_live_playerlist_send E ev w)
    = AFillInGamertags (live_player_sessions E ev w).1
        (if decide (lps_realm_id ev ∈ fetch_devices_for (bot w))
         then lps_joined ev else ∅)
      :: rest.
Proof.
  destruct (on_live_playerlist_send_head E ev w) as (rest & Hlog & _).
  by exists rest.
Qed.

(** X2. When the gamertag lookup raises, or when it returns and the realm id
    is not an integer, [on_live_playerlist_send] raises (the lookup's
    exception, or [ValueError]) with the lookup as its only call: no
    subscriber is read or written to, and the stored configurations and the
    subscriber store are as before. *)
Theorem live_update_aborts_before_dispatch (E : Env) (ev : LivePlayerlistSend)
    (w : World) :
  let rows := (live_player_sessions E ev w).1 in
  let bypass : gset string :=
    if decide (lps_realm_id ev ∈ fetch_devices_for (bot w))
    then lps_joined ev else ∅ in
  let r := on_live_playerlist_send E ev w in
  (∀ e, fill_in_gamertags_for_sessions E rows bypass = inl e →
     r_res r = inl e
     ∧ r_log r = [AFillInGamertags rows bypass]
     ∧ guild_configs (r_world r) = guild_configs w
     ∧ live_playerlist_store (bot (r_world r)) = live_playerlist_store (bot w))
  ∧ (∀ players, fill_in_gamertags_for_sessions E rows bypass = inr players →
       py_int E (lps_realm_id ev) = None →
       r_res r = inl ValueError
       ∧ r_log r = [AFillInGamertags rows bypass]
       ∧ guild_configs (r_world r) = guild_configs w
       ∧ live_playerlist_store (bot (r_world r)) = live_playerlist_store (bot w)).
Proof.
  cbv zeta.
  destruct (on_live_playerlist_send_head E ev w) as (rest & _ & Hfill & Hint).
  pose proof (build_sessions_frame E ev (elements (lps_joined ev ∪ lps_left ev)) w)
    as (Hc & _ & _ & _ & Hs). fold (live_player_sessions E ev w) in Hc, Hs.
  split.
  - intros e He. by rewrite (Hfill e He).
  - intros players Hp Hi. by rewrite (Hint players Hp Hi).
Qed.

Lemma live_update_aborts_before_dispatch_witness :
  r_res (on_live_playerlist_send demo_env_lookup_down demo_live_event demo_world)
  = inl HTTPException.
Proof.
  destruct (live_update_aborts_before_dispatch demo_env_lookup_down
              demo_live_event demo_world) as [Hraise _].
  destruct (Hraise HTTPException eq_refl) as [Hres _]. exact Hres.
Defined.


(** X3. In the loop of [on_live_playerlist_send], the turn of a subscriber
    that has a premium code but no playerlist channel makes no call: it takes
    the guild out of the realm's subscriber set, leaving the sets of other
    realms alone, and stores the configuration with [live_playerlist] off,
    leaving the rows of other guilds alone. *)
Theorem live_subscriber_without_channel_is_switched_off (E : Env) (realm : string)
    (embed : Embed) (g : Z) (w : World) (c : GuildConfig) :
  config_rows g (guild_configs w) = [c] →
  premium_code c ≠ None →
  truthy_id (playerlist_chan c) = false →
  let r := live_send_one E realm embed g w in
  r_res r = inr tt
  ∧ r_log r = []
  ∧ live_playerlist_store (bot (r_world r)) !!! realm
    = live_playerlist_store (bot w) !!! realm ∖ {[g]}
  ∧ (∀ realm', realm' ≠ realm →
       live_playerlist_store (bot (r_world r)) !!! realm'
       = live_playerlist_store (bot w) !!! realm')
  ∧ config_rows g (guild_configs (r_world r)) = [set_cfg_live_playerlist false c]
  ∧ (∀ g', g' ≠ g →
       config_rows g' (guild_configs (r_world r)) = config_rows g' (guild_configs w)).
Proof.
  intros Hrows Hpremium Hchan. cbv zeta.
  assert (Hg : guild_id c = g).
  { apply (config_rows_elem g (guild_configs w)). rewrite Hrows.
    apply elem_of_cons. by left. }
  unfold live_send_one, bind, GuildConfig_get. rewrite Hrows.
  cbn [r_res r_world r_log].
  destruct (premium_code c) as [code |] eqn:Hp; [| done]. cbn [truthy_obj negb].
  rewrite Hchan. cbn [negb].
  unfold live_store_discard, live_store_getitem, bind, modify_bot, config_save.
  pose proof (defaultdict_set_getitem_fst (live_playerlist_store (bot w)) realm) as H1.
  pose proof (defaultdict_set_getitem_snd (live_playerlist_store (bot w)) realm) as H2.
  destruct (defaultdict_set_getitem (live_playerlist_store (bot w)) realm) as [s d].
  cbn [fst snd] in H1, H2. subst s.
  cbn [r_res r_world r_log bot set_bot guild_configs live_playerlist_store
       set_live_playerlist_store app guild_id set_cfg_live_playerlist].
  split_and!; try done.
  - by rewrite lookup_total_insert_eq.
  - intros realm' Hne. rewrite lookup_total_insert_ne by done. apply H2.
  - unfold config_rows in *. rewrite Hg.
    assert (Hmap : ∀ table : list GuildConfig,
              filter (λ c0, guild_id c0 = g)
                ((λ r, if decide (guild_id r = g)
                       then set_cfg_live_playerlist false c else r) <$> table)
              = (λ _, set_cfg_live_playerlist false c)
                  <$> filter (λ c0, guild_id c0 = g) table).
    { induction table as [| t table IH]; [done |]. rewrite fmap_cons.
      destruct (decide (guild_id t = g)) as [Ht | Ht].
      - rewrite !filter_cons_True by done. rewrite fmap_cons. by f_equal.
      - rewrite !filter_cons_False by done. exact IH. }
    rewrite Hmap, Hrows. done.
  - intros g' Hne. rewrite Hg. apply config_rows_save; [done | congruence].
Qed.

Lemma live_subscriber_without_channel_is_switched_off_witness :
  config_rows 70 (guild_configs demo_unchanneled_world) = [demo_unchanneled_config]
  ∧ premium_code demo_unchanneled_config ≠ None
  ∧ truthy_id (playerlist_chan demo_unchanneled_config) = false
  ∧ live_playerlist_store
      (bot (r_world (live_send_one demo_env "1" demo_embed 70 demo_unchanneled_world)))
      !!! "1"
    = live_playerlist_store (bot demo_unchanneled_world) !!! "1" ∖ {[ 70 ]}.
Proof.
  assert (Hp : premium_code demo_unchanneled_config ≠ None) by discriminate.
  split; [reflexivity |]. split; [exact Hp |]. split; [reflexivity |].
  apply (live_subscriber_without_channel_is_switched_off demo_env "1" demo_embed 70
           demo_unchanneled_world demo_unchanneled_config eq_refl Hp eq_refl).
Defined.

Lemma build_sessions_from_cache E ev ps w :
  (build_sessions E ev ps w).1
  = rows_from_cache (uuid_cache (bot (build_sessions E ev ps w).2)) ev ps.
Proof.
  revert w. induction ps as [| p ps IH]; intros w; [done |].
  cbn [build_sessions]. unfold rows_from_cache. rewrite fmap_cons.
  pose proof (uuid_cache_getitem_lookup E (realm_xuid_key (lps_realm_id ev) p) w) as Hl.
  fold (resolve E (lps_realm_id ev) p w) in Hl.
  destruct (resolve E (lps_realm_id ev) p w) as [cid w1]. cbn [fst snd] in Hl.
  pose proof (build_sessions_cache_mono E ev ps w1 _ _ Hl) as Hm.
  specialize (IH w1). destruct (build_sessions E ev ps w1) as [rows w2].
  cbn [fst snd] in *. rewrite Hm. cbn [default]. f_equal. exact IH.
Qed.

Lemma build_sessions_hit E ev ps w :
  (∀ p, p ∈ ps → is_Some (uuid_cache (bot w) !! realm_xuid_key (lps_realm_id ev) p)) →
  build_sessions E ev ps w = (rows_from_cache (uuid_cache (bot w)) ev ps, w).
Proof.
  induction ps as [| p ps IH]; intros Hall; [done |].
  cbn [build_sessions]. unfold rows_from_cache. rewrite fmap_cons.
  destruct (Hall p) as [cid Hcid]; [apply elem_of_cons; by left |].
  unfold resolve. rewrite (uuid_cache_getitem_hit E _ w cid Hcid).
  rewrite IH by (intros q Hq; apply Hall, elem_of_cons; by right).
  by rewrite Hcid.
Qed.

(** X4. Building the session rows of the same live update again, in the
    state the first build left, gives the same rows and changes nothing: no
    identifier is drawn a second time. *)
Theorem live_sessions_rebuild_is_stable (E : Env) (ev : LivePlayerlistSend)
    (w : World) :
  live_player_sessions E ev (live_player_sessions E ev w).2
  = live_player_sessions E ev w.
Proof.
  unfold live_player_sessions.
  set (ps := elements (lps_joined ev ∪ lps_left ev)).
  rewrite build_sessions_hit.
  - rewrite <- build_sessions_from_cache. by destruct (build_sessions E ev ps w).
  - intros p Hp.
    assert (Hin : p ∈ xuid <$> (build_sessions E ev ps w).1)
      by by rewrite build_sessions_xuid.
    apply list_elem_of_fmap in Hin as (r & -> & Hr).
    destruct (build_sessions_row E ev ps w r Hr) as [_ Hc]. by eexists.
Qed.

Lemma delivery_config E c before m a :
  (∀ chan b, b ∈ before chan → action_config b = Some c) →
  a ∈ (delivery E c before m).1 → action_config a = Some c.
Proof.
  intros Hbefore. unfold delivery.
  assert (Hlog : ∀ e, a ∈ delivery_handler_log c e → action_config a = Some c).
  { intros e Ha. destruct e; cbn in Ha; try (by apply elem_of_nil in Ha).
    by apply list_elem_of_singleton in Ha as ->. }
  destruct (fetch_playerlist_channel E c) as [e | chan]; cbn [fst].
  - intros [-> | Ha]%elem_of_cons; [done | by apply (Hlog e)].
  - destruct (chan_send E chan (m chan)) as [e |]; cbn [fst].
    + intros [-> | Ha]%elem_of_cons; [done |].
      apply elem_of_app in Ha as [Ha | Ha]; [by apply (Hbefore chan) |].
      apply elem_of_cons in Ha as [-> | Ha]; [done | by apply (Hlog e)].
    + intros [-> | Ha]%elem_of_cons; [done |].
      apply elem_of_app in Ha as [Ha | Ha]; [by apply (Hbefore chan) |].
      by apply list_elem_of_singleton in Ha as ->.
Qed.

(** What a call in the turn of [c] says about [c] and the environment. *)
Lemma down_dest_elem E ts c a :
  a ∈ (down_dest E ts c).1 →
  truthy_id (playerlist_chan c) = true
  ∧ truthy_id (realm_offline_role c) = true
  ∧ get_guild E (guild_id c) = true
  ∧ (a = AFetchRole (guild_id c) (default 0 (realm_offline_role c))
     ∨ action_config a = Some c)
  ∧ (∀ c', a = AEventuallyInvalidateRealmOffline c' →
       c' = c
       ∧ ∃ role chan,
           fetch_role E (guild_id c) (default 0 (realm_offline_role c)) = inr role
           ∧ fetch_playerlist_channel E c = inr chan
           ∧ cannot_ping E (guild_id c) chan role = true).
Proof.
  unfold down_dest.
  destruct (truthy_id (playerlist_chan c)); cbn [negb orb];
    [| intros Ha; by apply elem_of_nil in Ha].
  destruct (truthy_id (realm_offline_role c)); cbn [negb];
    [| intros Ha; by apply elem_of_nil in Ha].
  destruct (get_guild E (guild_id c)); cbn [negb];
    [| intros Ha; by apply elem_of_nil in Ha].
  cbv zeta.
  destruct (fetch_role E (guild_id c) (default 0 (realm_offline_role c)))
    as [e | role]; cbn [fst].
  - intros Ha. apply list_elem_of_singleton in Ha as ->.
    split_and!; try done; by left.
  - intros [-> | Ha]%elem_of_cons.
    { split_and!; try done; by left. }
    split_and!; try done.
    + right. eapply delivery_config; [| exact Ha].
      intros chan b. cbv beta.
      destruct (cannot_ping E (guild_id c) chan role);
        [by intros ->%list_elem_of_singleton | by intros ?%elem_of_nil].
    + intros c' ->. revert Ha. unfold delivery.
      assert (Hlog : ∀ e, AEventuallyInvalidateRealmOffline c'
                          ∉ delivery_handler_log c e).
      { intros e Ha. destruct e; cbn in Ha; try (by apply elem_of_nil in Ha).
        by apply list_elem_of_singleton in Ha. }
      destruct (fetch_playerlist_channel E c) as [e | chan]; cbn [fst].
      { intros [[=] | Ha]%elem_of_cons. by apply Hlog in Ha. }
      assert (Hbefore :
                AEventuallyInvalidateRealmOffline c'
                ∈ (if cannot_ping E (guild_id c) chan role
                   then [AEventuallyInvalidateRealmOffline c] else []) →
                c' = c ∧ cannot_ping E (guild_id c) chan role = true).
      { destruct (cannot_ping E (guild_id c) chan role).
        - by intros [= ->]%list_elem_of_singleton.
        - by intros ?%elem_of_nil. }
      destruct (chan_send E chan _) as [e |]; cbn [fst].
      * intros [[=] | Ha]%elem_of_cons.
        apply elem_of_app in Ha as [Ha | Ha].
        -- destruct (Hbefore Ha) as [-> Hp]. split; [done |]. by exists role, chan.
        -- apply elem_of_cons in Ha as [[=] | Ha]. by apply Hlog in Ha.
      * intros [[=] | Ha]%elem_of_cons.
        apply elem_of_app in Ha as [Ha | Ha].
        -- destruct (Hbefore Ha) as [-> Hp]. split; [done |]. by exists role, chan.
        -- by apply list_elem_of_singleton in Ha.
Qed.

(** X5. Every call [realm_down] makes about a configuration is about a
    configuration of the event that has a playerlist channel and an offline
    role and whose guild is cached; a configuration of the event that lacks
    one of the three is named by no call. *)
Theorem realm_down_contacts_only_configured (E : Env) (ev : RealmDown) (w : World) :
  let r := realm_down E ev w in
  (∀ a c, a ∈ r_log r → action_config a = Some c →
     c ∈ rd_configs ev
     ∧ truthy_id (playerlist_chan c) = true
     ∧ truthy_id (realm_offline_role c) = true
     ∧ get_guild E (guild_id c) = true)
  ∧ (∀ c, truthy_id (playerlist_chan c) = false
          ∨ truthy_id (realm_offline_role c) = false
          ∨ get_guild E (guild_id c) = false →
       ∀ a, a ∈ r_log r → action_config a ≠ Some c).
Proof.
  cbv zeta. rewrite realm_down_run. cbn [r_log r_world].
  assert (Hcalls : ∀ a c,
            a ∈ (if decide (live_playerlist_store (bot w) !!! rd_realm_id ev = ∅)
                 then []
                 else [ADispatch (mkLivePlayerlistSend (rd_realm_id ev) ∅
                                    (rd_disconnected ev) (rd_timestamp ev))])
                ++ r_log (for_each (realm_down_one E (rd_timestamp ev)) (rd_configs ev)
                            (r_world (live_store_getitem (rd_realm_id ev) w))) →
            action_config a = Some c →
            c ∈ rd_configs ev
            ∧ truthy_id (playerlist_chan c) = true
            ∧ truthy_id (realm_offline_role c) = true
            ∧ get_guild E (guild_id c) = true).
  { intros a c [Ha | Ha]%elem_of_app Hc.
    + destruct (decide _); [by apply elem_of_nil in Ha |].
      apply list_elem_of_singleton in Ha as ->. done.
    + apply (for_each_pure_elem _ (down_dest E (rd_timestamp ev))) in Ha
        as (c' & Hc' & Ha); [| intros; apply realm_down_one_run].
      apply down_dest_elem in Ha as (H1 & H2 & H3 & [-> | Hcfg] & _); [done |].
      rewrite Hcfg in Hc. by injection Hc as <-. }
  split; [exact Hcalls |].
  intros c Hlacks a Ha Hc.
  destruct (Hcalls a c Ha Hc) as (_ & H1 & H2 & H3).
  destruct Hlacks as [? | [? | ?]]; congruence.
Qed.

(** X6. [realm_down] calls [eventually_invalidate_realm_offline] for a
    configuration only after the role lookup and the channel fetch have
    returned, and only when the role was not found, or is not mentionable
    while the bot may not mention everyone in the channel. *)
Theorem realm_down_records_unpingable_role_only (E : Env) (ev : RealmDown)
    (w : World) (c : GuildConfig) :
  AEventuallyInvalidateRealmOffline c ∈ r_log (realm_down E ev w) →
  c ∈ rd_configs ev
  ∧ ∃ role chan,
      fetch_role E (guild_id c) (default 0 (realm_offline_role c)) = inr role
      ∧ fetch_playerlist_channel E c = inr chan
      ∧ (role = None
         ∨ ∃ found, role = Some found
                    ∧ role_mentionable found = false
                    ∧ can_mention_everyone E (guild_id c) chan = false).
Proof.
  rewrite realm_down_run. cbn [r_log]. intros [Ha | Ha]%elem_of_app.
  { destruct (decide _); [by apply elem_of_nil in Ha |].
    by apply list_elem_of_singleton in Ha. }
  apply (for_each_pure_elem _ (down_dest E (rd_timestamp ev))) in Ha
    as (c' & Hc' & Ha); [| intros; apply realm_down_one_run].
  apply down_dest_elem in Ha as (_ & _ & _ & _ & Hro).
  destruct (Hro c eq_refl) as (-> & role & chan & Hrole & Hchan & Hping).
  split; [done |]. exists role, chan. split_and!; try done.
  destruct role as [found |]; [right | by left].
  exists found. cbn in Hping. apply andb_prop in Hping as [H1 H2].
  split_and!; [done | by apply negb_true_iff | by apply negb_true_iff].
Qed.

Lemma realm_down_records_unpingable_role_only_witness :
  AEventuallyInvalidateRealmOffline demo_offline_config
  ∈ r_log (realm_down demo_env demo_offline_event demo_world)
  ∧ demo_offline_config ∈ rd_configs demo_offline_event.
Proof.
  assert (Hin : AEventuallyInvalidateRealmOffline demo_offline_config
                ∈ r_log (realm_down demo_env demo_offline_event demo_world)).
  { assert (Hlog : ∃ a b d m,
              r_log (realm_down demo_env demo_offline_event demo_world)
              = [a; b; d; AEventuallyInvalidateRealmOffline demo_offline_config; m]).
    { do 4 eexists. vm_compute. reflexivity. }
    destruct Hlog as (a & b & d & m & ->).
    do 3 (apply elem_of_cons; right). apply elem_of_cons. left. reflexivity. }
  split; [exact Hin |].
  apply (realm_down_records_unpingable_role_only demo_env demo_offline_event
           demo_world demo_offline_config Hin).
Defined.

Lemma config_rows_save_same g (c : GuildConfig) (table : list GuildConfig) :
  guild_id c = g →
  config_rows g ((λ r, if decide (guild_id r = g) then c else r) <$> table)
  = (λ _, c) <$> config_rows g table.
Proof.
  intros Hc. unfold config_rows. induction table as [| t table IH]; [done |].
  rewrite fmap_cons. destruct (decide (guild_id t = g)) as [Ht | Ht].
  - rewrite !filter_cons_True by done. rewrite fmap_cons. by f_equal.
  - rewrite !filter_cons_False by done. exact IH.
Qed.

(** X7. In the loop of [warning_missing_playerlist], the turn of a
    configuration without a playerlist channel makes no call and appends
    [True]: every stored row of the guild becomes the configuration with its
    realm and club unset and [live_playerlist] and [fetch_devices] off, the
    rows of other guilds stay, and the guild leaves the subscriber set of its
    realm when the configuration had a realm and [live_playerlist] on; no
    other subscriber set changes. *)
Theorem warning_unlinks_destination_without_channel (E : Env) (c : GuildConfig)
    (w : World) :
  truthy_id (playerlist_chan c) = false →
  let r := warn_one E c w in
  let g := guild_id c in
  let unlinked :=
    mkGuildConfig g None None (playerlist_chan c) false false
                  (warning_notifications c) (realm_offline_role c) (premium_code c) in
  r_res r = inr true
  ∧ r_log r = []
  ∧ config_rows g (guild_configs (r_world r))
    = (λ _, unlinked) <$> config_rows g (guild_configs w)
  ∧ (∀ g', g' ≠ g →
       config_rows g' (guild_configs (r_world r)) = config_rows g' (guild_configs w))
  ∧ (∀ realm,
       live_playerlist_store (bot (r_world r)) !!! realm
       = if decide (cfg_realm_id c = Some realm ∧ realm ≠ ""
                    ∧ live_playerlist c = true)
         then live_playerlist_store (bot w) !!! realm ∖ {[g]}
         else live_playerlist_store (bot w) !!! realm).
Proof.
  intros Hchan. cbv zeta. unfold warn_one. rewrite Hchan. cbn [negb].
  rewrite !bind_eq.
  assert (Hsave : ∀ w0,
            config_save (unlink_realm c) w0
            = mkRun (mkWorld (bot w0)
                       ((λ r, if decide (guild_id r = guild_id c)
                              then unlink_realm c else r) <$> guild_configs w0)
                       (player_sessions w0) (uuid_calls w0)) [] (inr tt))
    by done.
  destruct (truthy_str (cfg_realm_id c) && live_playerlist c) eqn:Hlive.
  - apply andb_prop in Hlive as [Hrealm Hl].
    destruct (cfg_realm_id c) as [realm0 |] eqn:Hr; [| done].
    cbn [truthy_str] in Hrealm. apply negb_true_iff, String.eqb_neq in Hrealm.
    change (default "" (Some realm0)) with realm0.
    unfold live_store_discard, live_store_getitem, bind, modify_bot.
    pose proof (defaultdict_set_getitem_fst (live_playerlist_store (bot w)) realm0) as H1.
    pose proof (defaultdict_set_getitem_snd (live_playerlist_store (bot w)) realm0) as H2.
    destruct (defaultdict_set_getitem (live_playerlist_store (bot w)) realm0) as [s d].
    cbn [fst snd] in H1, H2. subst s.
    cbn [r_res r_world r_log]. rewrite Hsave.
    cbn [r_res r_world r_log ret bot set_bot guild_configs live_playerlist_store
         set_live_playerlist_store app].
    split_and!; try done.
    + by apply config_rows_save_same.
    + intros g' Hne. by apply config_rows_save.
    + intros realm. destruct (decide (realm0 = realm)) as [<- | Hne].
      * rewrite lookup_total_insert_eq. by rewrite decide_True.
      * rewrite lookup_total_insert_ne by done. rewrite H2.
        rewrite decide_False; [done |]. intros ([= ?] & _). done.
  - cbn [ret r_res r_world r_log]. rewrite Hsave.
    cbn [r_res r_world r_log ret bot guild_configs app].
    split_and!; try done.
    + by apply config_rows_save_same.
    + intros g' Hne. by apply config_rows_save.
    + intros realm. rewrite decide_False; [done |].
      intros (Hr & Hne & Hl). rewrite Hr, Hl in Hlive. cbn in Hlive.
      apply andb_false_iff in Hlive as [Hlive | ?]; [| done].
      apply negb_false_iff, String.eqb_eq in Hlive. done.
Qed.

Lemma warning_unlinks_destination_without_channel_witness :
  truthy_id (playerlist_chan demo_live_unconfigured_config) = false
  ∧ config_rows 55
      (guild_configs (r_world (warn_one demo_env demo_live_unconfigured_config
                                 demo_live_unconfigured_world)))
    = (λ _, mkGuildConfig 55 None None None false false true None
              (Some (mkPremiumCode 3)))
        <$> config_rows 55 (guild_configs demo_live_unconfigured_world).
Proof.
  split; [reflexivity |].
  apply (warning_unlinks_destination_without_channel demo_env
           demo_live_unconfigured_config demo_live_unconfigured_world eq_refl).
Defined.

Lemma warn_one_tables E c w :
  guild_configs (r_world (warn_one E c w))
  = (if truthy_id (playerlist_chan c) then guild_configs w
     else (λ r, if decide (guild_id r = guild_id c) then unlink_realm c else r)
            <$> guild_configs w)
  ∧ player_sessions (r_world (warn_one E c w)) = player_sessions w.
Proof.
  unfold warn_one.
  destruct (truthy_id (playerlist_chan c)); cbn [negb].
  - destruct (negb (warning_notifications c)); [done |].
    destruct (negb (get_guild E (guild_id c))); [done |].
    unfold bind, try_except, suppress_HTTPException, try_except,
      call_eventually_invalidate, call_fetch_playerlist_channel, call_send, bind,
      emit, lift_res, get_world.
    cbn [r_res r_world r_log].
    destruct (fetch_playerlist_channel E c) as [e | chan]; cbn.
    + destruct e; cbn; done.
    + destruct (chan_send E chan _) as [e |]; cbn; [| done].
      destruct e; cbn; done.
  - unfold bind, config_save, live_store_discard, live_store_getitem, bind, modify_bot.
    destruct (truthy_str (cfg_realm_id c) && live_playerlist c); [| done].
    by destruct (defaultdict_set_getitem _ _).
Qed.

Lemma warn_loop_tables E configs w g :
  (∀ c, c ∈ configs → guild_id c = g → truthy_id (playerlist_chan c) = true) →
  config_rows g (guild_configs (r_world (for_collect (warn_one E) configs w)))
  = config_rows g (guild_configs w)
  ∧ player_sessions (r_world (for_collect (warn_one E) configs w)) = player_sessions w.
Proof.
  revert w. induction configs as [| c configs IH]; intros w Hall; [done |].
  rewrite for_collect_cons.
  destruct (warn_one_tables E c w) as [Hc Hs].
  assert (Hstep : config_rows g (guild_configs (r_world (warn_one E c w)))
                  = config_rows g (guild_configs w)).
  { rewrite Hc. destruct (truthy_id (playerlist_chan c)) eqn:Hchan; [done |].
    apply config_rows_save; [done |]. intros Hg.
    assert (Hf : truthy_id (playerlist_chan c) = true)
      by (apply Hall; [apply elem_of_cons; by left | done]).
    congruence. }
  destruct (IH (r_world (warn_one E c w))) as [IHc IHs].
  { intros c' Hc'. apply Hall, elem_of_cons. by right. }
  destruct (r_res (warn_one E c w)); cbn [r_world]; [done |].
  cbv zeta.
  destruct (r_res (for_collect (warn_one E) configs (r_world (warn_one E c w))));
    cbn [r_world]; by rewrite IHc, IHs, Hstep, Hs.
Qed.

(** X8. A guild all of whose configurations in the event have a playerlist
    channel but are passed over, warning notifications being off or the
    guild not cached, is left alone by [warning_missing_playerlist]: no call
    names the guild, and the handler's own saves, which are those of the
    configurations without a channel, leave the guild's stored rows as they
    were. *)
Theorem warning_keeps_configured_destinations (E : Env)
    (ev : WarnMissingPlayerlist) (w : World) (g : Z) :
  (∀ c, c ∈ wmp_configs ev → guild_id c = g →
        truthy_id (playerlist_chan c) = true
        ∧ (warning_notifications c = false ∨ get_guild E (guild_id c) = false)) →
  let r := warning_missing_playerlist E ev w in
  config_rows g (guild_configs (r_world r)) = config_rows g (guild_configs w)
  ∧ ∀ a, a ∈ r_log r → action_guild a ≠ Some g.
Proof.
  intros Hall. cbv zeta. rewrite warning_missing_playerlist_run. cbv zeta.
  destruct (warn_loop_tables E (wmp_configs ev) w g) as [Hc _].
  { intros c Hin Hg. by destruct (Hall c Hin Hg). }
  destruct (warn_loop_run E (wmp_configs ev) w) as (_ & _ & Hin & _).
  cbv zeta in Hin.
  assert (Hloop : ∀ a, a ∈ r_log (for_collect (warn_one E) (wmp_configs ev) w) →
                       action_guild a ≠ Some g).
  { intros a Ha. destruct (Hin a Ha) as (c & Hcin & Hac).
    apply warn_dest_config in Hac as (Hcfg & _ & Hwarn & Hguild & _).
    intros Hg.
    assert (Hgc : guild_id c = g).
    { destruct a; cbn in Hcfg, Hg; try discriminate Hcfg;
        injection Hcfg as ->; by injection Hg. }
    destruct (Hall c Hcin Hgc) as [_ [Hoff | Hoff]]; congruence. }
  assert (Hleave : ∀ a, a ∈ leave_log E (wmp_realm_id ev) → action_guild a ≠ Some g).
  { intros a Ha. unfold leave_log in Ha.
    apply elem_of_cons in Ha as [-> | Ha]; [done |].
    destruct (leave_realm E (wmp_realm_id ev)) as [[] |];
      try (by apply elem_of_nil in Ha).
    destruct (Z.eqb status 404); [| by apply elem_of_nil in Ha].
    apply list_elem_of_singleton in Ha as ->. done. }
  destruct (r_res (for_collect (warn_one E) (wmp_configs ev) w)) as [e | flags];
    cbn [r_world r_log]; [done |].
  destruct (should_drop flags); cbn [r_world r_log set_bot guild_configs].
  - split; [done |]. intros a [Ha | Ha]%elem_of_app; [by apply Hloop | by apply Hleave].
  - split; [done |]. intros a Ha. rewrite app_nil_r in Ha. by apply Hloop.
Qed.

Lemma warning_keeps_configured_destinations_witness :
  config_rows 40
    (guild_configs
       (r_world (warning_missing_playerlist demo_env
                   (mkWarnMissingPlayerlist "1"
                      [demo_live_unconfigured_config; demo_quiet_config])
                   (mkWorld initial_bot
                      [demo_live_unconfigured_config; demo_quiet_config] [] 0))))
  = [demo_quiet_config].
Proof.
  destruct (warning_keeps_configured_destinations demo_env
              (mkWarnMissingPlayerlist "1"
                 [demo_live_unconfigured_config; demo_quiet_config])
              (mkWorld initial_bot
                 [demo_live_unconfigured_config; demo_quiet_config] [] 0) 40)
    as [Hrows _].
  - intros c Hc Hg. apply elem_of_cons in Hc as [-> | Hc]; [discriminate Hg |].
    apply list_elem_of_singleton in Hc as ->. split; [reflexivity | by left].
  - rewrite Hrows. reflexivity.
Defined.

Lemma apply_upserts_prefix ops table :
  (custom_id <$> table) `prefix_of` (custom_id <$> apply_upserts ops table).
Proof.
  revert table. induction ops as [| op ops IH]; intros table; [done |].
  rewrite apply_upserts_cons. etrans; [| apply IH].
  rewrite upsert_by_custom_id_keys. case_decide; [done |].
  by apply prefix_app_r.
Qed.

(** X9. [on_playerlist_finish] makes no call and leaves the bot and the
    stored configurations alone.  On a table with one row per [custom_id] it
    keeps every stored row whose identifier no session of the event carries,
    and it keeps the stored identifiers in their order, new ones coming
    after them: nothing is deleted or moved, however the handler ends. *)
Theorem playerlist_finish_keeps_other_rows (E : Env) (ev : PlayerlistParseFinish)
    (w : World) :
  NoDup (custom_id <$> player_sessions w) →
  let r := on_playerlist_finish E ev w in
  r_log r = []
  ∧ bot (r_world r) = bot w
  ∧ guild_configs (r_world r) = guild_configs w
  ∧ (custom_id <$> player_sessions w)
      `prefix_of` (custom_id <$> player_sessions (r_world r))
  ∧ ∀ t, t ∈ player_sessions w →
      (∀ c s, c ∈ ppf_containers ev → s ∈ ctr_player_sessions c →
              custom_id s ≠ custom_id t) →
      t ∈ player_sessions (r_world r).
Proof.
  intros Hnd. cbv zeta.
  destruct (on_playerlist_finish_partial E ev w)
    as (done & rest & Hsplit & Hw & Hlog & _).
  rewrite Hw, Hlog. cbn [bot guild_configs player_sessions].
  split_and!; try done; [apply apply_upserts_prefix |].
  intros t Ht Hother.
  pose proof (apply_upserts_find (upserts_of (mkPlayerlistParseFinish done))
                (player_sessions w) (custom_id t)) as Hfind.
  rewrite foldl_upsert_row_untouched in Hfind.
  - rewrite (find_row_elem _ t Hnd Ht) in Hfind.
    by apply find_row_Some in Hfind as [? _].
  - intros [fs s] Hop. unfold upserts_of in Hop. cbn [ppf_containers] in Hop.
    apply list_elem_of_bind in Hop as (c & Hs & Hc).
    apply list_elem_of_fmap in Hs as (s' & [= -> ->] & Hs').
    apply (Hother c); [| done]. rewrite Hsplit. apply elem_of_app. by left.
Qed.

Lemma playerlist_finish_keeps_other_rows_witness :
  NoDup (custom_id <$> player_sessions demo_start_world)
  ∧ r_log (on_playerlist_finish demo_env demo_finish_event demo_start_world) = [].
Proof.
  assert (Hnd : NoDup (custom_id <$> player_sessions demo_start_world)).
  { apply (bool_decide_unpack _). vm_compute. exact I. }
  split; [exact Hnd |].
  apply (playerlist_finish_keeps_other_rows demo_env demo_finish_event
           demo_start_world Hnd).
Defined.

(** * Further properties of [main.py] *)

Lemma seed_player_uuid_cache E s w k :
  uuid_cache (bot (r_world (seed_player E s w))) !! k
  = if decide (realm_xuid_id s = k) then Some (custom_id s)
    else uuid_cache (bot w) !! k.
Proof.
  unfold seed_player, bind, modify_bot, int_of_str, online_cache_getitem.
  cbn [r_res r_world r_log].
  assert (Hins : (<[realm_xuid_id s := custom_id s]> (uuid_cache (bot w))) !! k
                 = if decide (realm_xuid_id s = k) then Some (custom_id s)
                   else uuid_cache (bot w) !! k).
  { case_decide as Hk; [subst k; by rewrite lookup_insert_eq |].
    by rewrite lookup_insert_ne. }
  destruct (py_int E (realm_id s)) as [rid |]; cbn; [| exact Hins].
  destruct (defaultdict_set_getitem _ _). cbn. exact Hins.
Qed.

Lemma seed_player_offline_realms E s w :
  offline_realms (bot (r_world (seed_player E s w))) = offline_realms (bot w).
Proof.
  unfold seed_player, bind, modify_bot, int_of_str, online_cache_getitem.
  cbn [r_res r_world r_log].
  destruct (py_int E (realm_id s)) as [rid |]; cbn; [| done].
  by destruct (defaultdict_set_getitem _ _).
Qed.

Lemma seed_players_offline_realms E l w :
  offline_realms (bot (r_world (for_each (seed_player E) l w))) = offline_realms (bot w).
Proof.
  revert w. induction l as [| s l IH]; intros w; [done |].
  rewrite for_each_cons. pose proof (seed_player_offline_realms E s w) as Hs.
  destruct (r_res (seed_player E s w)); cbn [r_world]; [done |].
  cbv zeta. by rewrite IH.
Qed.

Lemma seed_players_uuid_cache_other E l w k :
  (∀ s, s ∈ l → realm_xuid_id s ≠ k) →
  uuid_cache (bot (r_world (for_each (seed_player E) l w))) !! k
  = uuid_cache (bot w) !! k.
Proof.
  revert w. induction l as [| s l IH]; intros w Hall; [done |].
  rewrite for_each_cons.
  assert (Hstep : uuid_cache (bot (r_world (seed_player E s w))) !! k
                  = uuid_cache (bot w) !! k).
  { rewrite seed_player_uuid_cache. rewrite decide_False; [done |].
    apply Hall, elem_of_cons. by left. }
  destruct (r_res (seed_player E s w)); cbn [r_world]; [done |].
  cbv zeta. rewrite IH; [done |]. intros s' Hs'. apply Hall, elem_of_cons. by right.
Qed.

(** When the loop ends normally, the map holds under each row's key the
    identifier of a row of the list with that key. *)
Lemma seed_players_uuid_cache E l w s :
  r_res (for_each (seed_player E) l w) = inr tt →
  s ∈ l →
  ∃ s', s' ∈ l ∧ realm_xuid_id s' = realm_xuid_id s
        ∧ uuid_cache (bot (r_world (for_each (seed_player E) l w)))
            !! realm_xuid_id s = Some (custom_id s').
Proof.
  revert s w. induction l as [| s0 l IH]; intros s w Hres Hs.
  { by apply elem_of_nil in Hs. }
  rewrite for_each_cons in Hres |- *.
  destruct (r_res (seed_player E s0 w)) as [e | []] eqn:Hb; cbn [r_res r_world] in *;
    [done |]. cbv zeta in *.
  destruct (decide (realm_xuid_id s ∈ realm_xuid_id <$> l)) as [Hin | Hnone].
  - apply list_elem_of_fmap in Hin as (s1 & Hk1 & Hs1).
    destruct (IH s1 _ Hres Hs1) as (s' & Hs' & Hk' & Hc').
    exists s'. split; [apply elem_of_cons; by right |].
    split; [congruence |]. by rewrite Hk1.
  - apply elem_of_cons in Hs as [-> | Hs];
      [| destruct Hnone; by apply list_elem_of_fmap_2].
    exists s0. split; [apply elem_of_cons; by left |]. split; [done |].
    rewrite seed_players_uuid_cache_other.
    + rewrite seed_player_uuid_cache. by rewrite decide_True.
    + intros s1 Hs1 Hk. apply Hnone. rewrite <- Hk. by apply list_elem_of_fmap_2.
Qed.

Lemma seed_offline_realm_bot E key w :
  uuid_cache (bot (r_world (seed_offline_realm E key w))) = uuid_cache (bot w)
  ∧ offline_realms (bot (r_world (seed_offline_realm E key w)))
    = match py_int E (removeprefix "missing-realm-" key) with
      | Some z => ordered_set_add z (offline_realms (bot w))
      | None => offline_realms (bot w)
      end.
Proof.
  unfold seed_offline_realm, bind, modify_bot, int_of_str.
  by destruct (py_int E _).
Qed.

Lemma ordered_set_add_spec z l :
  (NoDup l → NoDup (ordered_set_add z l))
  ∧ ∀ y, y ∈ ordered_set_add z l ↔ y ∈ l ∨ y = z.
Proof.
  unfold ordered_set_add. case_decide as Hz; split.
  - done.
  - intros y. split; [by left |]. by intros [? | ->].
  - intros Hnd. apply NoDup_app. split_and!; [done | | apply NoDup_singleton].
    by intros x Hx ->%list_elem_of_singleton.
  - intros y. rewrite elem_of_app, list_elem_of_singleton. done.
Qed.

Lemma seed_offline_realms_run E keys w :
  r_res (for_each (seed_offline_realm E) keys w) = inr tt →
  let w' := r_world (for_each (seed_offline_realm E) keys w) in
  uuid_cache (bot w') = uuid_cache (bot w)
  ∧ (NoDup (offline_realms (bot w)) → NoDup (offline_realms (bot w')))
  ∧ ∀ z, z ∈ offline_realms (bot w')
         ↔ z ∈ offline_realms (bot w)
           ∨ ∃ k, k ∈ keys ∧ py_int E (removeprefix "missing-realm-" k) = Some z.
Proof.
  revert w. induction keys as [| k keys IH]; intros w Hres.
  { cbn. split_and!; try done. intros z. split; [by left |].
    intros [? | (k & Hk & _)]; [done | by apply elem_of_nil in Hk]. }
  rewrite for_each_cons in Hres |- *.
  pose proof (seed_offline_realm_frame E k w) as (_ & _ & _ & _ & Hr).
  destruct (seed_offline_realm_bot E k w) as [Hu Ho].
  cbv zeta in Hr. rewrite Hr in Hres |- *.
  destruct (py_int E (removeprefix "missing-realm-" k)) as [z0 |] eqn:Hint;
    cbn [r_res r_world] in *; [| done].
  cbv zeta in *. destruct (IH _ Hres) as (IHu & IHnd & IHin).
  destruct (ordered_set_add_spec z0 (offline_realms (bot w))) as [Hnd Hadd].
  split_and!.
  - by rewrite IHu.
  - intros Hw. apply IHnd. rewrite Ho. by apply Hnd.
  - intros z. rewrite IHin, Ho, Hadd. split.
    + intros [[? | ->] | (k' & Hk' & Hz)].
      * by left.
      * right. exists k. split; [apply elem_of_cons; by left | done].
      * right. exists k'. split; [apply elem_of_cons; by right | done].
    + intros [? | (k' & Hk' & Hz)]; [left; by left |].
      apply elem_of_cons in Hk' as [-> | Hk'].
      * left. right. congruence.
      * right. by exists k'.
Qed.

Lemma seed_live_subscribers_bot l w :
  uuid_cache (bot (r_world (for_each seed_live_subscriber l w))) = uuid_cache (bot w)
  ∧ offline_realms (bot (r_world (for_each seed_live_subscriber l w)))
    = offline_realms (bot w)
  ∧ uuid_calls (r_world (for_each seed_live_subscriber l w)) = uuid_calls w.
Proof.
  revert w. induction l as [| c l IH]; intros w; [done |].
  rewrite for_each_cons.
  assert (Hstep : uuid_cache (bot (r_world (seed_live_subscriber c w)))
                  = uuid_cache (bot w)
                  ∧ offline_realms (bot (r_world (seed_live_subscriber c w)))
                    = offline_realms (bot w)
                  ∧ uuid_calls (r_world (seed_live_subscriber c w)) = uuid_calls w
                  ∧ r_res (seed_live_subscriber c w) = inr tt).
  { unfold seed_live_subscriber. destruct (cfg_realm_id c); [| done].
    unfold bind, live_store_getitem, modify_bot.
    by destruct (defaultdict_set_getitem _ _). }
  destruct Hstep as (H1 & H2 & H3 & H4). rewrite H4. cbn [r_world]. cbv zeta.
  destruct (IH (r_world (seed_live_subscriber c w))) as (I1 & I2 & I3).
  by rewrite I1, I2, I3.
Qed.

(** The state [start] ends in when it gets through. *)
Lemma start_ok_world E utcnow w :
  r_res (start E utcnow w) = inr tt →
  r_res (start_seeded E utcnow w) = inr tt
  ∧ r_res (start_offline E utcnow w) = inr tt
  ∧ uuid_cache (bot (r_world (start E utcnow w)))
    = uuid_cache (bot (r_world (start_offline E utcnow w)))
  ∧ offline_realms (bot (r_world (start E utcnow w)))
    = offline_realms (bot (r_world (start_offline E utcnow w))).
Proof.
  destruct (start_phases E utcnow w) as [Hw Hr]. rewrite Hw, Hr. clear Hw Hr.
  destruct (r_res (start_seeded E utcnow w)) as [e | []]; [done |].
  destruct (r_res (start_offline E utcnow w)) as [e | []]; [done |].
  intros _.
  match goal with |- context [for_each seed_live_subscriber ?l ?w0] =>
    destruct (seed_live_subscribers_bot l w0) as (L1 & L2 & _) end.
  by rewrite L1, L2.
Qed.

(** X10. When [start] gets through, every stored session that is online and
    was seen within the five minutes has its key in the identity map, bound
    to the stored [custom_id] of such a session with the same key; resolving
    the pair afterwards returns that identifier and draws no new one. *)
Theorem start_restores_identities (E : Env) (utcnow : Z) (w : World)
    (s : PlayerSession) :
  r_res (start E utcnow w) = inr tt →
  s ∈ player_sessions w →
  online s = true →
  (utcnow - five_minutes ≤ last_seen s)%Z →
  let w' := r_world (start E utcnow w) in
  ∃ s', s' ∈ player_sessions w
        ∧ online s' = true
        ∧ (utcnow - five_minutes ≤ last_seen s')%Z
        ∧ realm_xuid_id s' = realm_xuid_id s
        ∧ resolve E (realm_id s) (xuid s) w' = (custom_id s', w').
Proof.
  intros Hok Hs Hon Hfresh. cbv zeta.
  destruct (start_ok_world E utcnow w Hok) as (H2 & H3 & Hu & _).
  assert (Hin : s ∈ filter (λ s, online s = true)
                      (player_sessions (start_sessions utcnow w)))
    by by apply fresh_online_rows.
  destruct (seed_players_uuid_cache E _ (start_sessions utcnow w) s H2 Hin)
    as (s' & Hs' & Hk & Hc).
  apply fresh_online_rows in Hs' as (Hs' & Hon' & Hfresh').
  exists s'. split_and!; try done.
  apply uuid_cache_getitem_hit. rewrite Hu.
  assert (Hoff : uuid_cache (bot (r_world (start_offline E utcnow w)))
                 = uuid_cache (bot (r_world (start_seeded E utcnow w)))).
  { unfold start_offline in *. destruct (TEST_MODE E); [done |].
    by destruct (seed_offline_realms_run E _ _ H3) as (-> & _). }
  rewrite Hoff. exact Hc.
Qed.

Lemma start_restores_identities_witness :
  r_res (start demo_env demo_now demo_start_world) = inr tt
  ∧ demo_fresh_session ∈ player_sessions demo_start_world
  ∧ online demo_fresh_session = true
  ∧ (demo_now - five_minutes ≤ last_seen demo_fresh_session)%Z
  ∧ ∃ s', s' ∈ player_sessions demo_start_world
          ∧ online s' = true
          ∧ (demo_now - five_minutes ≤ last_seen s')%Z
          ∧ realm_xuid_id s' = realm_xuid_id demo_fresh_session
          ∧ resolve demo_env (realm_id demo_fresh_session) (xuid demo_fresh_session)
              (r_world (start demo_env demo_now demo_start_world))
            = (custom_id s', r_world (start demo_env demo_now demo_start_world)).
Proof.
  assert (H1 : r_res (start demo_env demo_now demo_start_world) = inr tt)
    by (vm_compute; reflexivity).
  assert (H2 : demo_fresh_session ∈ player_sessions demo_start_world).
  { apply elem_of_cons. right. apply elem_of_cons. left. reflexivity. }
  assert (H4 : (demo_now - five_minutes ≤ last_seen demo_fresh_session)%Z)
    by (vm_compute; discriminate).
  split; [exact H1 |]. split; [exact H2 |]. split; [reflexivity |].
  split; [exact H4 |].
  apply (start_restores_identities demo_env demo_now demo_start_world
           demo_fresh_session H1 H2 eq_refl H4).
Defined.

(** X11. When [start] gets through from an empty [offline_realms], the set
    lists no realm twice and holds exactly the integers [int] reads from the
    [missing-realm-*] keys with their prefix removed, and nothing in test
    mode; in particular a key [missing-realm-] followed by a string [int]
    reads as [z] puts [z] in the set. *)
Theorem start_seeds_offline_realms (E : Env) (utcnow : Z) (w : World) :
  offline_realms (bot w) = [] →
  r_res (start E utcnow w) = inr tt →
  let seeded := offline_realms (bot (r_world (start E utcnow w))) in
  NoDup seeded
  ∧ (∀ z, z ∈ seeded
          ↔ TEST_MODE E = false
            ∧ ∃ k, k ∈ redis_missing_realm_keys E
                   ∧ py_int E (removeprefix "missing-realm-" k) = Some z)
  ∧ (∀ digits z, TEST_MODE E = false →
       "missing-realm-" +:+ digits ∈ redis_missing_realm_keys E →
       py_int E digits = Some z → z ∈ seeded).
Proof.
  intros Hempty Hok. cbv zeta.
  destruct (start_ok_world E utcnow w Hok) as (H2 & H3 & _ & Ho). rewrite Ho.
  assert (Hseeded : offline_realms (bot (r_world (start_seeded E utcnow w))) = []).
  { unfold start_seeded. by rewrite seed_players_offline_realms. }
  assert (Hmain : NoDup (offline_realms (bot (r_world (start_offline E utcnow w))))
            ∧ ∀ z, z ∈ offline_realms (bot (r_world (start_offline E utcnow w)))
                   ↔ TEST_MODE E = false
                     ∧ ∃ k, k ∈ redis_missing_realm_keys E
                            ∧ py_int E (removeprefix "missing-realm-" k) = Some z).
  { unfold start_offline in *. destruct (TEST_MODE E) eqn:Ht.
    - cbn [ret r_world]. rewrite Hseeded. split; [apply NoDup_nil_2 |].
      intros z. split; [by intros ?%elem_of_nil | by intros [? _]].
    - destruct (seed_offline_realms_run E _ _ H3) as (_ & Hnd & Hin).
      rewrite Hseeded in Hnd, Hin. split; [apply Hnd, NoDup_nil_2 |].
      intros z. rewrite Hin. split.
      + intros [?%elem_of_nil | ?]; done.
      + intros [_ ?]. by right. }
  destruct Hmain as [Hnd Hin]. split_and!; [done | done |].
  intros digits z Ht Hk Hz. apply Hin. split; [done |].
  exists ("missing-realm-" +:+ digits). split; [done |].
  by cbn.
Qed.

Lemma start_seeds_offline_realms_witness :
  offline_realms (bot demo_start_world) = []
  ∧ r_res (start demo_env demo_now demo_start_world) = inr tt
  ∧ NoDup (offline_realms (bot (r_world (start demo_env demo_now demo_start_world)))).
Proof.
  assert (H1 : r_res (start demo_env demo_now demo_start_world) = inr tt)
    by (vm_compute; reflexivity).
  split; [reflexivity |]. split; [exact H1 |].
  apply (start_seeds_offline_realms demo_env demo_now demo_start_world eq_refl H1).
Defined.

Lemma strip_prefix_Some pre s rest :
  strip_prefix pre s = Some rest ↔ s = pre +:+ rest.
Proof.
  revert s. induction pre as [| a pre IH]; intros s; cbn.
  - split; [by intros [= ->] | by intros ->].
  - destruct s as [| b s]; [done |].
    destruct (Ascii.eqb_spec a b) as [-> | Hne].
    + rewrite IH. split; [by intros -> | by intros [= ->]].
    + split; [done | intros [= ? ?]; done].
Qed.

Lemma startswith_spec pre s :
  startswith pre s = true ↔ ∃ rest, s = pre +:+ rest.
Proof.
  unfold startswith. destruct (strip_prefix pre s) as [rest |] eqn:Hs.
  - apply strip_prefix_Some in Hs. split; [by exists rest | done].
  - split; [done |]. intros [rest Hrest]. apply strip_prefix_Some in Hrest.
    congruence.
Qed.

(** [sub in s] holds exactly when [s] is [sub] between two strings. *)
Lemma str_contains_spec sub s :
  str_contains sub s = true ↔ ∃ before after, s = before +:+ sub +:+ after.
Proof.
  induction s as [| a s IH]; cbn [str_contains].
  - destruct (strip_prefix sub "") as [rest |] eqn:Hs.
    + apply strip_prefix_Some in Hs. split; [| done]. intros _. by exists "", rest.
    + split; [done |]. intros (before & after & Heq).
      destruct before; [| done]. change ("" = sub +:+ after) in Heq.
      apply (strip_prefix_Some sub "" after) in Heq. congruence.
  - destruct (strip_prefix sub (String a s)) as [rest |] eqn:Hs.
    + apply strip_prefix_Some in Hs. split; [| done]. intros _. by exists "", rest.
    + rewrite IH. split.
      * intros (before & after & ->). by exists (String a before), after.
      * intros (before & after & Heq). destruct before as [| b before].
        -- change (String a s = sub +:+ after) in Heq.
           apply (strip_prefix_Some sub (String a s) after) in Heq. congruence.
        -- injection Heq as -> ->. by exists before, after.
Qed.

(** X12. [default_sentry_filter] returns the event as it is or drops it; it
    drops it exactly when the hint's log record comes from a logger whose
    name holds [interactions] or [realms_bot] and its message holds [: 403]
    or [: 404] or begins with [Ignoring exception in ], or when the hint's
    exception is a [KeyboardInterrupt]. *)
Theorem sentry_filter_drops_exactly_noise {A : Type} (event : A) (hint : SentryHint) :
  (default_sentry_filter event hint = None
   ∨ default_sentry_filter event hint = Some event)
  ∧ (default_sentry_filter event hint = None
     ↔ (∃ record,
          hint_log_record hint = Some record
          ∧ (is_substring "interactions" (lr_name record)
             ∨ is_substring "realms_bot" (lr_name record))
          ∧ (is_substring ": 403" (lr_message record)
             ∨ is_substring ": 404" (lr_message record)
             ∨ ∃ rest, lr_message record = "Ignoring exception in " +:+ rest))
       ∨ hint_exc_is_keyboard_interrupt hint = Some true).
Proof.
  assert (Hlog : log_record_filtered hint = true
            ↔ ∃ record,
                hint_log_record hint = Some record
                ∧ (is_substring "interactions" (lr_name record)
                   ∨ is_substring "realms_bot" (lr_name record))
                ∧ (is_substring ": 403" (lr_message record)
                   ∨ is_substring ": 404" (lr_message record)
                   ∨ ∃ rest, lr_message record = "Ignoring exception in " +:+ rest)).
  { unfold log_record_filtered.
    destruct (hint_log_record hint) as [record |];
      [| split; [done | by intros (? & ? & _)]].
    pose proof (str_contains_spec "interactions" (lr_name record)) as S1.
    pose proof (str_contains_spec "realms_bot" (lr_name record)) as S2.
    pose proof (str_contains_spec ": 403" (lr_message record)) as S3.
    pose proof (str_contains_spec ": 404" (lr_message record)) as S4.
    pose proof (startswith_spec "Ignoring exception in " (lr_message record)) as S5.
    fold (is_substring "interactions" (lr_name record)) in S1.
    fold (is_substring "realms_bot" (lr_name record)) in S2.
    fold (is_substring ": 403" (lr_message record)) in S3.
    fold (is_substring ": 404" (lr_message record)) in S4.
    split.
    - intros Hb. exists record. split; [done |].
      destruct (str_contains "interactions" (lr_name record));
        destruct (str_contains "realms_bot" (lr_name record));
        destruct (str_contains ": 403" (lr_message record));
        destruct (str_contains ": 404" (lr_message record));
        destruct (startswith "Ignoring exception in " (lr_message record));
        cbn in Hb; try discriminate Hb; intuition.
    - intros (r & [= <-] & Hn & Hm).
      destruct (str_contains "interactions" (lr_name record));
        destruct (str_contains "realms_bot" (lr_name record));
        destruct (str_contains ": 403" (lr_message record));
        destruct (str_contains ": 404" (lr_message record));
        destruct (startswith "Ignoring exception in " (lr_message record));
        cbn; try reflexivity; intuition discriminate. }
  unfold default_sentry_filter.
  destruct (log_record_filtered hint) eqn:Hf.
  - split; [by left |]. split; [intros _; left; by apply Hlog | done].
  - assert (Hno : ¬ ∃ record,
                hint_log_record hint = Some record
                ∧ (is_substring "interactions" (lr_name record)
                   ∨ is_substring "realms_bot" (lr_name record))
                ∧ (is_substring ": 403" (lr_message record)
                   ∨ is_substring ": 404" (lr_message record)
                   ∨ ∃ rest, lr_message record = "Ignoring exception in " +:+ rest)).
    { intros H. apply Hlog in H. congruence. }
    destruct (hint_exc_is_keyboard_interrupt hint) as [[] |].
    + split; [by left |]. split; [by right | done].
    + split; [by right |]. split; [done |]. by intros [? | ?].
    + split; [by right |]. split; [done |]. by intros [? | ?].
Qed.

Lemma str_replace_from_absent old new s :
  str_contains old s = false → str_replace_from 0 old new s = s.
Proof.
  induction s as [| a s IH]; [done |]. cbn [str_contains str_replace_from].
  destruct (strip_prefix old (String a s)); [done |].
  intros Hs. by rewrite IH.
Qed.

(** X13. [to_proper_word] returns what [humanize.intword] gives unless that
    begins with [1.0]; a string [1.0] followed by a rest that holds no
    further [1.0] becomes [1] followed by the rest. *)
Theorem to_proper_word_drops_point_zero (intword : nat → string) (num : nat) :
  (startswith "1.0" (intword num) = false →
     to_proper_word intword num = intword num)
  ∧ (∀ rest, intword num = "1.0" +:+ rest → str_contains "1.0" rest = false →
       to_proper_word intword num = "1" +:+ rest).
Proof.
  unfold to_proper_word. split.
  - by intros ->.
  - intros rest -> Hrest.
    assert (Hs : startswith "1.0" ("1.0" +:+ rest) = true)
      by (apply startswith_spec; by exists rest).
    rewrite Hs. unfold str_replace.
    cbv -[str_replace_from]. cbn.
    by rewrite str_replace_from_absent.
Qed.

Lemma to_proper_word_drops_point_zero_witness :
  to_proper_word (λ _, "1.0 thousand") 1000 = "1 thousand".
Proof.
  destruct (to_proper_word_drops_point_zero (λ _, "1.0 thousand") 1000)
    as [_ Hrest].
  exact (Hrest " thousand" eq_refl eq_refl).
Defined.


Ltac list_cases H :=
  repeat (apply elem_of_cons in H as [H | H]);
  try (apply elem_of_nil in H; destruct H).

(** X14. Whatever [on_ready] sends reads [Logged in at] and the time while
    [init_load] is set and [Reconnected at] and the time afterwards; it
    clears [init_load] exactly when that message was sent without error,
    and it asks Discord for the owner only when neither [bot_owner] nor the
    cached [owner] is set.  After an [on_ready] that ended normally, every
    further [on_ready] announces a reconnect and asks for nobody. *)
Theorem on_ready_announces_login_once (CE : ClientEnv) (now : Z) (cl : Client) :
  let r := on_ready CE now cl in
  let message (first : bool) (t : Z) :=
    (if first then "Logged in at " else "Reconnected at ")
    +:+ ("<t:" +:+ pretty t +:+ ":f>") +:+ "!" in
  (∀ user text, CSend user text ∈ cr_log r → text = message (init_load cl) now)
  ∧ (init_load (cr_client r) = false
     ↔ init_load cl = false
       ∨ ∃ user text, CSend user text ∈ cr_log r ∧ user_send CE user text = None)
  ∧ (bot_owner cl ≠ None ∨ owner cl ≠ None → ∀ user, CFetchUser user ∉ cr_log r)
  ∧ (cr_res r = inr tt →
     ∀ now',
       let r' := on_ready CE now' (cr_client r) in
       (∀ user, CFetchUser user ∉ cr_log r')
       ∧ ∀ user text, CSend user text ∈ cr_log r' → text = message false now').
Proof.
  cbv zeta.
  assert (Hmsg : ∀ CE0 t cl0 user text,
            CSend user text ∈ cr_log (on_ready CE0 t cl0) →
            text = (if init_load cl0 then "Logged in at " else "Reconnected at ")
                   +:+ ("<t:" +:+ pretty t +:+ ":f>") +:+ "!").
  { intros CE0 t cl0 user text. unfold on_ready.
    destruct cl0 as [[] [bo |] [ow |] aid gc]; cbn;
      try destruct (fetch_user CE0 aid) as [e | [found |]]; cbn;
      try match goal with |- context [user_send CE0 ?u ?m] =>
            destruct (user_send CE0 u m) end; cbn;
      intros H; list_cases H; try discriminate H;
      by injection H as _ <-. }
  assert (Hfetch : ∀ CE0 t cl0 user,
            bot_owner cl0 ≠ None ∨ owner cl0 ≠ None →
            CFetchUser user ∉ cr_log (on_ready CE0 t cl0)).
  { intros CE0 t cl0 user Hown. unfold on_ready.
    destruct cl0 as [il [bo |] [ow |] aid gc]; cbn in *;
      try (destruct Hown; done);
      try match goal with |- context [user_send CE0 ?u ?m] =>
            destruct (user_send CE0 u m) end; cbn;
      intros H; list_cases H; discriminate H. }
  split_and!.
  - apply Hmsg.
  - unfold on_ready.
    destruct cl as [[] [bo |] [ow |] aid gc]; cbn;
      try destruct (fetch_user CE aid) as [e | [found |]]; cbn;
      try match goal with |- context [user_send CE ?u ?m] =>
            destruct (user_send CE u m) eqn:Hsend end; cbn;
      (split;
       [ intros Hil; first [ by left
                           | right; do 2 eexists; split;
                             [apply elem_of_cons; left; reflexivity | exact Hsend]
                           | right; do 2 eexists; split;
                             [apply elem_of_cons; right; apply elem_of_cons; left;
                              reflexivity | exact Hsend] ]
       | intros [Hil | (u & text & Hin & Hok)];
         [ done
         | first [ done
                 | list_cases Hin; try discriminate Hin;
                   injection Hin as ? ?; subst; congruence ] ] ]).
  - intros Hown user. by apply Hfetch.
  - intros Hok now'.
    assert (Hstate : init_load (cr_client (on_ready CE now cl)) = false
                     ∧ bot_owner (cr_client (on_ready CE now cl)) ≠ None).
    { revert Hok. unfold on_ready.
      destruct cl as [il [bo |] [ow |] aid gc]; cbn;
        try destruct (fetch_user CE aid) as [e | [found |]]; cbn;
        try match goal with |- context [user_send CE ?u ?m] =>
              destruct (user_send CE u m) end; cbn; done. }
    destruct Hstate as [Hil Hbo]. split.
    + intros user. apply Hfetch. by left.
    + intros user text Hin. apply Hmsg in Hin. by rewrite Hil in Hin.
Qed.

Lemma on_ready_announces_login_once_witness :
  init_load (cr_client (on_ready demo_client_env 5 demo_client)) = false.
Proof.
  destruct (on_ready_announces_login_once demo_client_env 5 demo_client)
    as (_ & Hclears & _).
  apply Hclears. right. eexists _, _. split.
  - apply elem_of_cons. right. apply elem_of_cons. left. reflexivity.
  - reflexivity.
Defined.


(** * Guilds joined and left ([exts/etc_events.py]) *)

Lemma filter_config_rows_other (g : Z) (table : list GuildConfig) :
  config_rows g (filter (λ c, guild_id c ≠ g) table) = [].
Proof.
  unfold config_rows. induction table as [| c table IH]; [done |].
  rewrite filter_cons. destruct (decide (guild_id c ≠ g)) as [Hne | Heq].
  - rewrite filter_cons. by destruct (decide (guild_id c = g)).
  - exact IH.
Qed.

Lemma filter_other_idemp (g : Z) (table : list GuildConfig) :
  filter (λ c, guild_id c ≠ g) (filter (λ c, guild_id c ≠ g) table)
  = filter (λ c, guild_id c ≠ g) table.
Proof.
  induction table as [| c table IH]; [done |].
  rewrite filter_cons. destruct (decide (guild_id c ≠ g)) as [Hne | Heq].
  - rewrite filter_cons. destruct (decide (guild_id c ≠ g)); [| done].
    by rewrite IH.
  - exact IH.
Qed.

Ltac guild_left_cases E g w :=
  unfold on_guild_left, bind, get_world, delete_config, delete_many_sessions,
    suppress_MicrosoftAPIException, try_except, call_leave_realm, emit, ret,
    raise;
  cbn;
  destruct (find_unique_config g (guild_configs w)) as [config |] eqn:Hfind;
    cbn;
  [ destruct (truthy_str (cfg_realm_id config)
              && (count_other_guilds (default "" (cfg_realm_id config)) g
                    (guild_configs w) =? 1)%nat); cbn;
    [ destruct (leave_realm E (default "" (cfg_realm_id config)))
        as [[] |]; cbn
    | ]
  | ].

(** X15. [on_guild_left] never touches the configuration of another guild or
    the bot's fields; before the bot is ready it does nothing at all; and
    when it ends normally on a ready bot, no configuration of the guild that
    was left remains. *)
Theorem guild_left_removes_only_that_guild (E : Env) (is_ready : bool) (g : Z)
    (w : World) :
  let r := on_guild_left E is_ready g w in
  filter (λ c, guild_id c ≠ g) (guild_configs (r_world r))
  = filter (λ c, guild_id c ≠ g) (guild_configs w)
  ∧ bot (r_world r) = bot w
  ∧ (is_ready = false → r_world r = w ∧ r_log r = [] ∧ r_res r = inr tt)
  ∧ (is_ready = true → r_res r = inr tt →
     config_rows g (guild_configs (r_world r)) = []).
Proof.
  cbv zeta. destruct is_ready.
  - guild_left_cases E g w;
      (split_and!;
       [ first [ apply filter_other_idemp | reflexivity ]
       | reflexivity
       | discriminate
       | intros _ Hres;
         first [ discriminate Hres
               | apply filter_config_rows_other
               | idtac ] ]).
    unfold find_unique_config in Hfind.
    by destruct (config_rows g (guild_configs w)).
  - unfold on_guild_left. cbn. by split_and!.
Qed.

Lemma guild_left_removes_only_that_guild_witness :
  config_rows 30 (guild_configs
                    (r_world (on_guild_left demo_env true 30 demo_shared_world)))
  = [].
Proof.
  destruct (guild_left_removes_only_that_guild demo_env true 30
              demo_shared_world) as (_ & _ & _ & Hgone).
  exact (Hgone eq_refl eq_refl).
Defined.


(** X16. On a ready bot, when the guild that was left has a configuration
    linked to a realm, [on_guild_left] deletes that realm's sessions and
    leaves the realm exactly when one other guild's configuration is linked
    to the same realm; a [MicrosoftAPIException] from leaving is swallowed,
    any other exception ends the handler with the configuration still
    stored.  With no other guild, or with two or more, the sessions stay and
    the Realms API is not called. *)
Theorem guild_left_purges_realm_iff_one_other_guild (E : Env) (g : Z)
    (w : World) (config : GuildConfig) (realm : string) :
  find_unique_config g (guild_configs w) = Some config →
  cfg_realm_id config = Some realm →
  realm ≠ "" →
  let r := on_guild_left E true g w in
  let shared := count_other_guilds realm g (guild_configs w) in
  (shared = 1%nat →
   player_sessions (r_world r)
   = filter (λ s, realm_id s ≠ realm) (player_sessions w)
   ∧ r_log r = [ALeaveRealm realm]
   ∧ match leave_realm E realm with
     | None | Some (MicrosoftAPIException _) => r_res r = inr tt
     | Some e => r_res r = inl e ∧ guild_configs (r_world r) = guild_configs w
     end)
  ∧ (shared ≠ 1%nat →
     player_sessions (r_world r) = player_sessions w
     ∧ r_log r = [] ∧ r_res r = inr tt).
Proof.
  intros Hfind Hrealm Hne. cbv zeta.
  unfold on_guild_left, bind, get_world, delete_config, delete_many_sessions,
    suppress_MicrosoftAPIException, try_except, call_leave_realm, emit, ret,
    raise.
  cbn. rewrite Hfind. cbn. rewrite Hrealm. cbn.
  assert (Htruthy : negb (String.eqb realm "") = true).
  { apply negb_true_iff. by apply String.eqb_neq. }
  rewrite Htruthy. cbn.
  destruct (count_other_guilds realm g (guild_configs w) =? 1)%nat eqn:Hcount;
    cbn.
  - apply Nat.eqb_eq in Hcount. split; [| by intros []].
    intros _. destruct (leave_realm E realm) as [[] |]; cbn; by split_and!.
  - apply Nat.eqb_neq in Hcount. split; [by intros ? |].
    intros _. by split_and!.
Qed.

Lemma guild_left_purges_realm_iff_one_other_guild_witness :
  player_sessions (r_world (on_guild_left demo_env true 10 demo_shared_world))
  = [mkPlayerSession 2 "2" "b" true 0]
  ∧ r_log (on_guild_left demo_env true 10 demo_shared_world) = [ALeaveRealm "1"].
Proof.
  destruct (guild_left_purges_realm_iff_one_other_guild demo_env 10
              demo_shared_world
              (mkGuildConfig 10 (Some "1") None (Some 100) false false true
                             None None)
              "1" eq_refl eq_refl ltac:(discriminate)) as [Hone _].
  destruct (Hone eq_refl) as (Hsessions & Hlog & _).
  split; [| exact Hlog].
  rewrite Hsessions. reflexivity.
Defined.

(** X17. [on_guild_join] only ever appends to the configuration table; on a
    ready bot and a guild that is not blacklisted it leaves the guild with
    one configuration if it had none and with the ones it had otherwise, so
    that handling the same join again changes nothing.  A blacklisted guild
    gets no configuration and is the one guild Discord is told to leave;
    before the bot is ready nothing happens. *)
Theorem guild_join_registers_once (leave_guild : Z → option exn)
    (new_config : Z → GuildConfig) (is_ready : bool) (blacklist : gset Z)
    (g : Z) (table : list GuildConfig) :
  (∀ g', guild_id (new_config g') = g') →
  let r := on_guild_join leave_guild new_config is_ready blacklist g table in
  gj_configs (on_guild_join leave_guild new_config is_ready blacklist g
                (gj_configs r))
  = gj_configs r
  ∧ (is_ready = true → g ∉ blacklist →
     gj_left_guilds r = []
     ∧ gj_res r = None
     ∧ gj_configs r = (if decide (count_configs g table = 0%nat)
                       then table ++ [new_config g] else table)
     ∧ count_configs g (gj_configs r) = (count_configs g table `max` 1)%nat)
  ∧ (is_ready = true → g ∈ blacklist →
     gj_configs r = table ∧ gj_left_guilds r = [g] ∧ gj_res r = leave_guild g)
  ∧ (is_ready = false →
     gj_configs r = table ∧ gj_left_guilds r = [] ∧ gj_res r = None).
Proof.
  intros Hnew. cbv zeta.
  assert (Hcreated : count_configs g (table ++ [new_config g])
                     = S (count_configs g table)).
  { unfold count_configs, config_rows. rewrite filter_app, length_app.
    rewrite filter_cons. destruct (decide (guild_id (new_config g) = g)) as [_ | Hno].
    - cbn. lia.
    - by destruct Hno. }
  unfold on_guild_join. destruct is_ready; cbn [negb].
  - destruct (decide (g ∈ blacklist)) as [Hin | Hnotin];
      cbn [gj_configs gj_left_guilds gj_res].
    + destruct (decide (g ∈ blacklist)); [| done].
      cbn [gj_configs gj_left_guilds gj_res]. by split_and!.
    + destruct (count_configs g table =? 0)%nat eqn:Hcount;
        cbn [gj_configs gj_left_guilds gj_res].
      * apply Nat.eqb_eq in Hcount.
        destruct (decide (g ∈ blacklist)); [done |].
        rewrite Hcreated. cbn [Nat.eqb gj_configs].
        split_and!; try done.
        intros _ _. rewrite Hcount.
        destruct (decide (0%nat = 0%nat)); [| done]. by split_and!.
      * destruct (decide (g ∈ blacklist)); [done |].
        rewrite Hcount. cbn [gj_configs]. apply Nat.eqb_neq in Hcount.
        split_and!; try done.
        intros _ _. destruct (decide (count_configs g table = 0%nat)); [done |].
        split_and!; try done. lia.
  - cbn [gj_configs gj_left_guilds gj_res negb]. by split_and!.
Qed.

Lemma guild_join_registers_once_witness :
  gj_configs (on_guild_join (λ _, None) demo_new_config true ∅ 40
                (guild_configs demo_shared_world))
  = guild_configs demo_shared_world ++ [demo_new_config 40]
  ∧ gj_configs (on_guild_join (λ _, None) demo_new_config true ∅ 40
                  (guild_configs demo_shared_world ++ [demo_new_config 40]))
    = guild_configs demo_shared_world ++ [demo_new_config 40].
Proof.
  destruct (guild_join_registers_once (λ _, None) demo_new_config true ∅ 40
              (guild_configs demo_shared_world) (λ _, eq_refl))
    as (Hagain & Hfresh & _).
  destruct (Hfresh eq_refl ltac:(set_solver)) as (_ & _ & Hcfg & _).
  cbv zeta in Hagain. rewrite Hcfg in Hagain.
  split; [exact Hcfg | exact Hagain].
Defined.

(** * Voting sites ([exts/voting.py]) *)

Lemma truthy_str_Some (o : option string) :
  truthy_str o = true → ∃ token, o = Some token ∧ token ≠ "" ∧ default "" o = token.
Proof.
  destruct o as [token |]; [| done]. cbn. intros Hne.
  exists token. split_and!; try done.
  apply negb_true_iff in Hne. by apply String.eqb_neq.
Qed.

Ltac token_cases E :=
  destruct (truthy_str (environ_get E "TOP_GG_TOKEN")) eqn:Htop;
  destruct (truthy_str (environ_get E "DISCORDSCOM_TOKEN")) eqn:Hdiscords;
  destruct (truthy_str (environ_get E "DBL_TOKEN")) eqn:Hdbl;
  destruct (truthy_str (environ_get E "DISCORD_BOTS_TOKEN")) eqn:Hbots.

(** X18. [Voting.__init__] raises [ValueError] exactly when none of the four
    token variables holds a non-empty value.  Otherwise its handlers are the
    sites whose token is set, in the order Top.gg, Discords.com, Discord Bot
    List, Discord Bots, and each handler sends its own token as the
    [Authorization] header. *)
Theorem voting_init_needs_a_token (E : Env) :
  (Voting_init E = inl ValueError
   ↔ ∀ site, site ∈ voting_sites → truthy_str (environ_get E site.2) = false)
  ∧ ∀ handlers, Voting_init E = inr handlers →
      name <$> handlers
      = (fst <$> filter (λ site, truthy_str (environ_get E site.2) = true)
                        voting_sites)
      ∧ ∀ handler, handler ∈ handlers →
          ∃ key token,
            (name handler, key) ∈ voting_sites
            ∧ environ_get E key = Some token
            ∧ token ≠ ""
            ∧ ("Authorization", token) ∈ headers handler.
Proof.
  split.
  - unfold Voting_init, configured_handlers, handler_if_token, voting_sites.
    token_cases E; cbn [app]; split;
      try discriminate; try reflexivity.
    all: try (intros Hall; exfalso;
              first [ pose proof (Hall ("Top.gg", "TOP_GG_TOKEN")
                                    ltac:(set_solver)) as Hf;
                      cbn [snd] in Hf; congruence
                    | pose proof (Hall ("Discords.com", "DISCORDSCOM_TOKEN")
                                    ltac:(set_solver)) as Hf;
                      cbn [snd] in Hf; congruence
                    | pose proof (Hall ("Discord Bot List", "DBL_TOKEN")
                                    ltac:(set_solver)) as Hf;
                      cbn [snd] in Hf; congruence
                    | pose proof (Hall ("Discord Bots", "DISCORD_BOTS_TOKEN")
                                    ltac:(set_solver)) as Hf;
                      cbn [snd] in Hf; congruence ]).
    intros _ site Hin. list_cases Hin; subst site; cbn [snd]; assumption.
  - intros handlers. unfold Voting_init, configured_handlers, handler_if_token.
    intros Hinit. split.
    + unfold voting_sites. rewrite !filter_cons, filter_nil.
      cbn [snd]. revert Hinit.
      token_cases E; cbn [app]; intros Hinit;
        try discriminate Hinit; injection Hinit as <-; reflexivity.
    + intros handler Hin. revert Hinit Hin.
      token_cases E; cbn [app]; intros Hinit;
        try discriminate Hinit; injection Hinit as <-; intros Hin;
        list_cases Hin; subst handler;
        cbn [name headers top_gg_handler discords_com_handler
             dbl_handler discord_bots_handler];
        first [ destruct (truthy_str_Some _ Htop) as (token & Hget & Hne & ->);
                exists "TOP_GG_TOKEN", token;
                split_and!; [set_solver | done | done | set_solver]
              | destruct (truthy_str_Some _ Hdiscords) as (token & Hget & Hne & ->);
                exists "DISCORDSCOM_TOKEN", token;
                split_and!; [set_solver | done | done | set_solver]
              | destruct (truthy_str_Some _ Hdbl) as (token & Hget & Hne & ->);
                exists "DBL_TOKEN", token;
                split_and!; [set_solver | done | done | set_solver]
              | destruct (truthy_str_Some _ Hbots) as (token & Hget & Hne & ->);
                exists "DISCORD_BOTS_TOKEN", token;
                split_and!; [set_solver | done | done | set_solver] ].
Qed.

Lemma format_top_gg_vote_url (bot_id : Z) :
  format_bot_id "https://top.gg/bot/{bot_id}/vote **(prefered)**" bot_id
  = "https://top.gg/bot/" +:+ pretty bot_id +:+ "/vote **(prefered)**".
Proof.
  unfold format_bot_id, str_replace.
  cbv -[String.append pretty]. reflexivity.
Qed.

(** X19. For the handlers [Voting.__init__] builds, the [vote] embed has one
    line per site among Top.gg, Discords.com and Discord Bot List whose
    token is set, and none for Discord Bots: when that is the only token,
    the extension loads and the description is empty.  When the Top.gg
    token is set, the first line is the Top.gg link with the bot's id. *)
Theorem vote_lists_sites_with_a_vote_page (E : Env) (handlers : list VoteHandler)
    (bot_id : Z) (color : string) (created_at : Z) :
  Voting_init E = inr handlers →
  length (website_votes handlers bot_id)
  = length (filter (λ key, truthy_str (environ_get E key) = true)
                   ["TOP_GG_TOKEN"; "DISCORDSCOM_TOKEN"; "DBL_TOKEN"])
  ∧ (truthy_str (environ_get E "TOP_GG_TOKEN") = false →
     truthy_str (environ_get E "DISCORDSCOM_TOKEN") = false →
     truthy_str (environ_get E "DBL_TOKEN") = false →
     e_description (vote handlers bot_id color created_at) = Some "")
  ∧ (truthy_str (environ_get E "TOP_GG_TOKEN") = true →
     head (website_votes handlers bot_id)
     = Some ("**Top.gg** - https://top.gg/bot/" +:+ pretty bot_id
             +:+ "/vote **(prefered)**")).
Proof.
  unfold Voting_init, configured_handlers, handler_if_token.
  rewrite !filter_cons, filter_nil.
  token_cases E; cbn [app]; intros Hinit;
    try discriminate Hinit; injection Hinit as <-;
    (split_and!;
     [ reflexivity
     | intros; first [ discriminate | reflexivity ]
     | intros; first [ discriminate | idtac ] ]).
  all: unfold website_votes; cbn [omap list_omap vote_url top_gg_handler
                                   truthy_str name default head];
    cbn [String.eqb Ascii.eqb Bool.eqb negb];
    rewrite format_top_gg_vote_url; reflexivity.
Qed.

Lemma vote_lists_sites_with_a_vote_page_witness :
  length (website_votes (configured_handlers demo_voting_env) 5) = 1%nat.
Proof.
  destruct (vote_lists_sites_with_a_vote_page demo_voting_env
              (configured_handlers demo_voting_env) 5 "c" 0 eq_refl)
    as [Hlen _].
  rewrite Hlen. reflexivity.
Defined.

(** X20. Every extension [start] loads comes from the extension list.  One
    whose name contains [voting] is loaded only while [TOP_GG_TOKEN] is set
    to a non-empty value, so [Voting.__init__] then succeeds with the Top.gg
    handler first; in test mode no extension whose name contains [autorun]
    or [etc] is loaded. *)
Theorem start_loads_voting_only_with_top_gg_token (E : Env)
    (ext_list : list string) (ext : string) :
  ext ∈ extensions_to_load E ext_list →
  ext ∈ ext_list
  ∧ (str_contains "voting" ext = true →
     ∃ token rest,
       Voting_init E = inr (top_gg_handler token :: rest)
       ∧ environ_get E "TOP_GG_TOKEN" = Some token
       ∧ token ≠ "")
  ∧ (TEST_MODE E = true →
     str_contains "autorun" ext = false ∧ str_contains "etc" ext = false).
Proof.
  unfold extensions_to_load. intros Hin.
  apply list_elem_of_filter in Hin as [Hskip Hin].
  unfold skips_extension in Hskip.
  apply orb_false_iff in Hskip as [Hvoting Htest].
  split_and!; [exact Hin | |].
  - intros Hname. rewrite Hname in Hvoting. cbn [andb] in Hvoting.
    apply negb_false_iff in Hvoting.
    destruct (truthy_str_Some _ Hvoting) as (token & Hget & Hne & Hdefault).
    exists token.
    unfold Voting_init, configured_handlers, handler_if_token.
    rewrite Hvoting, Hdefault. cbn [app].
    eexists. by split_and!.
  - intros Hmode. rewrite Hmode in Htest. cbn [andb] in Htest.
    by apply orb_false_iff in Htest.
Qed.

Lemma start_loads_voting_only_with_top_gg_token_witness :
  ∃ token rest,
    Voting_init demo_voting_env = inr (top_gg_handler token :: rest)
    ∧ environ_get demo_voting_env "TOP_GG_TOKEN" = Some token
    ∧ token ≠ "".
Proof.
  destruct (start_loads_voting_only_with_top_gg_token demo_voting_env
              ["exts.voting"; "exts.etc_events"] "exts.voting")
    as (_ & Hvoting & _).
  - unfold extensions_to_load. apply list_elem_of_filter. split.
    + reflexivity.
    + apply elem_of_cons. by left.
  - apply Hvoting. reflexivity.
Defined.

(** X21. While no post itself raises, [autopost_guild_count] ends normally
    and posts once to every handler, in order, with that handler's URL,
    headers and payload, whatever status the earlier responses had; it
    hands a response to [utils.error_handle] exactly when its status is an
    error.  A post that raises is the last call made. *)
Theorem autopost_reports_to_every_handler (session_post : string → PostOutcome)
    (bot_id : Z) (server_count shard_count : nat)
    (handlers : list VoteHandler) :
  let r := autopost_guild_count session_post bot_id server_count shard_count
             handlers in
  ((∀ handler e, handler ∈ handlers →
      session_post (stats_url bot_id handler) ≠ PostRaises e) →
   r.2 = inr tt
   ∧ filter (λ a, is_post a = true) r.1
     = stats_post bot_id server_count shard_count <$> handlers
   ∧ ∀ url, VErrorHandle url ∈ r.1
       ↔ ∃ handler, handler ∈ handlers
                   ∧ stats_url bot_id handler = url
                   ∧ session_post url = ResponseError)
  ∧ (∀ e, r.2 = inl e →
     ∃ done handler,
       done ++ [handler] `prefix_of` handlers
       ∧ session_post (stats_url bot_id handler) = PostRaises e
       ∧ filter (λ a, is_post a = true) r.1
         = stats_post bot_id server_count shard_count <$> (done ++ [handler])).
Proof.
  cbv zeta. split.
  - induction handlers as [| handler handlers IH]; intros Hok.
    + cbn. split_and!; try done.
      intros url. split; [by intros ?%elem_of_nil |].
      by intros (? & ?%elem_of_nil & _).
    + destruct IH as (IHres & IHposts & IHerr).
      { intros h e Hin. apply Hok. by right. }
      cbn [autopost_guild_count].
      destruct (session_post (stats_url bot_id handler)) as [e | |] eqn:Hpost.
      * exfalso. by apply (Hok handler e); [left |].
      * cbn [fst snd]. split_and!; [exact IHres | |].
        -- rewrite filter_cons. cbn [is_post stats_post].
           destruct (decide (true = true)); [| done].
           rewrite filter_cons. cbn [is_post].
           destruct (decide (false = true)); [done |].
           rewrite IHposts. reflexivity.
        -- intros url. split.
           ++ intros Hin. apply elem_of_cons in Hin as [Hin | Hin];
                [discriminate Hin |].
              apply elem_of_cons in Hin as [Hin | Hin].
              ** injection Hin as ->. exists handler.
                 split_and!; [by left | done | done].
              ** apply IHerr in Hin as (h & Hh & Hurl & Herr).
                 exists h. split_and!; [by right | done | done].
           ++ intros (h & Hh & Hurl & Herr).
              apply elem_of_cons in Hh as [-> | Hh].
              ** rewrite <- Hurl. right. left.
              ** right. right. apply IHerr. by exists h.
      * cbn [fst snd]. split_and!; [exact IHres | |].
        -- rewrite filter_cons. cbn [is_post stats_post].
           destruct (decide (true = true)); [| done].
           rewrite IHposts. reflexivity.
        -- intros url. split.
           ++ intros Hin. apply elem_of_cons in Hin as [Hin | Hin];
                [discriminate Hin |].
              apply IHerr in Hin as (h & Hh & Hurl & Herr).
              exists h. split_and!; [by right | done | done].
           ++ intros (h & Hh & Hurl & Herr).
              apply elem_of_cons in Hh as [-> | Hh].
              ** rewrite Hurl in Hpost. congruence.
              ** right. apply IHerr. by exists h.
  - induction handlers as [| handler handlers IH]; intros e Hres.
    + discriminate Hres.
    + cbn [autopost_guild_count] in *.
      destruct (session_post (stats_url bot_id handler)) as [e' | |] eqn:Hpost;
        cbn [fst snd] in *.
      * injection Hres as ->. exists [], handler. split_and!; try done.
        cbn [app]. by apply prefix_cons, prefix_nil.
      * destruct (IH e Hres) as (done & h & Hpre & Hraise & Hposts).
        exists (handler :: done), h. split_and!; try done.
        -- cbn [app]. by apply prefix_cons.
        -- rewrite filter_cons. cbn [is_post stats_post].
           destruct (decide (true = true)); [| done].
           rewrite filter_cons. cbn [is_post].
           destruct (decide (false = true)); [done |].
           rewrite Hposts. reflexivity.
      * destruct (IH e Hres) as (done & h & Hpre & Hraise & Hposts).
        exists (handler :: done), h. split_and!; try done.
        -- cbn [app]. by apply prefix_cons.
        -- rewrite filter_cons. cbn [is_post stats_post].
           destruct (decide (true = true)); [| done].
           rewrite Hposts. reflexivity.
Qed.

Lemma autopost_reports_to_every_handler_witness :
  (autopost_guild_count (λ _, ResponseError) 5 3 1
     (configured_handlers demo_voting_env)).2 = inr tt
  ∧ length (filter (λ a, is_post a = true)
              (autopost_guild_count (λ _, ResponseError) 5 3 1
                 (configured_handlers demo_voting_env)).1) = 2%nat.
Proof.
  destruct (autopost_reports_to_every_handler (λ _, ResponseError) 5 3 1
              (configured_handlers demo_voting_env)) as [Hok _].
  destruct Hok as (Hres & Hposts & _).
  - intros handler e _ Hraise. discriminate Hraise.
  - split; [exact Hres |]. rewrite Hposts. reflexivity.
Defined.

(** * Season statistics ([cogs/general_cmds.py]) *)

Lemma pastebin_cache_fresh (t : Z) (pastebins : gmap string PasteEntry)
    (season : string) (entry : PasteEntry) :
  pastebins !! season = Some entry →
  pastebin_cache t pastebins season
  = if (t - four_hours <? entry_time entry)%Z then Some entry else None.
Proof. intros Hget. unfold pastebin_cache. by rewrite Hget. Qed.

Lemma post_paste_log (CE : CogEnv) (title content : string) :
  ∃ rest,
    (post_paste CE title content).1
    = GPostPaste ("Token " +:+ default "None" (glot_key CE)) title content
      :: rest.
Proof.
  unfold post_paste.
  destruct (glot_post CE _ title content) as [e | resp]; [by eexists |].
  destruct (resp_status resp =? 200)%Z; by eexists.
Qed.

Lemma post_paste_returns (CE : CogEnv) (title content : string) :
  (∀ authorization title' content' e,
     glot_post CE authorization title' content' ≠ inl e) →
  ∃ url, (post_paste CE title content).2 = inr url.
Proof.
  intros Hglot. unfold post_paste.
  destruct (glot_post CE _ title content) as [e | resp] eqn:Hpost;
    [by destruct (Hglot _ _ _ _ Hpost) |].
  destruct (resp_status resp =? 200)%Z; by eexists.
Qed.

(** [check_stats] when the cache has no fresh entry and the upload
    returns. *)
Lemma check_stats_miss (CE : CogEnv) (t t' : Z) (guild : StatsGuild)
    (season : string) (b : CogBot) (role : SeasonRole) (url : string) :
  season_x_role b guild season = inr (Some role) →
  pastebin_cache t (pastebins b) season = None →
  (post_paste CE (paste_title role) (str_of_people guild role)).2 = inr url →
  let b' := set_pastebins
              (<[season := mkPasteEntry t' url
                             (length (list_of_people guild role))]>
                 (pastebins b)) b in
  check_stats CE t t' guild season b
  = send_last CE b'
      (post_paste CE (paste_title role) (str_of_people guild role)).1
      (GSendEmbed (stats_embed b' guild role
                     (length (list_of_people guild role)) url)).
Proof.
  intros Hrole Hmiss Hurl. cbv zeta. unfold check_stats.
  by rewrite Hrole, Hmiss, Hurl.
Qed.

(** [check_stats] when the cache has a fresh entry. *)
Lemma check_stats_hit (CE : CogEnv) (t t' : Z) (guild : StatsGuild)
    (season : string) (b : CogBot) (role : SeasonRole) (cache : PasteEntry) :
  season_x_role b guild season = inr (Some role) →
  pastebin_cache t (pastebins b) season = Some cache →
  check_stats CE t t' guild season b
  = send_last CE b []
      (GSendEmbed (stats_embed b guild role (entry_count cache)
                               (entry_url cache))).
Proof.
  intros Hrole Hhit. unfold check_stats. by rewrite Hrole, Hhit.
Qed.

(** X22. [bot.pastebins] is keyed by the season alone.  After a
    [check_stats] that found no fresh entry and uploaded the list of
    [guild1], a later [check_stats] for that season, from any guild that
    has the season role, uploads nothing and reports the stored count and
    URL of [guild1] as long as it looks less than four hours after the
    entry was stored; from four hours on it uploads the list of its own
    guild and stores that. *)
Theorem check_stats_reuses_paste_for_four_hours (CE : CogEnv)
    (t1 t1' t2 t2' : Z) (guild1 guild2 : StatsGuild) (season : string)
    (b : CogBot) (role1 role2 : SeasonRole) :
  season_x_role b guild1 season = inr (Some role1) →
  season_x_role b guild2 season = inr (Some role2) →
  pastebin_cache t1 (pastebins b) season = None →
  (∀ authorization title content e,
     glot_post CE authorization title content ≠ inl e) →
  let r1 := check_stats CE t1 t1' guild1 season b in
  let r2 := check_stats CE t2 t2' guild2 season (cog_bot r1) in
  let count1 := length (list_of_people guild1 role1) in
  ∃ url,
    pastebins (cog_bot r1) !! season = Some (mkPasteEntry t1' url count1)
    ∧ ((t2 - four_hours < t1')%Z →
       cog_bot r2 = cog_bot r1
       ∧ cog_log r2
         = [GSendEmbed (stats_embed (cog_bot r1) guild2 role2 count1 url)])
    ∧ ((t1' ≤ t2 - four_hours)%Z →
       (∃ authorization title content,
          GPostPaste authorization title content ∈ cog_log r2)
       ∧ ∃ url2,
           pastebins (cog_bot r2) !! season
           = Some (mkPasteEntry t2' url2
                     (length (list_of_people guild2 role2)))).
Proof.
  intros Hrole1 Hrole2 Hmiss Hglot. cbv zeta.
  destruct (post_paste_returns CE (paste_title role1)
              (str_of_people guild1 role1) Hglot) as [url Hurl].
  rewrite (check_stats_miss CE t1 t1' guild1 season b role1 url
             Hrole1 Hmiss Hurl).
  cbv zeta. cbn [send_last cog_bot].
  set (b1 := set_pastebins _ b).
  assert (Hget : pastebins b1 !! season
                 = Some (mkPasteEntry t1' url
                           (length (list_of_people guild1 role1)))).
  { unfold b1. cbn [pastebins set_pastebins]. apply lookup_insert_eq. }
  assert (Hrole2' : season_x_role b1 guild2 season = inr (Some role2))
    by exact Hrole2.
  exists url. split_and!.
  - exact Hget.
  - intros Hfresh.
    rewrite (check_stats_hit CE t2 t2' guild2 season b1 role2
               (mkPasteEntry t1' url (length (list_of_people guild1 role1)))
               Hrole2').
    + by cbn [send_last cog_bot cog_log app entry_count entry_url].
    + rewrite (pastebin_cache_fresh _ _ _ _ Hget). cbn [entry_time].
      destruct (t2 - four_hours <? t1')%Z eqn:Hlt; [done | lia].
  - intros Hstale.
    destruct (post_paste_returns CE (paste_title role2)
                (str_of_people guild2 role2) Hglot) as [url2 Hurl2].
    rewrite (check_stats_miss CE t2 t2' guild2 season b1 role2 url2
               Hrole2').
    + cbv zeta. cbn [send_last cog_bot cog_log].
      destruct (post_paste_log CE (paste_title role2)
                  (str_of_people guild2 role2)) as [rest ->].
      split.
      * do 3 eexists. cbn [app]. apply elem_of_cons. left. reflexivity.
      * exists url2. cbn [pastebins set_pastebins]. apply lookup_insert_eq.
    + rewrite (pastebin_cache_fresh _ _ _ _ Hget). cbn [entry_time].
      destruct (t2 - four_hours <? t1')%Z eqn:Hlt; [lia | done].
    + exact Hurl2.
Qed.

Lemma check_stats_reuses_paste_for_four_hours_witness :
  cog_log (check_stats demo_cog_env (four_hours - 1) four_hours
             demo_other_guild "3"
             (cog_bot (check_stats demo_cog_env 0 0 demo_stats_guild "3"
                         demo_cog_bot)))
  = [GSendEmbed (mkStatsEmbed "There are 1 people that have the Season 3 role."
                   "purple" "List of members: https://glot.io/snippets/abc"
                   "Bot" "avatar")].
Proof.
  destruct (check_stats_reuses_paste_for_four_hours demo_cog_env
              0 0 (four_hours - 1) four_hours
              demo_stats_guild demo_other_guild "3" demo_cog_bot
              (mkSeasonRole 11 "Season 3") (mkSeasonRole 22 "Season 3")
              eq_refl eq_refl eq_refl ltac:(discriminate))
    as (url & Hentry & Hfresh & _).
  destruct (Hfresh ltac:(reflexivity)) as [_ Hlog].
  rewrite Hlog.
  assert (Hurl : url = "https://glot.io/snippets/abc").
  { vm_compute in Hentry. by injection Hentry as <-. }
  rewrite Hurl. vm_compute. reflexivity.
Defined.

(** X23. When [check_stats] finds no fresh entry and glot.io answers with a
    status other than 200, the owner is told the status and the text, and
    the placeholder [ERROR, contact Astrea.] is stored and shown as the
    URL, so that it is what the next four hours of checks report.  When the
    upload itself raises, the exception ends the command with nothing
    stored and nothing sent. *)
Theorem check_stats_caches_failed_upload (CE : CogEnv) (t t' : Z)
    (guild : StatsGuild) (season : string) (b : CogBot) (role : SeasonRole) :
  season_x_role b guild season = inr (Some role) →
  pastebin_cache t (pastebins b) season = None →
  let r := check_stats CE t t' guild season b in
  let authorization := "Token " +:+ default "None" (glot_key CE) in
  let request :=
    GPostPaste authorization (paste_title role) (str_of_people guild role) in
  let count := length (list_of_people guild role) in
  (∀ e,
     glot_post CE authorization (paste_title role) (str_of_people guild role)
     = inl e →
     cog_bot r = b ∧ cog_res r = inl e ∧ cog_log r = [request])
  ∧ (∀ resp,
       glot_post CE authorization (paste_title role) (str_of_people guild role)
       = inr resp →
       resp_status resp ≠ 200 →
       pastebins (cog_bot r) !! season
       = Some (mkPasteEntry t' "ERROR, contact Astrea." count)
       ∧ cog_log r
         = [request;
            GMsgToOwner (pretty (resp_status resp) +:+ newline
                         +:+ resp_text resp);
            GSendEmbed (stats_embed (cog_bot r) guild role count
                          "ERROR, contact Astrea.")]).
Proof.
  intros Hrole Hmiss. cbv zeta. split.
  - intros e Hpost. unfold check_stats. rewrite Hrole, Hmiss.
    unfold post_paste. rewrite Hpost. by cbn [fst snd cog_bot cog_res cog_log].
  - intros resp Hpost Hstatus.
    assert (Hposted :
              post_paste CE (paste_title role) (str_of_people guild role)
              = ([GPostPaste ("Token " +:+ default "None" (glot_key CE))
                    (paste_title role) (str_of_people guild role);
                  GMsgToOwner (pretty (resp_status resp) +:+ newline
                               +:+ resp_text resp)],
                 inr "ERROR, contact Astrea.")).
    { unfold post_paste. rewrite Hpost.
      destruct (resp_status resp =? 200)%Z eqn:Heq; [| done].
      by apply Z.eqb_eq in Heq. }
    rewrite (check_stats_miss CE t t' guild season b role
               "ERROR, contact Astrea." Hrole Hmiss)
      by (by rewrite Hposted).
    cbv zeta. rewrite Hposted.
    cbn [fst snd send_last cog_bot cog_log app pastebins set_pastebins].
    split; [apply lookup_insert_eq | reflexivity].
Qed.

Lemma check_stats_caches_failed_upload_witness :
  entry_url <$> (pastebins (cog_bot (check_stats demo_failing_cog_env 0 0
                                       demo_stats_guild "3" demo_cog_bot))
                 !! "3")
  = Some "ERROR, contact Astrea.".
Proof.
  destruct (check_stats_caches_failed_upload demo_failing_cog_env 0 0
              demo_stats_guild "3" demo_cog_bot (mkSeasonRole 11 "Season 3")
              eq_refl eq_refl) as [_ Hfailed].
  destruct (Hfailed (mkGlotResponse 500 "" "down") eq_refl ltac:(discriminate))
    as [Hentry _].
  rewrite Hentry. reflexivity.
Defined.
